(** * latex2notion: a shallow embedding of the parser and the renderers

    The development follows the Python package [latex2notion]:
    [parser.py] (the AST, the regular expressions, [LaTeXParser]),
    the five handlers and [converter.py] ([convert], [NotionConverter]).

    Python strings are sequences of Unicode code points, so a character is a
    code point ([N]) and a string a list of them.  Indices and lengths are
    [nat]; the heading level offset, the only integer that can be negative,
    is a [Z]. *)

From Stdlib Require Import List NArith ZArith Arith Bool Lia.
From Stdlib Require Import Ascii String.
From Stdlib Require Import Permutation Sorted.
Import ListNotations.

Set Implicit Arguments.
Set Warnings "-register-all".

(** ** Python strings *)

Module PyStr.

Definition char := N.
Definition str := list char.

(** A literal of the source, written as a Rocq string (ASCII only). *)
Definition lit (s : string) : str := map N_of_ascii (list_ascii_of_string s).

Definition c_tab : char := 9%N.
Definition c_nl : char := 10%N.
Definition c_space : char := 32%N.
Definition c_hash : char := 35%N.
Definition c_dollar : char := 36%N.
Definition c_percent : char := 37%N.
Definition c_amp : char := 38%N.
Definition c_lparen : char := 40%N.
Definition c_rparen : char := 41%N.
Definition c_lbrack : char := 91%N.
Definition c_backslash : char := 92%N.
Definition c_rbrack : char := 93%N.
Definition c_lbrace : char := 123%N.
Definition c_pipe : char := 124%N.
Definition c_rbrace : char := 125%N.

Definition nl : str := [c_nl].

Definition ceq (a b : char) : bool := N.eqb a b.

Fixpoint str_eqb (a b : str) : bool :=
  match a, b with
  | [], [] => true
  | x :: a', y :: b' => ceq x y && str_eqb a' b'
  | _, _ => false
  end.

(** [Py_UNICODE_ISSPACE]: what [str.strip], [str.lstrip] and the regular
    expression class [\s] (on [str] patterns) take for whitespace. *)
Definition isspace (c : char) : bool :=
  ((9 <=? c) && (c <=? 13) || (28 <=? c) && (c <=? 32)
   || (c =? 133) || (c =? 160) || (c =? 5760)
   || (8192 <=? c) && (c <=? 8202)
   || (c =? 8232) || (c =? 8233) || (c =? 8239) || (c =? 8287)
   || (c =? 12288))%N.

Fixpoint lstrip (s : str) : str :=
  match s with
  | [] => []
  | c :: r => if isspace c then lstrip r else s
  end.

Definition rstrip (s : str) : str := rev (lstrip (rev s)).

Definition strip (s : str) : str := rstrip (lstrip s).

(** Truth value of a string: non-empty. *)
Definition nonempty (s : str) : bool :=
  match s with [] => false | _ :: _ => true end.

(** [s.split(sep)] for a one-character separator. *)
Fixpoint split (sep : char) (s : str) : list str :=
  match s with
  | [] => [[]]
  | c :: r =>
      if ceq c sep then [] :: split sep r
      else match split sep r with
           | l :: ls => (c :: l) :: ls
           | [] => [[c]]
           end
  end.

(** [sep.join(parts)]. *)
Fixpoint join (sep : str) (parts : list str) : str :=
  match parts with
  | [] => []
  | [p] => p
  | p :: ps => p ++ sep ++ join sep ps
  end.

(** [s.replace(c, by)] for a one-character pattern. *)
Fixpoint replace (c : char) (by_ : str) (s : str) : str :=
  match s with
  | [] => []
  | x :: r => if ceq x c then by_ ++ replace c by_ r else x :: replace c by_ r
  end.

(** [c in s] for a one-character [c]. *)
Definition contains (c : char) (s : str) : bool := existsb (ceq c) s.

Fixpoint startswith (p s : str) : bool :=
  match p, s with
  | [], _ => true
  | x :: p', y :: s' => ceq x y && startswith p' s'
  | _ :: _, [] => false
  end.

(** [sub in s] for a substring. *)
Fixpoint contains_sub (sub s : str) : bool :=
  startswith sub s ||
  match s with
  | [] => false
  | _ :: r => contains_sub sub r
  end.

(** [s[a:b]] for indices [0 <= a], [0 <= b]. *)
Definition slice (s : str) (a b : nat) : str := firstn (b - a) (skipn a s).

(** [s[a:]]. *)
Definition slice_from (s : str) (a : nat) : str := skipn a s.

(** [c * n] for a one-character string; a count of zero or less gives the
    empty string. *)
Definition repeat_char (c : char) (n : Z) : str := repeat c (Z.to_nat n).

(** Number of occurrences of a character. *)
Definition count (c : char) (s : str) : nat :=
  List.length (filter (ceq c) s).

End PyStr.

Import PyStr.

(** ** The regular expressions, as matchers

    A matcher is one attempt of the regex engine at one position: it gets the
    character before the position (for the look-behind of [math_inline]) and
    the rest of the input, and gives the length of the match and what the
    groups captured.  All the patterns of the program are deterministic: a
    greedy [\s*] is followed by a character that is not whitespace, a greedy
    [[^c]+] by the character [c], so that giving characters back never turns a
    failed attempt into a match. None of them matches the empty string. *)

Module Re.

Definition matcher (G : Type) := option char -> str -> option (nat * G).

(** A literal prefix: the rest after it. *)
Fixpoint strip_prefix (p s : str) : option str :=
  match p, s with
  | [], _ => Some s
  | x :: p', y :: s' => if ceq x y then strip_prefix p' s' else None
  | _ :: _, [] => None
  end.

(** Greedy [\s*]: how many characters it takes, and the rest. *)
Fixpoint skip_ws (s : str) : nat * str :=
  match s with
  | c :: r => if isspace c then let (n, r') := skip_ws r in (S n, r') else (0, s)
  | [] => (0, [])
  end.

(** Greedy [[^c]*]: what it takes, and the rest. *)
Fixpoint span_not (c : char) (s : str) : str * str :=
  match s with
  | x :: r => if ceq x c then ([], s) else let (g, r') := span_not c r in (x :: g, r')
  | [] => ([], [])
  end.

(** Lazy [(.*?)] under DOTALL followed by the literal [stop]: the text before
    the first occurrence of [stop]. *)
Fixpoint until_lit (stop : str) (s : str) : option str :=
  if startswith stop s then Some []
  else match s with
       | [] => None
       | x :: r => match until_lit stop r with
                   | Some g => Some (x :: g)
                   | None => None
                   end
       end.

(** [{([^}]+)}] : the group and the rest after the closing brace. *)
Definition braced (s : str) : option (str * str) :=
  match s with
  | c :: r =>
      if ceq c c_lbrace then
        match span_not c_rbrace r with
        | ((_ :: _) as g, _ :: r') => Some (g, r')
        | _ => None
        end
      else None
  | [] => None
  end.

(** [\\cmd\s*\{([^}]+)\}] for a command name [cmd] (with its backslash). *)
Definition cmd_braced (cmd : str) : matcher str := fun _ s =>
  match strip_prefix cmd s with
  | Some r1 =>
      let (w, r2) := skip_ws r1 in
      match braced r2 with
      | Some (g, _) => Some (List.length cmd + w + 1 + List.length g + 1, g)
      | None => None
      end
  | None => None
  end.

(** [\\href\s*\{([^}]+)\}\s*\{([^}]+)\}]. *)
Definition href_m : matcher (str * str) := fun _ s =>
  match strip_prefix (lit "\href") s with
  | Some r1 =>
      let (w1, r2) := skip_ws r1 in
      match braced r2 with
      | Some (g1, r3) =>
          let (w2, r4) := skip_ws r3 in
          match braced r4 with
          | Some (g2, _) =>
              Some (5 + w1 + 1 + List.length g1 + 1
                    + w2 + 1 + List.length g2 + 1, (g1, g2))
          | None => None
          end
      | None => None
      end
  | None => None
  end.

(** [(?<!\$)\$(?!\$)([^$]+)\$(?!\$)].  The look-ahead after the opening
    dollar is subsumed by the group, which needs one character that is not a
    dollar. *)
Definition math_inline_m : matcher str := fun prev s =>
  let behind_ok :=
    match prev with
    | Some p => negb (ceq p c_dollar)
    | None => true
    end in
  if behind_ok then
    match s with
    | c :: r =>
        if ceq c c_dollar then
          match span_not c_dollar r with
          | ((_ :: _) as g, _ :: r') =>
              if startswith [c_dollar] r' then None
              else Some (List.length g + 2, g)
          | _ => None
          end
        else None
    | [] => None
    end
  else None.

(** [\$\$([^$]+)\$\$]. *)
Definition math_display_m : matcher str := fun _ s =>
  match strip_prefix [c_dollar; c_dollar] s with
  | Some r =>
      match span_not c_dollar r with
      | ((_ :: _) as g, r') =>
          if startswith [c_dollar; c_dollar] r'
          then Some (List.length g + 4, g) else None
      | _ => None
      end
  | None => None
  end.

(** [opening(.*?)closing] under DOTALL, for the two-character delimiters
    [\\\[ ... \\\]] and [\\\( ... \\\)]. *)
Definition delimited_m (opening closing : str) : matcher str := fun _ s =>
  match strip_prefix opening s with
  | Some r =>
      match until_lit closing r with
      | Some g =>
          Some (List.length opening + List.length g + List.length closing, g)
      | None => None
      end
  | None => None
  end.

(** [\\item\s*] and then a group of [.*]: the dot stops at a newline. *)
Definition item_m : matcher str := fun _ s =>
  match strip_prefix (lit "\item") s with
  | Some r1 =>
      let (w, r2) := skip_ws r1 in
      let (g, _) := span_not c_nl r2 in
      Some (5 + w + List.length g, g)
  | None => None
  end.

(** [%.*$] under MULTILINE: the dot stops at a newline, where (or at the end
    of the input) [$] matches. *)
Definition comment_m : matcher unit := fun _ s =>
  match s with
  | c :: r =>
      if ceq c c_percent then
        let (g, _) := span_not c_nl r in Some (S (List.length g), tt)
      else None
  | [] => None
  end.

(** [pattern.search(s)]: the leftmost position where an attempt succeeds,
    as (start, end, groups). *)
Fixpoint search_from {G} (m : matcher G) (prev : option char) (pos : nat)
    (s : str) : option (nat * nat * G) :=
  match m prev s with
  | Some (n, g) => Some (pos, pos + n, g)
  | None =>
      match s with
      | [] => None
      | c :: r => search_from m (Some c) (S pos) r
      end
  end.

Definition search {G} (m : matcher G) (s : str) : option (nat * nat * G) :=
  search_from m None 0 s.

(** [pattern.finditer(s)]: the matches from left to right, each attempt
    starting where the previous match ended.  [skip] counts the characters of
    the current match still to pass. *)
Fixpoint finditer_from {G} (m : matcher G) (prev : option char) (pos : nat)
    (skip : nat) (s : str) : list (nat * nat * G) :=
  match s with
  | [] => []
  | c :: r =>
      match skip with
      | S k => finditer_from m (Some c) (S pos) k r
      | O =>
          match m prev s with
          | Some (n, g) =>
              (pos, pos + n, g) :: finditer_from m (Some c) (S pos) (Nat.pred n) r
          | None => finditer_from m (Some c) (S pos) 0 r
          end
      end
  end.

Definition finditer {G} (m : matcher G) (s : str) : list (nat * nat * G) :=
  finditer_from m None 0 0 s.

(** [re.sub(pattern, repl, s)] for a replacement without group references. *)
Fixpoint sub_from {G} (m : matcher G) (repl : str) (prev : option char)
    (skip : nat) (s : str) : str :=
  match s with
  | [] => []
  | c :: r =>
      match skip with
      | S k => sub_from m repl (Some c) k r
      | O =>
          match m prev s with
          | Some (n, _) => repl ++ sub_from m repl (Some c) (Nat.pred n) r
          | None => c :: sub_from m repl (Some c) 0 r
          end
      end
  end.

Definition sub {G} (m : matcher G) (repl : str) (s : str) : str :=
  sub_from m repl None 0 s.

End Re.

Import Re.

(** ** parser.py: the AST *)

Inductive NodeType :=
| DOCUMENT | SECTION | SUBSECTION | SUBSUBSECTION | PARAGRAPH
| MATH_INLINE | MATH_DISPLAY | TEXT | BOLD | ITALIC | CODE | LINK
| LIST_ITEMIZE | LIST_ENUMERATE | LIST_ITEM | TABLE
| QUOTE | VERBATIM | CODE_BLOCK.

Definition NodeType_eqb (a b : NodeType) : bool :=
  match a, b with
  | DOCUMENT, DOCUMENT | SECTION, SECTION | SUBSECTION, SUBSECTION
  | SUBSUBSECTION, SUBSUBSECTION | PARAGRAPH, PARAGRAPH
  | MATH_INLINE, MATH_INLINE | MATH_DISPLAY, MATH_DISPLAY | TEXT, TEXT
  | BOLD, BOLD | ITALIC, ITALIC | CODE, CODE | LINK, LINK
  | LIST_ITEMIZE, LIST_ITEMIZE | LIST_ENUMERATE, LIST_ENUMERATE
  | LIST_ITEM, LIST_ITEM | TABLE, TABLE | QUOTE, QUOTE
  | VERBATIM, VERBATIM | CODE_BLOCK, CODE_BLOCK => true
  | _, _ => false
  end.

(** [ASTNode.content] is [None], a string, or (for the rows of a table) a
    list of cell strings. *)
Inductive Content :=
| CNone
| CStr (s : str)
| CCells (cells : list str).

(** The values the parser stores in [ASTNode.attributes]. *)
Inductive AttrVal :=
| AInt (n : nat)
| AStr (s : str).

Inductive ASTNode := Node {
  node_type : NodeType;
  content : Content;
  children : list ASTNode;
  attributes : list (string * AttrVal)
}.

(** [attributes.get(key)]. *)
Fixpoint attr_get (key : string) (attrs : list (string * AttrVal))
  : option AttrVal :=
  match attrs with
  | [] => None
  | (k, v) :: r => if String.eqb k key then Some v else attr_get key r
  end.

(** [ASTNode(node_type, content=c)]. *)
Definition leaf (t : NodeType) (c : Content) : ASTNode := Node t c [] [].

(** ** parser.py: LaTeXParser *)

Module LaTeXParser.

(** [self.patterns]. *)
Definition p_section : matcher str := cmd_braced (lit "\section").
Definition p_subsection : matcher str := cmd_braced (lit "\subsection").
Definition p_subsubsection : matcher str := cmd_braced (lit "\subsubsection").
Definition p_textbf : matcher str := cmd_braced (lit "\textbf").
Definition p_textit : matcher str := cmd_braced (lit "\textit").
Definition p_texttt : matcher str := cmd_braced (lit "\texttt").
Definition p_href : matcher (str * str) := href_m.
Definition p_math_inline : matcher str := math_inline_m.
Definition p_math_display : matcher str := math_display_m.
Definition p_math_display_brackets : matcher str :=
  delimited_m (lit "\[") (lit "\]").
Definition p_math_inline_parens : matcher str :=
  delimited_m (lit "\(") (lit "\)").
Definition p_begin_env : matcher str := cmd_braced (lit "\begin").
Definition p_end_env : matcher str := cmd_braced (lit "\end").
Definition p_item : matcher str := item_m.

(** The tuples [(elem_type, start, end, content)] of [_parse_paragraph]; the
    tag and the captured content are one field here, so that only [href]
    carries a pair. *)
Inductive ElemKind :=
| K_math_inline (g : str)
| K_math_display (g : str)
| K_textbf (g : str)
| K_textit (g : str)
| K_code (g : str)
| K_href (url link_text : str).

Record Elem := mkElem { e_kind : ElemKind; e_start : nat; e_end : nat }.

Definition elems_of {G} (k : G -> ElemKind) (m : matcher G) (text : str)
  : list Elem :=
  map (fun x => match x with (s, e, g) => mkElem (k g) s e end)
      (finditer m text).

(** The list [elements] before it is sorted. *)
Definition find_elements (text : str) : list Elem :=
  elems_of K_math_display p_math_display text
  ++ elems_of K_math_inline p_math_inline text
  ++ elems_of K_math_display p_math_display_brackets text
  ++ elems_of K_math_inline p_math_inline_parens text
  ++ elems_of K_textbf p_textbf text
  ++ elems_of K_textit p_textit text
  ++ elems_of K_code p_texttt text
  ++ elems_of (fun g => K_href (fst g) (snd g)) p_href text.

(** [elements.sort(key=lambda x: x[1])]: Python's sort is stable, so the
    result is the one of any stable sort on the start offset. *)
Fixpoint insert_elem (e : Elem) (l : list Elem) : list Elem :=
  match l with
  | [] => [e]
  | x :: r => if e_start e <=? e_start x then e :: l else x :: insert_elem e r
  end.

Definition sort_elements (l : list Elem) : list Elem :=
  fold_right insert_elem [] l.

(** The node appended for an element. *)
Definition elem_node (e : Elem) : ASTNode :=
  match e_kind e with
  | K_math_inline g => leaf MATH_INLINE (CStr g)
  | K_math_display g => leaf MATH_DISPLAY (CStr g)
  | K_textbf g => leaf BOLD (CStr g)
  | K_textit g => leaf ITALIC (CStr g)
  | K_code g => leaf CODE (CStr g)
  | K_href url link_text =>
      Node LINK (CStr link_text) [] [("url"%string, AStr url)]
  end.

(** One turn of the loop over the sorted elements; the state is [pos] and
    [para.children]. *)
Definition build_step (text : str) (st : nat * list ASTNode) (e : Elem)
  : nat * list ASTNode :=
  let (pos, ch) := st in
  let ch1 :=
    if pos <? e_start e then
      let text_before := slice text pos (e_start e) in
      if nonempty (strip text_before)
      then ch ++ [leaf TEXT (CStr text_before)] else ch
    else ch in
  (e_end e, ch1 ++ [elem_node e]).

Definition _parse_paragraph (text : str) : ASTNode :=
  let elements := sort_elements (find_elements text) in
  let (pos, ch) := fold_left (build_step text) elements (0, []) in
  let ch1 :=
    if pos <? List.length text then
      let remaining_text := slice_from text pos in
      if nonempty (strip remaining_text)
      then ch ++ [leaf TEXT (CStr remaining_text)] else ch
    else ch in
  let ch2 :=
    match ch1 with
    | [] => if nonempty (strip text) then [leaf TEXT (CStr text)] else []
    | _ => ch1
    end in
  Node PARAGRAPH CNone ch2 [].

(** The block that saves the item collected so far, which the source has
    twice: in the loop and after it. *)
Definition save_item (current_item_content : option (list str))
    (items : list ASTNode) : list ASTNode :=
  match current_item_content with
  | Some ((_ :: _) as c) =>
      let item_text := strip (join nl c) in
      if nonempty item_text
      then items ++ [Node LIST_ITEM CNone (children (_parse_paragraph item_text)) []]
      else items
  | _ => items
  end.

(** One turn of the loop over the lines of a list body; the state is [items]
    and [current_item_content], which the source tests against [None]. *)
Definition item_step (st : list ASTNode * option (list str)) (line : str)
  : list ASTNode * option (list str) :=
  let (items, cur) := st in
  match search p_item line with
  | Some (_, _, g) =>
      let item_text_after_item := strip g in
      (save_item cur items,
       Some (if nonempty item_text_after_item
             then [item_text_after_item] else []))
  | None =>
      (items,
       match cur with
       | Some c => Some (c ++ [line])
       | None => None
       end)
  end.

Definition _parse_list_items (content : str) : list ASTNode :=
  let (items, cur) :=
    fold_left item_step (split c_nl content) ([], Some []) in
  save_item cur items.

Definition is_table_row_line (line : str) : bool :=
  contains c_amp line && negb (startswith [c_percent] (strip line)).

Definition _parse_table (content : str) : list ASTNode :=
  flat_map
    (fun line =>
       if is_table_row_line line
       then [leaf TEXT (CCells (map strip (split c_amp line)))]
       else [])
    (split c_nl content).

(** The loop of [_parse_environment] over [lines[start_line+1:]]; [i] is the
    index of the first line of [rest].  It gives the index of the matching
    [\end] line when the loop breaks there, and the collected body lines. *)
Fixpoint scan_env (env_name : str) (rest : list str) (i : nat) (depth : Z)
    (env_content_lines : list str) : option nat * list str :=
  match rest with
  | [] => (None, env_content_lines)
  | line :: rest' =>
      match search p_begin_env line with
      | Some _ =>
          scan_env env_name rest' (S i) (depth + 1) (env_content_lines ++ [line])
      | None =>
          match search p_end_env line with
          | Some (_, _, g) =>
              if str_eqb g env_name then
                if (depth - 1 =? 0)%Z then (Some i, env_content_lines)
                else scan_env env_name rest' (S i) (depth - 1)
                       (env_content_lines ++ [line])
              else scan_env env_name rest' (S i) depth (env_content_lines ++ [line])
          | None =>
              scan_env env_name rest' (S i) depth (env_content_lines ++ [line])
          end
      end
  end.

Definition env_map (env_name : str) : option NodeType :=
  if str_eqb env_name (lit "itemize") then Some LIST_ITEMIZE
  else if str_eqb env_name (lit "enumerate") then Some LIST_ENUMERATE
  else if str_eqb env_name (lit "quote") then Some QUOTE
  else if str_eqb env_name (lit "verbatim") then Some VERBATIM
  else if str_eqb env_name (lit "lstlisting") then Some CODE_BLOCK
  else if str_eqb env_name (lit "table") then Some TABLE
  else if str_eqb env_name (lit "tabular") then Some TABLE
  else None.

Definition is_list_env (env_name : str) : bool :=
  str_eqb env_name (lit "itemize") || str_eqb env_name (lit "enumerate").

Definition is_table_env (env_name : str) : bool :=
  str_eqb env_name (lit "table") || str_eqb env_name (lit "tabular").

Definition _parse_environment (start_line : nat) (env_name : str)
    (lines : list str) : ASTNode :=
  let (found, env_content_lines) :=
    scan_env env_name (skipn (S start_line) lines) (S start_line) 1%Z [] in
  let end_line := match found with Some i => i | None => start_line + 1 end in
  let env_content := join nl env_content_lines in
  let node_type :=
    match env_map env_name with Some t => t | None => PARAGRAPH end in
  let attrs :=
    [("end_line"%string, AInt end_line); ("env_name"%string, AStr env_name)] in
  if is_list_env env_name
  then Node node_type (CStr env_content) (_parse_list_items env_content) attrs
  else if is_table_env env_name
  then Node node_type (CStr env_content) (_parse_table env_content) attrs
  else Node node_type (CStr env_content) [] attrs.

(** [env_node.attributes.get('end_line', i + 1) + 1]. *)
Definition next_line (env_node : ASTNode) (i : nat) : nat :=
  match attr_get "end_line" (attributes env_node) with
  | Some (AInt n) => n + 1
  | _ => (i + 1) + 1
  end.

(** The [while] loop of [parse]; [fuel] bounds the number of turns, and the
    loop gives [None] when it is used up. *)
Fixpoint parse_loop (fuel : nat) (lines : list str) (i : nat)
    (root_children : list ASTNode) : option (list ASTNode) :=
  match fuel with
  | O => None
  | S fuel' =>
      if i <? List.length lines then
        let line := strip (nth i lines []) in
        if negb (nonempty line) then parse_loop fuel' lines (i + 1) root_children
        else
          match search p_section line with
          | Some (_, _, heading_text) =>
              parse_loop fuel' lines (i + 1)
                (root_children ++ [leaf SECTION (CStr heading_text)])
          | None =>
          match search p_subsection line with
          | Some (_, _, heading_text) =>
              parse_loop fuel' lines (i + 1)
                (root_children ++ [leaf SUBSECTION (CStr heading_text)])
          | None =>
          match search p_subsubsection line with
          | Some (_, _, heading_text) =>
              parse_loop fuel' lines (i + 1)
                (root_children ++ [leaf SUBSUBSECTION (CStr heading_text)])
          | None =>
          match search p_begin_env line with
          | Some (_, _, env_name) =>
              let env_node := _parse_environment i env_name lines in
              parse_loop fuel' lines (next_line env_node i)
                (root_children ++ [env_node])
          | None =>
              let paragraph_node := _parse_paragraph line in
              parse_loop fuel' lines (i + 1)
                (match children paragraph_node with
                 | [] => root_children
                 | _ :: _ => root_children ++ [paragraph_node]
                 end)
          end end end end
      else Some root_children
  end.

(** [parse]: each turn of the loop moves [i] forward, so one more turn than
    there are lines is enough (see [parse_total]). *)
Definition parse (latex_text : str) : option ASTNode :=
  let lines := split c_nl latex_text in
  match parse_loop (S (List.length lines)) lines 0 [] with
  | Some ch => Some (Node DOCUMENT CNone ch [])
  | None => None
  end.

End LaTeXParser.

(** ** The handlers

    A renderer gives [None] where the Python code gives no string that this
    development describes: [''.join] raises [TypeError] on a part that is
    not a string, and an f-string over a cell list or an integer attribute
    prints a [repr] that is not embedded here.  On the trees of the parser
    neither happens (see [convert_total]). *)

Definition bind {A B} (x : option A) (k : A -> option B) : option B :=
  match x with Some a => k a | None => None end.

Notation "x <- e ;; k" := (bind e (fun x => k))
  (at level 61, e at next level, right associativity).

Fixpoint traverse {A B} (f : A -> option B) (l : list A) : option (list B) :=
  match l with
  | [] => Some []
  | a :: r => b <- f a ;; bs <- traverse f r ;; Some (b :: bs)
  end.

(** A part handed to [''.join]: it has to be a string. *)
Definition as_part (c : Content) : option str :=
  match c with CStr s => Some s | _ => None end.

(** [f"{node.content}"]. *)
Definition fmt (c : Content) : option str :=
  match c with
  | CStr s => Some s
  | CNone => Some (lit "None")
  | CCells _ => None
  end.

(** [f"{child.attributes.get('url', '')}"]. *)
Definition fmt_url (attrs : list (string * AttrVal)) : option str :=
  match attr_get "url" attrs with
  | None => Some []
  | Some (AStr s) => Some s
  | Some (AInt _) => None
  end.

Module MathHandler.

Definition convert (node : ASTNode) : option str :=
  match node_type node with
  | MATH_INLINE => c <- fmt (content node) ;; Some (lit "\(" ++ c ++ lit "\)")
  | MATH_DISPLAY =>
      c <- fmt (content node) ;; Some (lit "\[" ++ nl ++ c ++ nl ++ lit "\]")
  | _ => Some []
  end.

Definition is_math_node (node : ASTNode) : bool :=
  match node_type node with
  | MATH_INLINE | MATH_DISPLAY => true
  | _ => false
  end.

End MathHandler.

(** The chain of [if]/[elif] over an inline child that [convert_paragraph],
    [_process_item_content] and [_convert_inline_node] each write out: the
    parts it appends, none for a kind outside the chain. *)
Definition inline_parts (child : ASTNode) : option (list str) :=
  match node_type child with
  | TEXT => c <- as_part (content child) ;; Some [c]
  | BOLD => c <- fmt (content child) ;; Some [lit "**" ++ c ++ lit "**"]
  | ITALIC => c <- fmt (content child) ;; Some [lit "*" ++ c ++ lit "*"]
  | CODE => c <- fmt (content child) ;; Some [lit "`" ++ c ++ lit "`"]
  | LINK =>
      c <- fmt (content child) ;;
      url <- fmt_url (attributes child) ;;
      Some [lit "[" ++ c ++ lit "](" ++ url ++ lit ")"]
  | MATH_INLINE | MATH_DISPLAY => m <- MathHandler.convert child ;; Some [m]
  | _ => Some []
  end.

Module BlockHandler.

Definition convert_heading (node : ASTNode) : option str :=
  match node_type node with
  | SECTION => c <- fmt (content node) ;; Some (lit "# " ++ c)
  | SUBSECTION => c <- fmt (content node) ;; Some (lit "## " ++ c)
  | SUBSUBSECTION => c <- fmt (content node) ;; Some (lit "### " ++ c)
  | _ => Some []
  end.

(** [node.content.strip() if isinstance(node.content, str) else ""]. *)
Definition stripped_content (node : ASTNode) : str :=
  match content node with CStr s => strip s | _ => [] end.

(** The marker of the source file, code point by code point. *)
Definition quote_marker : str :=
  [62; 32; 240; 376; 8217; 161; 32]%N.

Definition convert_quote (node : ASTNode) : str :=
  quote_marker ++ stripped_content node.

Definition convert_code_block (node : ASTNode) : str :=
  lit "```" ++ nl ++ stripped_content node ++ nl ++ lit "```".

(** The [inline_handler] argument of the source is not used by it. *)
Definition convert_paragraph (node : ASTNode) : option str :=
  match children node with
  | [] => Some []
  | ch => parts <- traverse inline_parts ch ;; Some (List.concat (List.concat parts))
  end.

Definition is_heading (node : ASTNode) : bool :=
  match node_type node with
  | SECTION | SUBSECTION | SUBSUBSECTION => true
  | _ => false
  end.

Definition is_block_environment (node : ASTNode) : bool :=
  match node_type node with
  | QUOTE | VERBATIM | CODE_BLOCK => true
  | _ => false
  end.

End BlockHandler.

Module ListHandler.

(** [_convert_inline_node] returns one string where [inline_parts] appends
    one part, and the empty string for the other kinds. *)
Definition _convert_inline_node (node : ASTNode) : option (list str) :=
  ps <- inline_parts node ;;
  Some (match ps with [] => [[]] | _ => ps end).

Definition _process_item_content (item_node : ASTNode) : option str :=
  match children item_node with
  | [] => Some []
  | ch =>
      parts <- traverse
        (fun child =>
           match node_type child with
           | PARAGRAPH =>
               ps <- traverse _convert_inline_node (children child) ;;
               Some (List.concat ps)
           | _ => inline_parts child
           end) ch ;;
      Some (List.concat (List.concat parts))
  end.

Definition convert (node : ASTNode) (level : nat) : option str :=
  match children node with
  | [] => Some []
  | ch =>
      let indent := List.concat (repeat (lit "  ") level) in
      let is_ordered := NodeType_eqb (node_type node) LIST_ENUMERATE in
      items <- traverse
        (fun item_node =>
           match node_type item_node with
           | LIST_ITEM =>
               item_text <- _process_item_content item_node ;;
               Some [indent ++ (if is_ordered then lit "1. " else lit "- ")
                     ++ item_text]
           | _ => Some []
           end) ch ;;
      Some (join nl (List.concat items))
  end.

Definition is_list_node (node : ASTNode) : bool :=
  match node_type node with
  | LIST_ITEMIZE | LIST_ENUMERATE => true
  | _ => false
  end.

End ListHandler.

Module TableHandler.

(** A rendered row; [str(cell)] of a cell string is the cell. *)
Definition render_row (cells : list str) : str :=
  lit "| " ++ join (lit " | ") (map (replace c_pipe (lit "\|")) cells)
  ++ lit " |".

(** The rows of the children whose content is a list. *)
Definition rendered_rows (ch : list ASTNode) : list str :=
  flat_map
    (fun row_node =>
       match content row_node with
       | CCells cells => [render_row cells]
       | _ => []
       end) ch.

(** [len(rows[0].split('|')) - 2]. *)
Definition num_cols (row0 : str) : Z :=
  Z.of_nat (List.length (split c_pipe row0)) - 2.

(** ['| ' + ' | '.join(['---'] * n) + ' |']. *)
Definition separator (n : Z) : str :=
  lit "| " ++ join (lit " | ") (repeat (lit "---") (Z.to_nat n)) ++ lit " |".

Definition convert (node : ASTNode) : str :=
  match children node with
  | [] => []
  | ch =>
      match rendered_rows ch with
      | [] => []
      | row0 :: rows => join nl (row0 :: separator (num_cols row0) :: rows)
      end
  end.

Definition is_table_node (node : ASTNode) : bool :=
  NodeType_eqb (node_type node) TABLE.

End TableHandler.

(** ** converter.py *)

Module NotionConverter.

(** The number of leading [#] of a heading line. *)
Fixpoint heading_level (heading : str) : nat :=
  match heading with
  | c :: r => if ceq c c_hash then S (heading_level r) else 0
  | [] => 0
  end.

Definition _adjust_heading_level (heading : str) (offset : Z) : str :=
  if negb (startswith [c_hash] heading) then heading
  else
    let level := heading_level heading in
    let new_level := Z.max 1 (Z.min 6 (Z.of_nat level + offset)) in
    let rest := lstrip (slice_from heading level) in
    repeat_char c_hash new_level ++ lit " " ++ rest.

Definition _convert_node (heading_level_offset : Z) (node : ASTNode)
  : option str :=
  if BlockHandler.is_heading node then
    heading <- BlockHandler.convert_heading node ;;
    Some (if (heading_level_offset =? 0)%Z then heading
          else _adjust_heading_level heading heading_level_offset)
  else if ListHandler.is_list_node node then ListHandler.convert node 0
  else if TableHandler.is_table_node node then Some (TableHandler.convert node)
  else if BlockHandler.is_block_environment node then
    match node_type node with
    | QUOTE => Some (BlockHandler.convert_quote node)
    | _ => Some (BlockHandler.convert_code_block node)
    end
  else if NodeType_eqb (node_type node) PARAGRAPH
  then BlockHandler.convert_paragraph node
  else if MathHandler.is_math_node node then MathHandler.convert node
  else Some [].

(** The non-empty blocks of the children, in order. *)
Definition blocks_of (heading_level_offset : Z) (ch : list ASTNode)
  : option (list str) :=
  bs <- traverse (_convert_node heading_level_offset) ch ;;
  Some (filter nonempty bs).

Definition convert (heading_level_offset : Z) (ast : ASTNode) : option str :=
  if negb (NodeType_eqb (node_type ast) DOCUMENT) then Some []
  else
    blocks <- blocks_of heading_level_offset (children ast) ;;
    Some (join (nl ++ nl) blocks).

End NotionConverter.

(** [re.sub(r'%.*$', '', latex_string, flags=re.MULTILINE)]. *)
Definition strip_comments (latex_string : str) : str :=
  Re.sub comment_m [] latex_string.

(** The entry point of the package.  [math_mode] is stored by the converter
    and read nowhere. *)
Definition convert (latex_string : str) (math_mode : str)
    (heading_level_offset : Z) (preserve_comments : bool) : option str :=
  let latex_string :=
    if negb preserve_comments then strip_comments latex_string
    else latex_string in
  ast <- LaTeXParser.parse latex_string ;;
  NotionConverter.convert heading_level_offset ast.

(** [convert(latex_string)] with the defaults of the signature. *)
Definition convert_default (latex_string : str) : option str :=
  convert latex_string (lit "katex") 0 false.

(** ** handlers/inline_handler.py *)

Module InlineHandler.

(** [convert]: for a text node the content itself is returned, which is a
    string only when the content is one. *)
Definition convert (node : ASTNode) : option str :=
  match node_type node with
  | BOLD => c <- fmt (content node) ;; Some (lit "**" ++ c ++ lit "**")
  | ITALIC => c <- fmt (content node) ;; Some (lit "*" ++ c ++ lit "*")
  | CODE => c <- fmt (content node) ;; Some (lit "`" ++ c ++ lit "`")
  | LINK =>
      url <- fmt_url (attributes node) ;;
      c <- fmt (content node) ;;
      Some (lit "[" ++ c ++ lit "](" ++ url ++ lit ")")
  | TEXT => as_part (content node)
  | _ => Some []
  end.


End InlineHandler.

(** ** utils.py *)

Module Utils.

(** [special_chars] of [escape_markdown]. *)
Definition special_chars : list char :=
  lit "*_`[]()#+-.!".

(** The loop [result = result.replace(char, f'\\{char}')]. *)
Definition escape_markdown (text : str) : str :=
  fold_left (fun result c => replace c [c_backslash; c] result)
            special_chars text.

(** [text.replace('\\\\', '\n')]: each pair of backslashes, from the left and
    without overlap, becomes a newline. *)
Fixpoint replace_line_breaks (s : str) : str :=
  match s with
  | a :: ((b :: r) as t) =>
      if ceq a c_backslash && ceq b c_backslash
      then c_nl :: replace_line_breaks r
      else a :: replace_line_breaks t
  | _ => s
  end.

(** [text.split()]: the maximal runs of characters that are not
    whitespace. *)
Fixpoint words (s : str) : list str :=
  match s with
  | [] => []
  | c :: r =>
      if isspace c then words r
      else
        match r with
        | [] => [[c]]
        | d :: _ =>
            if isspace d then [c] :: words r
            else match words r with
                 | w :: ws => (c :: w) :: ws
                 | [] => [[c]]
                 end
        end
  end.

Definition clean_latex_text (text : str) : str :=
  join (lit " ") (words (replace_line_breaks text)).

End Utils.

Import LaTeXParser.

(** ** The vocabulary of the statements *)

(** The text whose lines are the given strings. *)
Definition unlines (ls : list str) : str := join nl ls.

(** A string without the character [c]. *)
Definition lacks (c : char) (s : str) : Prop := Forall (fun x => x <> c) s.


(** The cell lists [_parse_table] makes rows of. *)
Definition table_cells (body : str) : list (list str) :=
  flat_map
    (fun line =>
       if is_table_row_line line then [map strip (split c_amp line)] else [])
    (split c_nl body).

(** The node [_parse_table] makes of a cell list. *)
Definition row_node (cells : list str) : ASTNode := leaf TEXT (CCells cells).

(** The level a heading kind is rendered at. *)
Definition source_level (t : NodeType) : Z :=
  match t with
  | SECTION => 1
  | SUBSECTION => 2
  | SUBSUBSECTION => 3
  | _ => 0
  end.

(** [max(1, min(6, level + offset))]. *)
Definition clamp_level (level offset : Z) : Z :=
  Z.max 1 (Z.min 6 (level + offset)).

(** The matches that start at offset [k]. *)
Definition starts_at (k : nat) (e : Elem) : bool := e_start e =? k.

Definition is_text_node (n : ASTNode) : bool := NodeType_eqb (node_type n) TEXT.

(** The order of the sort: by start offset. *)
Definition start_le (a b : Elem) : Prop := e_start a <= e_start b.

Definition heading_kind (t : NodeType) : bool :=
  match t with
  | SECTION | SUBSECTION | SUBSUBSECTION => true
  | _ => false
  end.

Definition list_kind (t : NodeType) : bool :=
  match t with
  | LIST_ITEMIZE | LIST_ENUMERATE => true
  | _ => false
  end.

(** The nodes [parse] appends to the root: a heading with a captured title,
    the node of an environment, a paragraph with at least one child. *)
Inductive top_shape : ASTNode -> Prop :=
| shape_heading (t : NodeType) (title : str) :
    heading_kind t = true -> title <> [] -> top_shape (leaf t (CStr title))
| shape_env (i : nat) (env_name : str) (lines : list str) :
    top_shape (_parse_environment i env_name lines)
| shape_paragraph (line : str) :
    children (_parse_paragraph line) <> [] ->
    top_shape (_parse_paragraph line).

(** The children [_parse_paragraph] makes: a leaf of an inline kind with a
    string for content, and a string [url] attribute on a link. *)
Definition inline_leaf (n : ASTNode) : bool :=
  match n with
  | Node t (CStr _) [] a =>
      match t with
      | TEXT | BOLD | ITALIC | CODE | MATH_INLINE | MATH_DISPLAY => true
      | LINK =>
          match attr_get "url" a with Some (AStr _) => true | _ => false end
      | _ => false
      end
  | _ => false
  end.

(** The items [_parse_list_items] makes. *)
Definition list_item_shape (n : ASTNode) : Prop :=
  exists item_text,
    n = Node LIST_ITEM CNone (children (_parse_paragraph item_text)) [].

(** The invariant of the data model, below a parent of kind [parent] (none
    for the root): a list item is a child of a list node; a node with cells
    is a child of a table node and has no children; the children of a table
    node carry cells. *)
Fixpoint tree_ok (parent : option NodeType) (n : ASTNode) : bool :=
  match n with
  | Node t c ch _ =>
      let under_list :=
        match parent with Some p => list_kind p | None => false end in
      let under_table :=
        match parent with Some p => NodeType_eqb p TABLE | None => false end in
      let cells := match c with CCells _ => true | _ => false end in
      implb (NodeType_eqb t LIST_ITEM) under_list
      && implb cells (under_table && match ch with [] => true | _ => false end)
      && implb under_table cells
      && forallb (tree_ok (Some t)) ch
  end.

(** The paragraph of a line without inline constructs. *)
Definition text_paragraph (s : str) : ASTNode :=
  Node PARAGRAPH CNone [leaf TEXT (CStr s)] [].

(** The trimmed lines of a text, the blank ones left out. *)
Definition nonblank_lines (text : str) : list str :=
  filter nonempty (map strip (split c_nl text)).

(** Text without LaTeX constructs: no backslash (commands, environments,
    bracket math), no dollar sign (dollar math), no percent sign
    (comments). *)
Definition plain (text : str) : bool :=
  negb (contains c_backslash text)
  && negb (contains c_dollar text)
  && negb (contains c_percent text).

(** The text of a line before its first percent sign. *)
Definition before_comment (line : str) : str := fst (span_not c_percent line).

(** Whitespace-only text (the empty text included). *)
Definition all_space (s : str) : bool := forallb isspace s.

(** A line on which the pattern [begin_env] matches. *)
Definition begins_env (line : str) : bool :=
  match search p_begin_env line with Some _ => true | None => false end.

(** A line whose first [\end{...}] names the environment. *)
Definition ends_env (env_name line : str) : bool :=
  match search p_end_env line with
  | Some (_, _, g) => str_eqb g env_name
  | None => false
  end.

(** A body line that neither opens an environment nor closes [env_name]. *)
Definition flat_line (env_name line : str) : bool :=
  negb (begins_env line) && negb (ends_env env_name line).

(** A line that closes [env_name] if the depth is 1. *)
Definition closing_line (env_name line : str) : bool :=
  negb (begins_env line) && ends_env env_name line.

(** The attributes of an environment node. *)
Definition env_attrs (end_line : nat) (env_name : str)
  : list (string * AttrVal) :=
  [("end_line"%string, AInt end_line); ("env_name"%string, AStr env_name)].

(** The kind and the children of an environment node, by its name. *)
Definition env_kind (env_name : str) : NodeType :=
  match env_map env_name with Some t => t | None => PARAGRAPH end.

Definition env_children (env_name body_text : str) : list ASTNode :=
  if is_list_env env_name then _parse_list_items body_text
  else if is_table_env env_name then _parse_table body_text
  else [].

(** The lines [\begin{name}] and [\end{name}], and the text of an
    environment with the given body lines. *)
Definition begin_line (env_name : str) : str :=
  lit "\begin{" ++ env_name ++ lit "}".

Definition end_line_of (env_name : str) : str :=
  lit "\end{" ++ env_name ++ lit "}".

Definition env_text (env_name : str) (body : list str) : str :=
  unlines (begin_line env_name :: body ++ [end_line_of env_name]).

(** A name that [\begin{name}] captures as it is: not empty, without a
    closing brace, a backslash or a newline. *)
Definition env_name_ok (env_name : str) : bool :=
  nonempty env_name
  && negb (contains c_rbrace env_name)
  && negb (contains c_backslash env_name)
  && negb (contains c_nl env_name).

(** The line of a list item with the given text. *)
Definition item_line (t : str) : str := lit "\item " ++ t.

(** An item text on one line, without LaTeX constructs and not blank. *)
Definition plain_item (t : str) : bool :=
  plain t && negb (contains c_nl t) && nonempty (strip t).

(** The list item whose only child is a text node. *)
Definition text_item (s : str) : ASTNode :=
  Node LIST_ITEM CNone [leaf TEXT (CStr s)] [].

(** The pipes of a string that do not follow a backslash; [prev_bs] tells
    whether the character before the string is a backslash. *)
Fixpoint unescaped_pipes_from (prev_bs : bool) (s : str) : nat :=
  match s with
  | [] => 0
  | c :: r =>
      (if ceq c c_pipe && negb prev_bs then 1 else 0)
      + unescaped_pipes_from (ceq c c_backslash) r
  end.

Definition unescaped_pipes (s : str) : nat := unescaped_pipes_from false s.

(** The trimmed lines that are not blank, of a list of lines. *)
Definition nonblank (ls : list str) : list str :=
  filter nonempty (map strip ls).

(** A character with a backslash before it when it is one of [done]. *)
Definition escape_among (done : list char) (c : char) : str :=
  if existsb (ceq c) done then [c_backslash; c] else [c].

(** What [escape_markdown] makes of one character. *)
Definition escape_char (c : char) : str :=
  escape_among Utils.special_chars c.

(** No two backslashes in a row. *)
Fixpoint no_double_backslash (s : str) : bool :=
  match s with
  | a :: ((b :: _) as t) =>
      negb (ceq a c_backslash && ceq b c_backslash) && no_double_backslash t
  | _ => true
  end.

(** A word: not empty and without whitespace. *)
Definition is_word (w : str) : bool :=
  nonempty w && forallb (fun c => negb (isspace c)) w.

(** The text node of a gap between matches, none when the gap is blank. *)
Definition text_gap (s : str) : list ASTNode :=
  if nonempty (strip s) then [leaf TEXT (CStr s)] else [].

(** The rendering of such a gap. *)
Definition gap_text (s : str) : str :=
  if nonempty (strip s) then s else [].

(** No two dollar signs in a row. *)
Fixpoint no_double_dollar (s : str) : bool :=
  match s with
  | a :: ((b :: _) as t) =>
      negb (ceq a c_dollar && ceq b c_dollar) && no_double_dollar t
  | _ => true
  end.

(** ** Examples from the test suite *)

Example test_simple_section :
  convert_default (lit "\section{Introduction}") = Some (lit "# Introduction").
Proof. vm_compute. reflexivity. Qed.

Example test_section_with_paragraph :
  convert_default
    (unlines [lit "\section{Intro}"; lit "This is $x^2$ and \textbf{bold}."])
  = Some (unlines [lit "# Intro"; lit ""; lit "This is \(x^2\) and **bold**."]).
Proof. vm_compute. reflexivity. Qed.

Example test_list_itemize :
  convert_default
    (unlines [lit "\begin{itemize}"; lit "\item A"; lit "\item B"; lit "\end{itemize}"])
  = Some (unlines [lit "- A"; lit "- B"]).
Proof. vm_compute. reflexivity. Qed.

(** ** Facts about strings *)

Section StringFacts.

Lemma ceq_eq (a b : char) : ceq a b = true <-> a = b.
Proof. unfold ceq. apply N.eqb_eq. Qed.

Lemma ceq_refl (a : char) : ceq a a = true.
Proof. apply ceq_eq. reflexivity. Qed.

Lemma ceq_sym (a b : char) : ceq a b = ceq b a.
Proof. unfold ceq. apply N.eqb_sym. Qed.

Lemma str_eqb_eq (a b : str) : str_eqb a b = true <-> a = b.
Proof.
  revert b. induction a as [|x a IH]; intros [|y b]; simpl; split; intro H;
    try reflexivity; try discriminate.
  - apply andb_true_iff in H. destruct H as [H1 H2].
    apply ceq_eq in H1. apply IH in H2. congruence.
  - inversion H; subst. rewrite ceq_refl. simpl. apply IH. reflexivity.
Qed.

Lemma lacks_contains (c : char) (s : str) :
  contains c s = false <-> lacks c s.
Proof.
  unfold contains, lacks. induction s as [|x s IH]; simpl.
  - split; auto.
  - rewrite orb_false_iff, IH. split.
    + intros [H1 H2]. constructor; auto.
      intro E. subst. rewrite ceq_refl in H1. discriminate.
    + intro H. inversion H; subst. split; auto.
      destruct (ceq c x) eqn:E; auto. apply ceq_eq in E. congruence.
Qed.

Lemma lacks_app (c : char) (a b : str) :
  lacks c (a ++ b) <-> lacks c a /\ lacks c b.
Proof. unfold lacks. apply Forall_app. Qed.


Lemma count_cons (c x : char) (s : str) :
  count c (x :: s) = (if ceq c x then 1 else 0) + count c s.
Proof. unfold count. simpl. destruct (ceq c x); reflexivity. Qed.

Lemma count_lacks (c : char) (s : str) : lacks c s -> count c s = 0.
Proof.
  induction 1 as [|x s Hx _ IH]; [reflexivity|].
  rewrite count_cons, IH.
  destruct (ceq c x) eqn:E; [|reflexivity].
  apply ceq_eq in E. congruence.
Qed.

Lemma split_nonnil (c : char) (s : str) : split c s <> [].
Proof.
  induction s as [|x s IH]; simpl; [discriminate|].
  destruct (ceq x c); [discriminate|].
  destruct (split c s); [contradiction|discriminate].
Qed.

(** [len(s.split(c))] is one more than the number of [c] in [s]. *)
Lemma split_length (c : char) (s : str) :
  List.length (split c s) = S (count c s).
Proof.
  induction s as [|x s IH]; [reflexivity|].
  rewrite count_cons, (ceq_sym c x). simpl.
  destruct (ceq x c); simpl; [rewrite IH; reflexivity|].
  destruct (split c s) eqn:E; [exfalso; eapply split_nonnil; eauto|].
  simpl in *. exact IH.
Qed.

Lemma split_lacks (c : char) (s : str) : Forall (lacks c) (split c s).
Proof.
  induction s as [|x s IH]; simpl.
  - repeat constructor.
  - destruct (ceq x c) eqn:E.
    + constructor; [constructor|exact IH].
    + assert (Hx : x <> c).
      { intro H. subst. rewrite ceq_refl in E. discriminate. }
      destruct (split c s) as [|l ls].
      * repeat constructor. assumption.
      * inversion IH; subst.
        constructor; [constructor; assumption|assumption].
Qed.

Lemma split_lacks_id (c : char) (s : str) : lacks c s -> split c s = [s].
Proof.
  induction 1 as [|x s Hx _ IH]; [reflexivity|].
  simpl. destruct (ceq x c) eqn:E.
  - apply ceq_eq in E. contradiction.
  - rewrite IH. reflexivity.
Qed.

Lemma split_app_sep (c : char) (a b : str) :
  lacks c a -> split c (a ++ c :: b) = a :: split c b.
Proof.
  induction 1 as [|x a Hx _ IH]; simpl.
  - rewrite ceq_refl. reflexivity.
  - destruct (ceq x c) eqn:E.
    + apply ceq_eq in E. contradiction.
    + rewrite IH. reflexivity.
Qed.

(** Splitting what was joined gives the parts back, when no part holds the
    separator. *)
Lemma split_join (c : char) (parts : list str) :
  parts <> [] -> Forall (lacks c) parts -> split c (join [c] parts) = parts.
Proof.
  induction parts as [|p ps IH]; [congruence|].
  intros _ H. inversion H as [|? ? Hp Hps]; subst.
  destruct ps as [|q ps].
  - simpl. apply split_lacks_id. assumption.
  - change (join [c] (p :: q :: ps)) with (p ++ c :: join [c] (q :: ps)).
    rewrite split_app_sep by assumption.
    rewrite IH; [reflexivity|discriminate|assumption].
Qed.

Lemma lstrip_lstrip (s : str) : lstrip (lstrip s) = lstrip s.
Proof.
  induction s as [|x s IH]; [reflexivity|].
  simpl. destruct (isspace x) eqn:E; [exact IH|].
  simpl. rewrite E. reflexivity.
Qed.

Lemma lstrip_app (a b : str) :
  lstrip (a ++ b) = if nonempty (lstrip a) then lstrip a ++ b else lstrip b.
Proof.
  induction a as [|x a IH]; [reflexivity|].
  simpl. destruct (isspace x); [exact IH|reflexivity].
Qed.

Lemma rstrip_cons (x : char) (s : str) :
  rstrip (x :: s) =
  if nonempty (rstrip s) then x :: rstrip s
  else if isspace x then [] else [x].
Proof.
  unfold rstrip. simpl. rewrite lstrip_app.
  destruct (lstrip (rev s)) as [|y l] eqn:E; simpl.
  - destruct (isspace x); reflexivity.
  - rewrite rev_app_distr. simpl.
    destruct (rev l ++ [y]) eqn:E2; [destruct (rev l); discriminate|].
    reflexivity.
Qed.

Lemma rstrip_rstrip (s : str) : rstrip (rstrip s) = rstrip s.
Proof. unfold rstrip. rewrite rev_involutive, lstrip_lstrip. reflexivity. Qed.

Lemma lstrip_head (x : char) (s : str) :
  isspace x = false -> lstrip (x :: s) = x :: s.
Proof. intro H. simpl. rewrite H. reflexivity. Qed.

Lemma lstrip_nonspace (s : str) :
  match lstrip s with [] => True | x :: _ => isspace x = false end.
Proof.
  induction s as [|x s IH]; simpl; [exact I|].
  destruct (isspace x) eqn:E; [exact IH|exact E].
Qed.

(** [strip] is idempotent. *)
Lemma strip_strip (s : str) : strip (strip s) = strip s.
Proof.
  unfold strip.
  assert (H : lstrip (rstrip (lstrip s)) = rstrip (lstrip s)).
  { pose proof (lstrip_nonspace s) as Hh.
    destruct (lstrip s) as [|x l]; [reflexivity|].
    rewrite rstrip_cons.
    destruct (nonempty (rstrip l)).
    - apply lstrip_head. exact Hh.
    - rewrite Hh. apply lstrip_head. exact Hh. }
  rewrite H. apply rstrip_rstrip.
Qed.

Lemma Forall_lstrip (P : char -> Prop) (s : str) :
  Forall P s -> Forall P (lstrip s).
Proof.
  induction 1 as [|x s Hx Hs IH]; simpl; [constructor|].
  destruct (isspace x); [exact IH|constructor; assumption].
Qed.

Lemma Forall_strip (P : char -> Prop) (s : str) :
  Forall P s -> Forall P (strip s).
Proof.
  intro H. unfold strip, rstrip.
  apply Forall_rev, Forall_lstrip, Forall_rev, Forall_lstrip, H.
Qed.

End StringFacts.

(** ** The table renderer *)

Section TableFacts.

Lemma Forall_split (P : char -> Prop) (c : char) (s : str) :
  Forall P s -> Forall (Forall P) (split c s).
Proof.
  induction 1 as [|x s Hx Hs IH]; simpl.
  - repeat constructor.
  - destruct (ceq x c).
    + constructor; [constructor|exact IH].
    + destruct (split c s) as [|l ls].
      * repeat constructor. assumption.
      * inversion IH; subst.
        constructor; [constructor; assumption|assumption].
Qed.

Lemma count_contains (c : char) (s : str) :
  contains c s = true -> 1 <= count c s.
Proof.
  unfold contains. induction s as [|x s IH]; simpl; [discriminate|].
  rewrite count_cons. destruct (ceq c x); simpl; intro H; [lia|].
  apply IH in H. lia.
Qed.

Lemma contains_count (c : char) (s : str) :
  1 <= count c s -> contains c s = true.
Proof.
  intro H. destruct (contains c s) eqn:E; [reflexivity|].
  apply lacks_contains, count_lacks in E. lia.
Qed.


Lemma lacks_nl_escape (s : str) :
  lacks c_nl s -> lacks c_nl (replace c_pipe (lit "\|") s).
Proof.
  induction 1 as [|x s Hx Hs IH]; simpl; [constructor|].
  destruct (ceq x c_pipe).
  - repeat constructor; try discriminate. exact IH.
  - constructor; assumption.
Qed.

Lemma join_cons2 (sep p q : str) (ps : list str) :
  join sep (p :: q :: ps) = p ++ sep ++ join sep (q :: ps).
Proof. reflexivity. Qed.

Lemma lacks_join (c : char) (sep : str) (parts : list str) :
  lacks c sep -> Forall (lacks c) parts -> lacks c (join sep parts).
Proof.
  intros Hsep. induction 1 as [|p ps Hp Hps IH]; [constructor|].
  destruct ps as [|q ps]; [exact Hp|].
  rewrite join_cons2. apply lacks_app. split; [exact Hp|].
  apply lacks_app. split; [exact Hsep|exact IH].
Qed.





Lemma lacks_nl_render_row (cells : list str) :
  Forall (lacks c_nl) cells -> lacks c_nl (TableHandler.render_row cells).
Proof.
  intro H. unfold TableHandler.render_row.
  apply lacks_app. split; [repeat constructor; discriminate|].
  apply lacks_app. split; [|repeat constructor; discriminate].
  apply lacks_join; [repeat constructor; discriminate|].
  apply Forall_map. eapply Forall_impl; [|exact H].
  intros. apply lacks_nl_escape. assumption.
Qed.

Lemma lacks_nl_separator (n : Z) : lacks c_nl (TableHandler.separator n).
Proof.
  unfold TableHandler.separator.
  apply lacks_app. split; [repeat constructor; discriminate|].
  apply lacks_app. split; [|repeat constructor; discriminate].
  apply lacks_join; [repeat constructor; discriminate|].
  apply Forall_forall. intros x Hx. apply repeat_spec in Hx. subst.
  repeat constructor; discriminate.
Qed.

Lemma parse_table_rows (body : str) :
  _parse_table body = map row_node (table_cells body).
Proof.
  unfold _parse_table, table_cells.
  induction (split c_nl body) as [|l ls IH]; [reflexivity|].
  simpl. rewrite IH, map_app.
  destruct (is_table_row_line l); reflexivity.
Qed.

(** A parsed row has at least two cells, and no cell holds a newline. *)
Lemma table_cells_shape (body : str) :
  Forall (fun cells => 2 <= List.length cells /\ Forall (lacks c_nl) cells)
         (table_cells body).
Proof.
  unfold table_cells.
  pose proof (split_lacks c_nl body) as H.
  induction H as [|l ls Hl _ IH]; [constructor|].
  simpl. apply Forall_app. split; [|exact IH].
  destruct (is_table_row_line l) eqn:E; [|constructor].
  constructor; [|constructor]. split.
  - rewrite length_map, split_length.
    unfold is_table_row_line in E. apply andb_true_iff in E.
    destruct E as [E _]. apply count_contains in E. lia.
  - apply Forall_map.
    eapply Forall_impl; [|apply (Forall_split c_amp Hl)].
    intros a Ha. apply Forall_strip. exact Ha.
Qed.

Lemma rendered_rows_row_nodes (cs : list (list str)) :
  TableHandler.rendered_rows (map row_node cs)
  = map TableHandler.render_row cs.
Proof.
  unfold TableHandler.rendered_rows.
  induction cs as [|c cs IH]; [reflexivity|]. simpl. rewrite IH. reflexivity.
Qed.

(** The output of the renderer on rows without newlines: the rows with the
    separator after the first, one per line. *)
Lemma table_lines (t : NodeType) (c : Content) (a : list (string * AttrVal))
    (cells : list str) (cs : list (list str)) :
  Forall (Forall (lacks c_nl)) (cells :: cs) ->
  split c_nl (TableHandler.convert (Node t c (map row_node (cells :: cs)) a))
  = TableHandler.render_row cells
    :: TableHandler.separator
         (TableHandler.num_cols (TableHandler.render_row cells))
    :: map TableHandler.render_row cs.
Proof.
  intro H. unfold TableHandler.convert.
  cbn [children map]. fold (map row_node cs).
  change (row_node cells :: map row_node cs) with (map row_node (cells :: cs)).
  rewrite rendered_rows_row_nodes. cbn [map].
  apply split_join; [discriminate|].
  inversion H; subst.
  constructor; [apply lacks_nl_render_row; assumption|].
  constructor; [apply lacks_nl_separator|].
  apply Forall_map. eapply Forall_impl; [|eassumption].
  intros. apply lacks_nl_render_row. assumption.
Qed.

End TableFacts.

(** ** Claims about the table renderer *)

(** C6. A table node whose children are the rows parsed from an environment
    body renders to exactly [row_count + 1] lines when there is at least one
    row (the separator is the extra line, after the first row); with no row
    the renderer gives the empty string, and the dispatch of the converter
    drops it (no block). *)
Theorem C6_table_line_count :
  forall (body : str) (a : list (string * AttrVal)) (offset : Z),
    let node := Node TABLE (CStr body) (_parse_table body) a in
    let row_count := List.length (_parse_table body) in
    (1 <= row_count ->
     List.length (split c_nl (TableHandler.convert node)) = row_count + 1
     /\ nth 1 (split c_nl (TableHandler.convert node)) []
        = TableHandler.separator
            (TableHandler.num_cols (nth 0 (split c_nl (TableHandler.convert node)) [])))
    /\ (row_count = 0 ->
        TableHandler.convert node = []
        /\ NotionConverter.blocks_of offset [node] = Some []).
Proof.
  intros body a offset node row_count. subst node row_count.
  rewrite parse_table_rows.
  pose proof (table_cells_shape body) as Hs.
  destruct (table_cells body) as [|cells cs]; split.
  - simpl. lia.
  - intros _. split; reflexivity.
  - intros _.
    rewrite table_lines.
    + cbn [List.length nth map]. rewrite !length_map. split; [lia|reflexivity].
    + eapply Forall_impl; [|exact Hs]. intros x [_ Hx]. exact Hx.
  - simpl. discriminate.
Qed.

(** A body with two rows gives three lines. *)
Lemma C6_table_line_count_witness :
  List.length
    (split c_nl
       (TableHandler.convert
          (Node TABLE (CStr (unlines [lit "a & b"; lit "\hline"; lit "1 & 2"]))
             (_parse_table (unlines [lit "a & b"; lit "\hline"; lit "1 & 2"]))
             [])))
  = 2 + 1.
Proof.
  apply (C6_table_line_count
           (unlines [lit "a & b"; lit "\hline"; lit "1 & 2"]) [] 0).
  vm_compute. lia.
Defined.

Example table_without_rows :
  TableHandler.convert
    (Node TABLE (CStr (lit "\hline")) (_parse_table (lit "\hline")) [])
  = [].
Proof. reflexivity. Qed.

Example table_with_pipe_in_cell :
  convert_default
    (unlines [lit "\begin{tabular}{cc}"; lit "a & b|c"; lit "1 & 2";
              lit "\end{tabular}"])
  = Some (unlines [lit "| a | b\|c |"; lit "| --- | --- | --- |";
                   lit "| 1 | 2 |"]).
Proof. vm_compute. reflexivity. Qed.



(** ** The heading level offset *)

Lemma heading_level_hashes (n : nat) (rest : str) :
  NotionConverter.heading_level (repeat c_hash n ++ c_space :: rest) = n.
Proof. induction n as [|n IH]; [reflexivity|]. simpl. rewrite IH. reflexivity. Qed.

Lemma adjust_heading_level_hashes (k : nat) (title : str) (offset : Z) :
  NotionConverter.heading_level
    (NotionConverter._adjust_heading_level
       (repeat c_hash (S k) ++ c_space :: title) offset)
  = Z.to_nat (clamp_level (Z.of_nat (S k)) offset).
Proof.
  unfold NotionConverter._adjust_heading_level.
  rewrite heading_level_hashes.
  change (startswith [c_hash] (repeat c_hash (S k) ++ c_space :: title))
    with true.
  cbn [negb]. unfold repeat_char. fold (clamp_level (Z.of_nat (S k)) offset).
  change (lit " " ++ ?r) with (c_space :: r).
  apply heading_level_hashes.
Qed.

(** The level of a rendered heading, for every kind, title and offset. *)
Lemma convert_node_heading_level (node : ASTNode) (title : str) (offset : Z) :
  BlockHandler.is_heading node = true ->
  content node = CStr title ->
  exists h,
    NotionConverter._convert_node offset node = Some h
    /\ Z.of_nat (NotionConverter.heading_level h)
       = clamp_level (source_level (node_type node)) offset.
Proof.
  destruct node as [t c ch a]. cbn [content node_type]. intros Hh Hc. subst c.
  unfold NotionConverter._convert_node. rewrite Hh.
  assert (Hk : exists k,
             source_level t = Z.of_nat (S k)
             /\ BlockHandler.convert_heading (Node t (CStr title) ch a)
                = Some (repeat c_hash (S k) ++ c_space :: title)).
  { destruct t; try discriminate Hh;
      [exists 0|exists 1|exists 2]; split; reflexivity. }
  destruct Hk as [k [Hl Hr]]. rewrite Hr. cbn [bind].
  eexists. split; [reflexivity|].
  rewrite Hl. destruct (Z.eqb_spec offset 0) as [->|Hne].
  - rewrite heading_level_hashes. unfold clamp_level.
    destruct t; try discriminate Hh; cbn in Hl; lia.
  - rewrite adjust_heading_level_hashes. unfold clamp_level. lia.
Qed.

(** C5. Every heading node with a title renders, under every integer
    offset, to a line whose level (its number of leading [#]) is the level
    of its kind plus the offset, saturated into 1..6; a level-1 heading with
    offset -5 stays at level 1 and a level-3 heading with offset +10 gets
    level 6. *)
Theorem C5_heading_level_clamped :
  forall (node : ASTNode) (title : str) (offset : Z),
    BlockHandler.is_heading node = true ->
    content node = CStr title ->
    exists h,
      NotionConverter._convert_node offset node = Some h
      /\ Z.of_nat (NotionConverter.heading_level h)
         = Z.max 1 (Z.min 6 (source_level (node_type node) + offset))
      /\ (1 <= Z.of_nat (NotionConverter.heading_level h) <= 6)%Z
      /\ (node_type node = SECTION -> offset = (-5)%Z ->
          NotionConverter.heading_level h = 1)
      /\ (node_type node = SUBSUBSECTION -> offset = 10%Z ->
          NotionConverter.heading_level h = 6).
Proof.
  intros node title offset Hh Hc.
  destruct (convert_node_heading_level node offset Hh Hc) as [h [H1 H2]].
  exists h. unfold clamp_level in H2.
  split; [exact H1|]. split; [exact H2|]. split; [lia|]. split.
  - intros Ht Ho. rewrite Ht, Ho in H2. cbn in H2. lia.
  - intros Ht Ho. rewrite Ht, Ho in H2. cbn in H2. lia.
Qed.

(** The level-3 heading of the claim, with offset +10. *)
Lemma C5_heading_level_clamped_witness :
  exists h,
    NotionConverter._convert_node 10 (leaf SUBSUBSECTION (CStr (lit "T")))
    = Some h
    /\ Z.of_nat (NotionConverter.heading_level h)
       = Z.max 1 (Z.min 6
           (source_level (node_type (leaf SUBSUBSECTION (CStr (lit "T")))) + 10))
    /\ (1 <= Z.of_nat (NotionConverter.heading_level h) <= 6)%Z
    /\ (node_type (leaf SUBSUBSECTION (CStr (lit "T"))) = SECTION ->
        10%Z = (-5)%Z -> NotionConverter.heading_level h = 1)
    /\ (node_type (leaf SUBSUBSECTION (CStr (lit "T"))) = SUBSUBSECTION ->
        10%Z = 10%Z -> NotionConverter.heading_level h = 6).
Proof.
  apply (C5_heading_level_clamped (leaf SUBSUBSECTION (CStr (lit "T")))
           (title := lit "T") 10); reflexivity.
Defined.

Example heading_offset_minus_5 :
  NotionConverter._convert_node (-5) (leaf SECTION (CStr (lit "T")))
  = Some (lit "# T").
Proof. reflexivity. Qed.

Example heading_offset_plus_10 :
  NotionConverter._convert_node 10 (leaf SUBSUBSECTION (CStr (lit "T")))
  = Some (lit "###### T").
Proof. reflexivity. Qed.

Example test_heading_level_offset :
  convert (lit "\section{Title}") (lit "katex") 1 false = Some (lit "## Title").
Proof. vm_compute. reflexivity. Qed.

(** ** Comment stripping *)

(** C7. On the three-line input of the claim the default conversion strips
    the comment before parsing and its output does not contain [hidden];
    with [preserve_comments] the comment line is parsed as a paragraph and
    the output contains [hidden]. *)
Theorem C7_comment_stripping :
  let input := unlines [lit "\section{T}"; lit "% hidden"; lit "Body"] in
  strip_comments input = unlines [lit "\section{T}"; lit ""; lit "Body"]
  /\ convert input (lit "katex") 0 false
     = Some (unlines [lit "# T"; lit ""; lit "Body"])
  /\ contains_sub (lit "hidden") (unlines [lit "# T"; lit ""; lit "Body"])
     = false
  /\ convert input (lit "katex") 0 true
     = Some (unlines [lit "# T"; lit ""; lit "% hidden"; lit ""; lit "Body"])
  /\ contains_sub (lit "hidden")
       (unlines [lit "# T"; lit ""; lit "% hidden"; lit ""; lit "Body"])
     = true.
Proof. vm_compute. repeat split; reflexivity. Qed.

(** ** Environments without a matching end *)

Section UnclosedEnvironment.

(** When the loop of [_parse_environment] runs to the end of the document
    without a break, the body it collected is the whole remainder. *)
Lemma scan_env_no_break (env_name : str) (rest : list str) :
  forall (i : nat) (depth : Z) (acc body : list str),
    scan_env env_name rest i depth acc = (None, body) -> body = acc ++ rest.
Proof.
  induction rest as [|line rest IH]; intros i depth acc body H; simpl in H.
  - inversion H. rewrite app_nil_r. reflexivity.
  - assert (Hstep : forall d,
              scan_env env_name rest (S i) d (acc ++ [line]) = (None, body) ->
              body = acc ++ line :: rest).
    { intros d Hd. apply IH in Hd. rewrite <- app_assoc in Hd. exact Hd. }
    destruct (search p_begin_env line); [eauto|].
    destruct (search p_end_env line) as [[[? ?] g]|]; [|eauto].
    destruct (str_eqb g env_name); [|eauto].
    destruct (depth - 1 =? 0)%Z; [discriminate|eauto].
Qed.

(** The index of the [\end] line found by the loop is past the start. *)
Lemma scan_env_break_ge (env_name : str) (rest : list str) :
  forall (i : nat) (depth : Z) (acc body : list str) (j : nat),
    scan_env env_name rest i depth acc = (Some j, body) -> i <= j.
Proof.
  induction rest as [|line rest IH]; intros i depth acc body j H; simpl in H.
  - discriminate.
  - assert (Hstep : forall d a,
              scan_env env_name rest (S i) d a = (Some j, body) -> i <= j).
    { intros d a' Hd. apply IH in Hd. lia. }
    destruct (search p_begin_env line); [eauto|].
    destruct (search p_end_env line) as [[[? ?] g]|]; [|eauto].
    destruct (str_eqb g env_name); [|eauto].
    destruct (depth - 1 =? 0)%Z; [inversion H; lia|eauto].
Qed.

(** In that case the node keeps the whole remainder as its content, but
    records [start_line + 1] as its end line: the main loop resumes at
    [start_line + 2]. *)
Lemma parse_environment_unclosed (start_line : nat) (env_name : str)
    (lines : list str) (body : list str) :
  scan_env env_name (skipn (S start_line) lines) (S start_line) 1 []
  = (None, body) ->
  content (_parse_environment start_line env_name lines)
  = CStr (join nl (skipn (S start_line) lines))
  /\ next_line (_parse_environment start_line env_name lines) start_line
     = start_line + 2.
Proof.
  intro H. pose proof (scan_env_no_break _ _ _ _ _ H) as Hb.
  simpl in Hb. subst body.
  unfold _parse_environment. rewrite H.
  destruct (is_list_env env_name); [|destruct (is_table_env env_name)];
    (split; [reflexivity|unfold next_line; cbn; lia]).
Qed.

End UnclosedEnvironment.

(** C2. At the input [\begin{quote}], [A], [B], which has no [\end{quote}],
    the body of the quote node is the rest of the document, [A] and [B];
    the conversion returns a string; but the recorded end line is line 1,
    so the main scan resumes at line 2 and turns [B] into a paragraph a
    second time. *)
Theorem C2_unclosed_environment_reprocessed :
  let text := unlines [lit "\begin{quote}"; lit "A"; lit "B"] in
  parse text
  = Some (Node DOCUMENT CNone
            [Node QUOTE (CStr (unlines [lit "A"; lit "B"])) []
               [("end_line"%string, AInt 1);
                ("env_name"%string, AStr (lit "quote"))];
             Node PARAGRAPH CNone [leaf TEXT (CStr (lit "B"))] []]
            [])
  /\ convert_default text
     = Some (BlockHandler.quote_marker
             ++ unlines [lit "A"; lit "B"; lit ""; lit "B"]).
Proof. vm_compute. split; reflexivity. Qed.

(** ** List items *)

(** C4. At the list body [intro], [\item A], the line before the first
    marker is not discarded: it is collected as an item of its own, ahead of
    the item of the marker, and the list renders with two bullets. *)
Theorem C4_text_before_first_item_kept :
  _parse_list_items (unlines [lit "intro"; lit "\item A"])
  = [Node LIST_ITEM CNone [leaf TEXT (CStr (lit "intro"))] [];
     Node LIST_ITEM CNone [leaf TEXT (CStr (lit "A"))] []]
  /\ convert_default
       (unlines [lit "\begin{itemize}"; lit "intro"; lit "\item A";
                 lit "\end{itemize}"])
     = Some (unlines [lit "- intro"; lit "- A"]).
Proof. vm_compute. split; reflexivity. Qed.

(** Each item body, up to the next marker or the end of the environment, is
    parsed by [_parse_paragraph]: the children of the item are those of the
    paragraph. *)
Lemma save_item_paragraph (c : list str) (items : list ASTNode) :
  c <> [] ->
  nonempty (strip (join nl c)) = true ->
  save_item (Some c) items
  = items ++ [Node LIST_ITEM CNone
                (children (_parse_paragraph (strip (join nl c)))) []].
Proof.
  intros Hc Hn. unfold save_item. destruct c; [congruence|].
  rewrite Hn. reflexivity.
Qed.

Example list_item_inline_formatting :
  _parse_list_items (unlines [lit "\item Item with \textbf{bold}"; lit "and $x$"])
  = [Node LIST_ITEM CNone
       [leaf TEXT (CStr (lit "Item with "));
        leaf BOLD (CStr (lit "bold"));
        leaf TEXT (CStr (nl ++ lit "and "));
        leaf MATH_INLINE (CStr (lit "x"))] []].
Proof. vm_compute. reflexivity. Qed.

(** ** The merge of the inline matches *)

Section InlineMerge.

Lemma insert_elem_perm (e : Elem) (l : list Elem) :
  Permutation (e :: l) (insert_elem e l).
Proof.
  induction l as [|x l IH]; simpl; [reflexivity|].
  destruct (e_start e <=? e_start x); [reflexivity|].
  rewrite perm_swap. constructor. exact IH.
Qed.

Lemma sort_elements_perm (l : list Elem) : Permutation l (sort_elements l).
Proof.
  induction l as [|e l IH]; simpl; [constructor|].
  rewrite <- insert_elem_perm. constructor. exact IH.
Qed.

Lemma insert_elem_sorted (e : Elem) (l : list Elem) :
  StronglySorted start_le l -> StronglySorted start_le (insert_elem e l).
Proof.
  induction 1 as [|x l Hs IH Hx]; simpl.
  - repeat constructor.
  - destruct (Nat.leb_spec (e_start e) (e_start x)) as [Hle|Hgt].
    + constructor; [constructor; assumption|].
      constructor; [exact Hle|].
      eapply Forall_impl; [|exact Hx].
      unfold start_le. intros; lia.
    + constructor; [exact IH|].
      eapply Permutation_Forall; [apply insert_elem_perm|].
      constructor; [unfold start_le; lia|exact Hx].
Qed.

Lemma sort_elements_sorted (l : list Elem) :
  StronglySorted start_le (sort_elements l).
Proof.
  induction l as [|e l IH]; simpl; [constructor|].
  apply insert_elem_sorted. exact IH.
Qed.

Lemma insert_elem_stable (k : nat) (e : Elem) (l : list Elem) :
  filter (starts_at k) (insert_elem e l)
  = filter (starts_at k) (e :: l).
Proof.
  induction l as [|x l IH]; [reflexivity|].
  simpl. destruct (Nat.leb_spec (e_start e) (e_start x)) as [Hle|Hgt].
  - reflexivity.
  - simpl in *. rewrite IH. unfold starts_at.
    destruct (Nat.eqb_spec (e_start x) k), (Nat.eqb_spec (e_start e) k);
      try reflexivity. lia.
Qed.

(** The sort is stable: for each start offset, the matches that start
    there keep the order they were found in. *)
Lemma sort_elements_stable (k : nat) (l : list Elem) :
  filter (starts_at k) (sort_elements l) = filter (starts_at k) l.
Proof.
  induction l as [|e l IH]; [reflexivity|].
  simpl sort_elements. rewrite insert_elem_stable. simpl. rewrite IH.
  reflexivity.
Qed.

Lemma elem_node_not_text (e : Elem) : is_text_node (elem_node e) = false.
Proof. unfold elem_node. destruct (e_kind e); reflexivity. Qed.

Lemma build_loop_constructs (text : str) (es : list Elem) :
  forall (pos : nat) (ch : list ASTNode),
    filter (fun n => negb (is_text_node n))
           (snd (fold_left (build_step text) es (pos, ch)))
    = filter (fun n => negb (is_text_node n)) ch ++ map elem_node es.
Proof.
  induction es as [|e es IH]; intros pos ch; simpl.
  - rewrite app_nil_r. reflexivity.
  - rewrite IH. rewrite filter_app. simpl. rewrite elem_node_not_text. simpl.
    rewrite <- app_assoc. simpl. f_equal.
    destruct (pos <? e_start e); [|reflexivity].
    destruct (nonempty (strip (slice text pos (e_start e)))); [|reflexivity].
    rewrite filter_app. simpl. rewrite app_nil_r. reflexivity.
Qed.

(** The nodes of a paragraph that are not text are the nodes of the matches,
    one for each match, in the sorted order. *)
Lemma parse_paragraph_constructs (text : str) :
  filter (fun n => negb (is_text_node n)) (children (_parse_paragraph text))
  = map elem_node (sort_elements (find_elements text)).
Proof.
  unfold _parse_paragraph.
  pose proof (build_loop_constructs text (sort_elements (find_elements text))
                0 []) as H.
  destruct (fold_left (build_step text) (sort_elements (find_elements text))
              (0, [])) as [pos ch].
  simpl in H. cbn [children].
  set (ch1 := if pos <? List.length text then _ else ch).
  assert (H1 : filter (fun n => negb (is_text_node n)) ch1
               = filter (fun n => negb (is_text_node n)) ch).
  { subst ch1. destruct (pos <? List.length text); [|reflexivity].
    destruct (nonempty (strip (slice_from text pos))); [|reflexivity].
    rewrite filter_app. simpl. apply app_nil_r. }
  rewrite <- H, <- H1.
  destruct ch1; [|reflexivity].
  destruct (nonempty (strip text)); reflexivity.
Qed.

End InlineMerge.

(** C8. On the input [\($x$\)] the dollar pattern matches the span 2..5 and
    the parenthesis pattern the span 0..7 around it; the merged list holds
    both, ordered by start offset, and the scanner emits a math node for
    each (the inner text twice).  In general the nodes of a paragraph other
    than text are the nodes of all the matches, none dropped, and the merge
    is a stable sort on the start offset alone. *)
Theorem C8_overlapping_matches_both_emitted :
  (exists text,
      sort_elements (find_elements text)
      = [mkElem (K_math_inline (lit "$x$")) 0 7;
         mkElem (K_math_inline (lit "x")) 2 5]
      /\ children (_parse_paragraph text)
         = [leaf MATH_INLINE (CStr (lit "$x$"));
            leaf MATH_INLINE (CStr (lit "x"));
            leaf TEXT (CStr (lit "\)"))])
  /\ (forall text,
        filter (fun n => negb (is_text_node n))
               (children (_parse_paragraph text))
        = map elem_node (sort_elements (find_elements text)))
  /\ (forall l,
        Permutation l (sort_elements l)
        /\ StronglySorted start_le (sort_elements l)
        /\ forall k, filter (starts_at k) (sort_elements l)
                     = filter (starts_at k) l).
Proof.
  split; [|split].
  - exists (lit "\($x$\)"). vm_compute. split; reflexivity.
  - apply parse_paragraph_constructs.
  - intro l. split; [apply sort_elements_perm|].
    split; [apply sort_elements_sorted|].
    intro k. apply sort_elements_stable.
Qed.

(** ** The shape of the trees of the parser *)

Section ParserShape.

Lemma search_from_group {G} (m : matcher G) (P : G -> Prop) :
  (forall prev s n g, m prev s = Some (n, g) -> P g) ->
  forall s prev pos a b g,
    search_from m prev pos s = Some (a, b, g) -> P g.
Proof.
  intros Hm. induction s as [|c s IH]; intros prev pos a b g H; simpl in H.
  - destruct (m prev []) as [[n g']|] eqn:E; [|discriminate].
    inversion H; subst. eapply Hm; eauto.
  - destruct (m prev (c :: s)) as [[n g']|] eqn:E.
    + inversion H; subst. eapply Hm; eauto.
    + eapply IH; eauto.
Qed.

Lemma braced_nonempty (s g r : str) : braced s = Some (g, r) -> g <> [].
Proof.
  unfold braced. destruct s as [|c s]; [discriminate|].
  destruct (ceq c c_lbrace); [|discriminate].
  destruct (span_not c_rbrace s) as [[|x g'] [|y r']]; try discriminate.
  intro H. inversion H. discriminate.
Qed.

(** The group of a command pattern is never empty. *)
Lemma search_cmd_braced_nonempty (cmd s : str) (a b : nat) (g : str) :
  search (cmd_braced cmd) s = Some (a, b, g) -> g <> [].
Proof.
  unfold search.
  apply (@search_from_group _ (cmd_braced cmd) (fun g => g <> [])).
  clear. intros prev s n g. unfold cmd_braced.
  destruct (strip_prefix cmd s) as [r1|]; [|discriminate].
  destruct (skip_ws r1) as [w r2].
  destruct (braced r2) as [[g' r3]|] eqn:E; [|discriminate].
  intro H. inversion H; subst. eapply braced_nonempty; eauto.
Qed.

(** The main loop resumes after the line of the [\begin]. *)
Lemma next_line_gt (i : nat) (env_name : str) (lines : list str) :
  i < next_line (_parse_environment i env_name lines) i.
Proof.
  unfold _parse_environment.
  destruct (scan_env env_name (skipn (S i) lines) (S i) 1 [])
    as [[j|] body] eqn:E.
  - apply scan_env_break_ge in E.
    destruct (is_list_env env_name); [|destruct (is_table_env env_name)];
      unfold next_line; cbn; lia.
  - destruct (is_list_env env_name); [|destruct (is_table_env env_name)];
      unfold next_line; cbn; lia.
Qed.

(** The loop of [parse] ends within its fuel, and every node it appends has
    one of the three shapes. *)
Lemma parse_loop_shape (lines : list str) :
  forall (fuel i : nat) (acc : list ASTNode),
    List.length lines - i < fuel ->
    Forall top_shape acc ->
    exists r, parse_loop fuel lines i acc = Some r /\ Forall top_shape r.
Proof.
  induction fuel as [|fuel IH]; intros i acc Hf Hacc; [lia|].
  simpl. destruct (Nat.ltb_spec i (List.length lines)) as [Hi|Hi].
  2: { exists acc. split; [reflexivity|assumption]. }
  destruct (nonempty (strip (nth i lines []))); cbn [negb].
  2: { apply IH; [lia|assumption]. }
  destruct (search p_section _) as [[[? ?] g]|] eqn:E1.
  { apply IH; [lia|]. apply Forall_app. split; [assumption|].
    repeat constructor. eapply search_cmd_braced_nonempty; eauto. }
  destruct (search p_subsection _) as [[[? ?] g]|] eqn:E2.
  { apply IH; [lia|]. apply Forall_app. split; [assumption|].
    repeat constructor. eapply search_cmd_braced_nonempty; eauto. }
  destruct (search p_subsubsection _) as [[[? ?] g]|] eqn:E3.
  { apply IH; [lia|]. apply Forall_app. split; [assumption|].
    repeat constructor. eapply search_cmd_braced_nonempty; eauto. }
  destruct (search p_begin_env _) as [[[? ?] g]|] eqn:E4.
  { apply IH.
    - pose proof (next_line_gt i g lines). lia.
    - apply Forall_app. split; [assumption|]. repeat constructor. }
  apply IH; [lia|].
  destruct (children (_parse_paragraph (strip (nth i lines [])))) eqn:E5;
    [assumption|].
  apply Forall_app. split; [assumption|]. repeat constructor.
  rewrite E5. discriminate.
Qed.

(** [parse] always returns a document, whose children have the shapes. *)
Lemma parse_shape (text : str) :
  exists ch,
    parse text = Some (Node DOCUMENT CNone ch []) /\ Forall top_shape ch.
Proof.
  unfold parse.
  destruct (@parse_loop_shape (split c_nl text)
              (S (List.length (split c_nl text))) 0 [])
    as [r [Hr Hs]]; [lia|constructor|].
  exists r. rewrite Hr. split; [reflexivity|assumption].
Qed.

Lemma parse_total (text : str) : exists doc, parse text = Some doc.
Proof. destruct (parse_shape text) as [ch [H _]]. eauto. Qed.

End ParserShape.

Section SubtreeShape.

Lemma elem_node_inline (e : Elem) : inline_leaf (elem_node e) = true.
Proof. unfold elem_node. destruct (e_kind e); reflexivity. Qed.

Lemma build_loop_inline (text : str) (es : list Elem) :
  forall (pos : nat) (ch : list ASTNode),
    Forall (fun n => inline_leaf n = true) ch ->
    Forall (fun n => inline_leaf n = true)
           (snd (fold_left (build_step text) es (pos, ch))).
Proof.
  induction es as [|e es IH]; intros pos ch H; simpl; [exact H|].
  apply IH. apply Forall_app. split.
  - destruct (pos <? e_start e); [|exact H].
    destruct (nonempty (strip (slice text pos (e_start e)))); [|exact H].
    apply Forall_app. split; [exact H|repeat constructor].
  - repeat constructor. apply elem_node_inline.
Qed.

(** The children of a paragraph are inline leaves. *)
Lemma parse_paragraph_inline (text : str) :
  Forall (fun n => inline_leaf n = true) (children (_parse_paragraph text)).
Proof.
  unfold _parse_paragraph.
  pose proof (@build_loop_inline text (sort_elements (find_elements text))
                0 [] (Forall_nil _)) as H.
  destruct (fold_left (build_step text) (sort_elements (find_elements text))
              (0, [])) as [pos ch].
  simpl in H. cbn [children].
  set (ch1 := if pos <? List.length text then _ else ch).
  assert (H1 : Forall (fun n => inline_leaf n = true) ch1).
  { subst ch1. destruct (pos <? List.length text); [|exact H].
    destruct (nonempty (strip (slice_from text pos))); [|exact H].
    apply Forall_app. split; [exact H|repeat constructor]. }
  destruct ch1; [|exact H1].
  destruct (nonempty (strip text)); repeat constructor.
Qed.

Lemma parse_paragraph_node (text : str) :
  _parse_paragraph text
  = Node PARAGRAPH CNone (children (_parse_paragraph text)) [].
Proof.
  unfold _parse_paragraph.
  destruct (fold_left (build_step text) (sort_elements (find_elements text))
              (0, [])) as [pos ch].
  reflexivity.
Qed.

Lemma save_item_shape (cur : option (list str)) (items : list ASTNode) :
  Forall list_item_shape items -> Forall list_item_shape (save_item cur items).
Proof.
  intro H. unfold save_item. destruct cur as [[|l c]|]; try exact H.
  destruct (nonempty (strip (join nl (l :: c)))); [|exact H].
  apply Forall_app. split; [exact H|].
  repeat constructor. eexists. reflexivity.
Qed.

Lemma item_loop_shape (ls : list str) :
  forall (items : list ASTNode) (cur : option (list str)),
    Forall list_item_shape items ->
    Forall list_item_shape (fst (fold_left item_step ls (items, cur))).
Proof.
  induction ls as [|l ls IH]; intros items cur H; simpl; [exact H|].
  destruct (search p_item l) as [[[? ?] g]|]; apply IH;
    [apply save_item_shape|]; exact H.
Qed.

(** The children of a list node are list items over inline leaves. *)
Lemma parse_list_items_shape (body : str) :
  Forall list_item_shape (_parse_list_items body).
Proof.
  unfold _parse_list_items.
  pose proof (@item_loop_shape (split c_nl body) [] (Some []) (Forall_nil _))
    as H.
  destruct (fold_left item_step (split c_nl body) ([], Some [])) as [items cur].
  apply save_item_shape. exact H.
Qed.

(** The kind of an environment node, by the name of the environment. *)
Lemma env_kind_list (env_name : str) :
  is_list_env env_name = true ->
  env_map env_name = Some LIST_ITEMIZE \/ env_map env_name = Some LIST_ENUMERATE.
Proof.
  unfold is_list_env, env_map.
  destruct (str_eqb env_name (lit "itemize")); [left; reflexivity|].
  destruct (str_eqb env_name (lit "enumerate")); [right; reflexivity|].
  discriminate.
Qed.

Lemma env_kind_table (env_name : str) :
  is_table_env env_name = true -> env_map env_name = Some TABLE.
Proof.
  unfold is_table_env. intro H. apply orb_true_iff in H.
  destruct H as [H|H]; apply str_eqb_eq in H; subst; reflexivity.
Qed.

Lemma env_kind_other (env_name : str) :
  is_list_env env_name = false ->
  is_table_env env_name = false ->
  match env_map env_name with
  | Some t => t = QUOTE \/ t = VERBATIM \/ t = CODE_BLOCK
  | None => True
  end.
Proof.
  unfold is_list_env, is_table_env, env_map.
  destruct (str_eqb env_name (lit "itemize")); [discriminate|].
  destruct (str_eqb env_name (lit "enumerate")); [discriminate|].
  destruct (str_eqb env_name (lit "quote")); [auto|].
  destruct (str_eqb env_name (lit "verbatim")); [auto|].
  destruct (str_eqb env_name (lit "lstlisting")); [auto|].
  destruct (str_eqb env_name (lit "table")); [discriminate|].
  destruct (str_eqb env_name (lit "tabular")); [discriminate|].
  auto.
Qed.

(** What [_parse_environment] returns, in its three cases. *)
Lemma parse_environment_cases (i : nat) (env_name : str) (lines : list str) :
  exists body a,
    (exists t, list_kind t = true
       /\ _parse_environment i env_name lines
          = Node t (CStr body) (_parse_list_items body) a)
    \/ _parse_environment i env_name lines
       = Node TABLE (CStr body) (_parse_table body) a
    \/ (exists t,
          (t = QUOTE \/ t = VERBATIM \/ t = CODE_BLOCK \/ t = PARAGRAPH)
          /\ _parse_environment i env_name lines = Node t (CStr body) [] a).
Proof.
  unfold _parse_environment.
  destruct (scan_env env_name (skipn (S i) lines) (S i) 1 []) as [found ls].
  do 2 eexists.
  destruct (is_list_env env_name) eqn:El;
    [|destruct (is_table_env env_name) eqn:Et].
  - left. destruct (env_kind_list _ El) as [H|H]; rewrite H;
      eexists; (split; [|reflexivity]); reflexivity.
  - right. left. rewrite (env_kind_table _ Et). reflexivity.
  - right. right. pose proof (env_kind_other _ El Et) as H.
    destruct (env_map env_name) as [t|]; eexists; (split; [|reflexivity]).
    + tauto.
    + tauto.
Qed.

End SubtreeShape.

(** ** The invariant of the data model *)

Section TreeInvariant.

Lemma forallb_Forall {A} (f : A -> bool) (l : list A) :
  Forall (fun x => f x = true) l -> forallb f l = true.
Proof. intro H. apply forallb_forall. apply Forall_forall. exact H. Qed.

Lemma inline_tree_ok (n : ASTNode) (p : NodeType) :
  inline_leaf n = true ->
  NodeType_eqb p TABLE = false ->
  tree_ok (Some p) n = true.
Proof.
  destruct n as [t [|s|cells] [|x ch] a]; simpl; try discriminate.
  intros Ht Hp. rewrite Hp. destruct t; try discriminate Ht; reflexivity.
Qed.

Lemma item_tree_ok (n : ASTNode) (p : NodeType) :
  list_item_shape n -> list_kind p = true -> tree_ok (Some p) n = true.
Proof.
  intros [item_text ->] Hp. simpl. rewrite Hp.
  replace (NodeType_eqb p TABLE) with false
    by (destruct p; try discriminate Hp; reflexivity).
  simpl. apply forallb_Forall.
  eapply Forall_impl; [|apply parse_paragraph_inline].
  intros a Ha. apply inline_tree_ok; [exact Ha|reflexivity].
Qed.

Lemma rows_tree_ok (cs : list (list str)) :
  forallb (tree_ok (Some TABLE)) (map row_node cs) = true.
Proof. induction cs as [|c cs IH]; [reflexivity|]. simpl. exact IH. Qed.

Lemma paragraph_tree_ok (text : str) (p : NodeType) :
  tree_ok (Some p) (Node PARAGRAPH CNone (children (_parse_paragraph text)) [])
  = negb (NodeType_eqb p TABLE).
Proof.
  simpl. replace (forallb _ _) with true.
  - destruct (NodeType_eqb p TABLE); reflexivity.
  - symmetry. apply forallb_Forall.
    eapply Forall_impl; [|apply parse_paragraph_inline].
    intros a Ha. apply inline_tree_ok; [exact Ha|reflexivity].
Qed.

(** Every node appended to the root satisfies the invariant. *)
Lemma top_tree_ok (n : ASTNode) :
  top_shape n -> tree_ok (Some DOCUMENT) n = true.
Proof.
  intros [t title Ht _|i env_name lines|line _].
  - destruct t; try discriminate Ht; reflexivity.
  - destruct (parse_environment_cases i env_name lines)
      as [body [a [[t [Ht ->]]|[->|[t [Ht ->]]]]]].
    + simpl. replace (NodeType_eqb t LIST_ITEM) with false
        by (destruct t; try discriminate Ht; reflexivity).
      simpl. apply forallb_Forall.
      eapply Forall_impl; [|apply parse_list_items_shape].
      intros x Hx. apply item_tree_ok; assumption.
    + simpl. rewrite parse_table_rows. apply rows_tree_ok.
    + destruct Ht as [->|[->|[->| ->]]]; reflexivity.
  - rewrite parse_paragraph_node. apply paragraph_tree_ok.
Qed.

End TreeInvariant.

(** C9. For every input, [parse] returns a tree rooted at a document node in
    which every list-item node is a direct child of an itemize or enumerate
    node, and every table-row node (a node carrying a list of cells) is a
    direct child of a table node and has no children, the children of a
    table node all being such rows. *)
Theorem C9_tree_invariant :
  forall text : str,
    exists doc,
      parse text = Some doc
      /\ node_type doc = DOCUMENT
      /\ tree_ok None doc = true.
Proof.
  intro text. destruct (parse_shape text) as [ch [Hp Hs]].
  eexists. split; [exact Hp|]. split; [reflexivity|].
  simpl. apply forallb_Forall.
  eapply Forall_impl; [|exact Hs].
  intros n Hn. apply top_tree_ok. exact Hn.
Qed.

Example tree_ok_rejects_stray_item :
  tree_ok None (Node DOCUMENT CNone [Node LIST_ITEM CNone [] []] []) = false.
Proof. reflexivity. Qed.

Example tree_ok_rejects_stray_row :
  tree_ok None
    (Node DOCUMENT CNone [Node PARAGRAPH CNone [row_node [lit "a"]] []] [])
  = false.
Proof. reflexivity. Qed.

(** ** Text on which no pattern can match *)

Section FirstCharacter.

Context {G : Type}.
Variable m : matcher G.
Variable trigger : char.

(** Every match of [m] begins with the character [trigger]. *)
Hypothesis m_needs :
  forall prev s, m prev s <> None -> exists r, s = trigger :: r.

Lemma no_match_here (prev : option char) (s : str) :
  lacks trigger s -> m prev s = None.
Proof.
  intro H. destruct (m prev s) eqn:E; [|reflexivity].
  destruct (@m_needs prev s) as [r ->]; [congruence|].
  inversion H; subst. congruence.
Qed.

Lemma search_from_lacks (s : str) :
  forall prev pos, lacks trigger s -> search_from m prev pos s = None.
Proof.
  induction s as [|c s IH]; intros prev pos H; simpl;
    rewrite (no_match_here _ H); [reflexivity|].
  apply IH. inversion H; assumption.
Qed.

Lemma finditer_from_lacks (s : str) :
  forall prev pos, lacks trigger s -> finditer_from m prev pos 0 s = [].
Proof.
  induction s as [|c s IH]; intros prev pos H; simpl; [reflexivity|].
  rewrite (no_match_here _ H). apply IH. inversion H; assumption.
Qed.

Lemma sub_from_lacks (repl s : str) :
  forall prev, lacks trigger s -> sub_from m repl prev 0 s = s.
Proof.
  induction s as [|c s IH]; intros prev H; simpl; [reflexivity|].
  rewrite (no_match_here _ H). f_equal. apply IH. inversion H; assumption.
Qed.

End FirstCharacter.

Section Triggers.

Lemma strip_prefix_head (x : char) (p s r : str) :
  strip_prefix (x :: p) s = Some r -> exists s', s = x :: s'.
Proof.
  destruct s as [|y s]; simpl; [discriminate|].
  destruct (ceq x y) eqn:E; [|discriminate].
  apply ceq_eq in E. subst. eauto.
Qed.

Lemma strip_prefix_app (p r : str) : strip_prefix p (p ++ r) = Some r.
Proof.
  induction p as [|x p IH]; [reflexivity|]. simpl. rewrite ceq_refl. exact IH.
Qed.

Lemma cmd_braced_needs (cmd : str) (prev : option char) (s : str) :
  cmd_braced (c_backslash :: cmd) prev s <> None ->
  exists r, s = c_backslash :: r.
Proof.
  unfold cmd_braced.
  destruct (strip_prefix (c_backslash :: cmd) s) eqn:E; [|congruence].
  intros _. eapply strip_prefix_head; eauto.
Qed.

Lemma href_needs (prev : option char) (s : str) :
  href_m prev s <> None -> exists r, s = c_backslash :: r.
Proof.
  unfold href_m.
  destruct (strip_prefix (lit "\href") s) eqn:E; [|congruence].
  intros _. eapply (@strip_prefix_head c_backslash (lit "href")); eauto.
Qed.

Lemma delimited_needs (o c : str) (prev : option char) (s : str) :
  delimited_m (c_backslash :: o) c prev s <> None ->
  exists r, s = c_backslash :: r.
Proof.
  unfold delimited_m.
  destruct (strip_prefix (c_backslash :: o) s) eqn:E; [|congruence].
  intros _. eapply strip_prefix_head; eauto.
Qed.

Lemma math_inline_needs (prev : option char) (s : str) :
  math_inline_m prev s <> None -> exists r, s = c_dollar :: r.
Proof.
  unfold math_inline_m.
  destruct (match prev with Some p => negb (ceq p c_dollar) | None => true end);
    [|congruence].
  destruct s as [|c s]; [congruence|].
  destruct (ceq c c_dollar) eqn:E; [|congruence].
  apply ceq_eq in E. subst. eauto.
Qed.

Lemma math_display_needs (prev : option char) (s : str) :
  math_display_m prev s <> None -> exists r, s = c_dollar :: r.
Proof.
  unfold math_display_m.
  destruct (strip_prefix [c_dollar; c_dollar] s) eqn:E; [|congruence].
  intros _. eapply strip_prefix_head; eauto.
Qed.

Lemma comment_needs (prev : option char) (s : str) :
  comment_m prev s <> None -> exists r, s = c_percent :: r.
Proof.
  unfold comment_m. destruct s as [|c s]; [congruence|].
  destruct (ceq c c_percent) eqn:E; [|congruence].
  apply ceq_eq in E. subst. eauto.
Qed.

(** Without a percent sign there is no comment to strip. *)
Lemma strip_comments_lacks (s : str) :
  lacks c_percent s -> strip_comments s = s.
Proof. intro H. exact (sub_from_lacks comment_m comment_needs [] None H). Qed.

Lemma search_cmd_lacks (cmd s : str) :
  lacks c_backslash s -> search (cmd_braced (c_backslash :: cmd)) s = None.
Proof.
  intro H. exact (search_from_lacks _ (@cmd_braced_needs cmd) None 0 H).
Qed.

Lemma elems_of_nil {G} (k : G -> ElemKind) (m : matcher G) (s : str) :
  finditer m s = [] -> elems_of k m s = [].
Proof. unfold elems_of. intros ->. reflexivity. Qed.

(** Without a backslash and a dollar sign no inline pattern matches. *)
Lemma find_elements_plain (s : str) :
  lacks c_backslash s -> lacks c_dollar s -> find_elements s = [].
Proof.
  intros Hb Hd. unfold find_elements.
  rewrite (@elems_of_nil _ K_math_display p_math_display)
    by exact (finditer_from_lacks _ math_display_needs None 0 Hd).
  rewrite (@elems_of_nil _ K_math_inline p_math_inline)
    by exact (finditer_from_lacks _ math_inline_needs None 0 Hd).
  rewrite (@elems_of_nil _ K_math_display p_math_display_brackets)
    by exact (finditer_from_lacks _
                (@delimited_needs (lit "[") (lit "\]")) None 0 Hb).
  rewrite (@elems_of_nil _ K_math_inline p_math_inline_parens)
    by exact (finditer_from_lacks _
                (@delimited_needs (lit "(") (lit "\)")) None 0 Hb).
  rewrite (@elems_of_nil _ K_textbf p_textbf)
    by exact (finditer_from_lacks _ (@cmd_braced_needs (lit "textbf")) None 0 Hb).
  rewrite (@elems_of_nil _ K_textit p_textit)
    by exact (finditer_from_lacks _ (@cmd_braced_needs (lit "textit")) None 0 Hb).
  rewrite (@elems_of_nil _ K_code p_texttt)
    by exact (finditer_from_lacks _ (@cmd_braced_needs (lit "texttt")) None 0 Hb).
  rewrite (@elems_of_nil _ _ p_href)
    by exact (finditer_from_lacks _ href_needs None 0 Hb).
  reflexivity.
Qed.

(** A paragraph without a match is one text node holding the whole text. *)
Lemma parse_paragraph_no_match (s : str) :
  find_elements s = [] ->
  nonempty (strip s) = true ->
  _parse_paragraph s = Node PARAGRAPH CNone [leaf TEXT (CStr s)] [].
Proof.
  intros He Hn. unfold _parse_paragraph. rewrite He. cbn [sort_elements fold_right fold_left].
  destruct s as [|c s]; [discriminate Hn|].
  cbn [List.length Nat.ltb Nat.leb slice_from skipn].
  rewrite Hn. reflexivity.
Qed.

End Triggers.

(** ** Plain text *)

Section PlainText.

Lemma plain_lacks (text : str) :
  plain text = true ->
  lacks c_backslash text /\ lacks c_dollar text /\ lacks c_percent text.
Proof.
  unfold plain. intro H.
  apply andb_true_iff in H. destruct H as [H H3].
  apply andb_true_iff in H. destruct H as [H1 H2].
  apply negb_true_iff in H1, H2, H3.
  repeat split; apply lacks_contains; assumption.
Qed.

(** A line without a backslash and a dollar sign becomes one paragraph
    with one text node, the stripped line. *)
Lemma parse_plain_line (text : str) :
  lacks c_backslash text ->
  lacks c_dollar text ->
  lacks c_nl text ->
  nonempty (strip text) = true ->
  parse text
  = Some (Node DOCUMENT CNone
            [Node PARAGRAPH CNone [leaf TEXT (CStr (strip text))] []] []).
Proof.
  intros Hb Hd Hn Hs. unfold parse.
  rewrite (split_lacks_id Hn).
  assert (Hb' : lacks c_backslash (strip text)) by (apply Forall_strip; exact Hb).
  assert (Hd' : lacks c_dollar (strip text)) by (apply Forall_strip; exact Hd).
  assert (Hs' : nonempty (strip (strip text)) = true)
    by (rewrite strip_strip; exact Hs).
  cbn [parse_loop List.length Nat.ltb Nat.leb nth].
  rewrite Hs. cbn [negb].
  replace (search p_section (strip text)) with (@None (nat * nat * str))
    by (symmetry; exact (search_cmd_lacks (lit "section") Hb')).
  replace (search p_subsection (strip text)) with (@None (nat * nat * str))
    by (symmetry; exact (search_cmd_lacks (lit "subsection") Hb')).
  replace (search p_subsubsection (strip text)) with (@None (nat * nat * str))
    by (symmetry; exact (search_cmd_lacks (lit "subsubsection") Hb')).
  replace (search p_begin_env (strip text)) with (@None (nat * nat * str))
    by (symmetry; exact (search_cmd_lacks (lit "begin") Hb')).
  rewrite (parse_paragraph_no_match _ (find_elements_plain Hb' Hd') Hs').
  reflexivity.
Qed.

(** The rendering of a paragraph that is one text node. *)
Lemma convert_text_paragraph (s : str) :
  nonempty s = true ->
  NotionConverter.convert 0
    (Node DOCUMENT CNone [Node PARAGRAPH CNone [leaf TEXT (CStr s)] []] [])
  = Some s.
Proof.
  intro H. cbn. rewrite app_nil_r, H. reflexivity.
Qed.

Lemma skipn_nth (lines : list str) (i : nat) :
  i < List.length lines ->
  skipn i lines = nth i lines [] :: skipn (S i) lines.
Proof.
  revert i. induction lines as [|l ls IH]; intros i H; simpl in H; [lia|].
  destruct i as [|i]; [reflexivity|].
  simpl. apply IH. lia.
Qed.

(** The loop of [parse] over lines without a backslash and a dollar sign:
    one paragraph for each non-blank line. *)
Lemma parse_loop_plain (lines : list str) :
  Forall (fun l => lacks c_backslash l /\ lacks c_dollar l) lines ->
  forall (fuel i : nat) (acc : list ASTNode),
    List.length lines - i < fuel ->
    parse_loop fuel lines i acc
    = Some (acc ++ map text_paragraph
                     (filter nonempty (map strip (skipn i lines)))).
Proof.
  intros Hl. induction fuel as [|fuel IH]; intros i acc Hf; [lia|].
  cbn [parse_loop].
  destruct (Nat.ltb_spec i (List.length lines)) as [Hi|Hi].
  2: { rewrite skipn_all2 by lia. simpl. rewrite app_nil_r. reflexivity. }
  rewrite (skipn_nth _ Hi). cbn [map filter].
  assert (Hin : In (nth i lines []) lines) by (apply nth_In; exact Hi).
  destruct (proj1 (Forall_forall _ _) Hl _ Hin) as [Hb Hd].
  set (l := nth i lines []) in *.
  replace (i + 1) with (S i) by lia.
  destruct (nonempty (strip l)) eqn:Hs; cbn [negb].
  - assert (Hb' : lacks c_backslash (strip l)) by (apply Forall_strip; exact Hb).
    assert (Hd' : lacks c_dollar (strip l)) by (apply Forall_strip; exact Hd).
    assert (Hs' : nonempty (strip (strip l)) = true)
      by (rewrite strip_strip; exact Hs).
    replace (search p_section (strip l)) with (@None (nat * nat * str))
      by (symmetry; exact (search_cmd_lacks (lit "section") Hb')).
    replace (search p_subsection (strip l)) with (@None (nat * nat * str))
      by (symmetry; exact (search_cmd_lacks (lit "subsection") Hb')).
    replace (search p_subsubsection (strip l)) with (@None (nat * nat * str))
      by (symmetry; exact (search_cmd_lacks (lit "subsubsection") Hb')).
    replace (search p_begin_env (strip l)) with (@None (nat * nat * str))
      by (symmetry; exact (search_cmd_lacks (lit "begin") Hb')).
    rewrite (parse_paragraph_no_match _ (find_elements_plain Hb' Hd') Hs').
    cbn [children]. rewrite IH by lia.
    rewrite <- app_assoc. reflexivity.
  - apply IH. lia.
Qed.

(** The parse of plain text. *)
Lemma parse_plain (text : str) :
  lacks c_backslash text ->
  lacks c_dollar text ->
  parse text
  = Some (Node DOCUMENT CNone (map text_paragraph (nonblank_lines text)) []).
Proof.
  intros Hb Hd. unfold parse, nonblank_lines.
  rewrite (@parse_loop_plain (split c_nl text)); [reflexivity| |lia].
  pose proof (Forall_split c_nl Hb) as H1.
  pose proof (Forall_split c_nl Hd) as H2.
  apply Forall_forall. intros l Hin.
  split; [exact (proj1 (Forall_forall _ _) H1 _ Hin)
         |exact (proj1 (Forall_forall _ _) H2 _ Hin)].
Qed.

(** The rendering of paragraphs that are one text node each. *)
Lemma convert_text_paragraphs (bs : list str) :
  Forall (fun b => nonempty b = true) bs ->
  NotionConverter.convert 0 (Node DOCUMENT CNone (map text_paragraph bs) [])
  = Some (join (nl ++ nl) bs).
Proof.
  intro H. unfold NotionConverter.convert, NotionConverter.blocks_of.
  cbn [node_type NodeType_eqb negb children].
  assert (Ht : traverse (NotionConverter._convert_node 0) (map text_paragraph bs)
               = Some bs).
  { clear H. induction bs as [|b bs IH]; [reflexivity|].
    cbn [map traverse]. rewrite IH.
    cbn. rewrite app_nil_r. reflexivity. }
  rewrite Ht. cbn [bind]. clear Ht.
  replace (filter nonempty bs) with bs; [reflexivity|].
  induction H as [|b bs Hb _ IH]; [reflexivity|].
  simpl. rewrite Hb. f_equal. exact IH.
Qed.

Lemma nonblank_lines_nonempty (text : str) :
  Forall (fun b => nonempty b = true) (nonblank_lines text).
Proof.
  unfold nonblank_lines. apply Forall_forall. intros b Hb.
  apply filter_In in Hb. tauto.
Qed.

End PlainText.

(** C1 as stated fails on two plain lines: each non-blank line is parsed on
    its own, so the result has two paragraph blocks with a blank line
    between them, not one block equal to the trimmed input. *)
Lemma C1_two_lines_two_blocks :
  let text := unlines [lit "a"; lit "b"] in
  plain text = true
  /\ nonempty (strip text) = true
  /\ parse text
     = Some (Node DOCUMENT CNone
               [Node PARAGRAPH CNone [leaf TEXT (CStr (lit "a"))] [];
                Node PARAGRAPH CNone [leaf TEXT (CStr (lit "b"))] []] [])
  /\ convert_default text = Some (unlines [lit "a"; lit ""; lit "b"])
  /\ convert_default text <> Some (strip text).
Proof. vm_compute. repeat split; try reflexivity. discriminate. Qed.

(** C1, amended. For every input that contains no LaTeX construct,
    [parse] gives one paragraph for each non-blank line, holding one text
    node with the trimmed line, and [convert] returns these lines with a
    blank line between them; so an input on one line (no newline) that is
    not whitespace-only gives exactly one paragraph block, equal to the
    trimmed input. *)
Theorem C1_plain_text_blocks :
  forall text : str,
    plain text = true ->
    (parse text
     = Some (Node DOCUMENT CNone (map text_paragraph (nonblank_lines text)) [])
     /\ convert_default text = Some (join (nl ++ nl) (nonblank_lines text)))
    /\ (contains c_nl text = false ->
        nonempty (strip text) = true ->
        parse text
        = Some (Node DOCUMENT CNone
                  [Node PARAGRAPH CNone [leaf TEXT (CStr (strip text))] []] [])
        /\ convert_default text = Some (strip text)).
Proof.
  intros text Hp.
  apply plain_lacks in Hp. destruct Hp as [Hb [Hd Hc]].
  assert (Hc' : convert_default text
                = bind (parse text) (NotionConverter.convert 0)).
  { unfold convert_default, convert. cbn [negb].
    rewrite (strip_comments_lacks Hc). reflexivity. }
  split.
  - pose proof (parse_plain Hb Hd) as H.
    split; [exact H|].
    rewrite Hc', H. cbn [bind].
    apply convert_text_paragraphs, nonblank_lines_nonempty.
  - intros Hn Hs. apply lacks_contains in Hn.
    pose proof (parse_plain_line Hb Hd Hn Hs) as H.
    split; [exact H|].
    rewrite Hc', H. cbn [bind].
    apply convert_text_paragraph. exact Hs.
Qed.

(** One line with blanks around it. *)
Lemma C1_plain_text_blocks_witness :
  (parse (lit "  plain text  ")
   = Some (Node DOCUMENT CNone
             (map text_paragraph (nonblank_lines (lit "  plain text  "))) [])
   /\ convert_default (lit "  plain text  ")
      = Some (join (nl ++ nl) (nonblank_lines (lit "  plain text  "))))
  /\ (parse (lit "  plain text  ")
      = Some (Node DOCUMENT CNone
                [Node PARAGRAPH CNone
                   [leaf TEXT (CStr (strip (lit "  plain text  ")))] []] [])
      /\ convert_default (lit "  plain text  ")
         = Some (strip (lit "  plain text  "))).
Proof.
  destruct (C1_plain_text_blocks (lit "  plain text  ") eq_refl) as [H1 H2].
  split; [exact H1|apply H2; reflexivity].
Defined.

(** ** Headings *)

Section Headings.

Lemma span_not_app (c : char) (g rest : str) :
  lacks c g -> span_not c (g ++ c :: rest) = (g, c :: rest).
Proof.
  induction 1 as [|x g Hx _ IH]; simpl.
  - rewrite ceq_refl. reflexivity.
  - destruct (ceq x c) eqn:E; [apply ceq_eq in E; contradiction|].
    rewrite IH. reflexivity.
Qed.

(** The command pattern at the start of [cmd{title}]. *)
Lemma cmd_braced_at (cmd title rest : str) (prev : option char) :
  title <> [] ->
  lacks c_rbrace title ->
  cmd_braced cmd prev (cmd ++ c_lbrace :: title ++ c_rbrace :: rest)
  = Some (List.length cmd + 0 + 1 + List.length title + 1, title).
Proof.
  intros Hne Hl. unfold cmd_braced. rewrite strip_prefix_app.
  cbn [skip_ws]. change (isspace c_lbrace) with false. cbv iota.
  unfold braced. rewrite ceq_refl, (span_not_app rest Hl).
  destruct title; [congruence|reflexivity].
Qed.

Lemma search_here {G} (m : matcher G) (s : str) (n : nat) (g : G) :
  m None s = Some (n, g) -> search m s = Some (0, n, g).
Proof. intro H. unfold search. destruct s; simpl; rewrite H; reflexivity. Qed.

Lemma search_skip {G} (m : matcher G) (t c : char) (s : str) :
  (forall prev s', m prev s' <> None -> exists r, s' = t :: r) ->
  m None (c :: s) = None ->
  lacks t s ->
  search m (c :: s) = None.
Proof.
  intros Hm H0 Hs. unfold search. simpl. rewrite H0.
  exact (search_from_lacks m Hm (Some c) 1 Hs).
Qed.

Lemma rstrip_snoc (s : str) (y : char) :
  isspace y = false -> rstrip (s ++ [y]) = s ++ [y].
Proof.
  intro H. unfold rstrip. rewrite rev_app_distr. simpl. rewrite H.
  simpl. rewrite rev_involutive. reflexivity.
Qed.

(** A line from a backslash to a closing brace has nothing to strip. *)
Lemma strip_command_line (s : str) :
  strip (c_backslash :: s ++ [c_rbrace]) = c_backslash :: s ++ [c_rbrace].
Proof.
  unfold strip. rewrite lstrip_head by reflexivity.
  rewrite app_comm_cons. apply rstrip_snoc. reflexivity.
Qed.

(** [parse] on a text of one line from a backslash to a closing brace, by
    the first of the three heading patterns that matches. *)
Lemma parse_heading_line (s title : str) (t : NodeType) :
  lacks c_nl s ->
  (t = SECTION
   /\ (exists a b, search p_section (c_backslash :: s ++ [c_rbrace])
                   = Some (a, b, title))
   \/ t = SUBSECTION
      /\ search p_section (c_backslash :: s ++ [c_rbrace]) = None
      /\ (exists a b, search p_subsection (c_backslash :: s ++ [c_rbrace])
                      = Some (a, b, title))
   \/ t = SUBSUBSECTION
      /\ search p_section (c_backslash :: s ++ [c_rbrace]) = None
      /\ search p_subsection (c_backslash :: s ++ [c_rbrace]) = None
      /\ (exists a b, search p_subsubsection (c_backslash :: s ++ [c_rbrace])
                      = Some (a, b, title))) ->
  parse (c_backslash :: s ++ [c_rbrace])
  = Some (Node DOCUMENT CNone [leaf t (CStr title)] []).
Proof.
  intros Hn H. unfold parse.
  assert (Hl : lacks c_nl (c_backslash :: s ++ [c_rbrace])).
  { constructor; [discriminate|]. apply lacks_app. split; [exact Hn|].
    repeat constructor. discriminate. }
  rewrite (split_lacks_id Hl).
  cbn [parse_loop List.length Nat.ltb Nat.leb nth].
  rewrite strip_command_line. cbn [nonempty negb].
  destruct H as [[-> [a [b H1]]]|[[-> [H1 [a [b H2]]]]
                                 |[-> [H1 [H2 [a [b H3]]]]]]].
  - rewrite H1. reflexivity.
  - rewrite H1, H2. reflexivity.
  - rewrite H1, H2, H3. reflexivity.
Qed.

Lemma lacks_nl_lit_title (pre title : str) :
  lacks c_nl pre -> lacks c_nl title -> lacks c_nl (pre ++ c_lbrace :: title).
Proof.
  intros H1 H2. apply lacks_app. split; [exact H1|].
  constructor; [discriminate|exact H2].
Qed.

(** The three heading commands with a title. *)
Lemma parse_section_title (title : str) :
  title <> [] -> lacks c_rbrace title -> lacks c_nl title ->
  parse (lit "\section{" ++ title ++ lit "}")
  = Some (Node DOCUMENT CNone [leaf SECTION (CStr title)] []).
Proof.
  intros Hne Hr Hn.
  change (lit "\section{" ++ title ++ lit "}")
    with (c_backslash :: (lit "section" ++ c_lbrace :: title) ++ [c_rbrace]).
  apply parse_heading_line.
  - apply lacks_nl_lit_title; [repeat constructor; discriminate|exact Hn].
  - left. split; [reflexivity|]. do 2 eexists.
    apply search_here.
    exact (cmd_braced_at (lit "\section") [] None Hne Hr).
Qed.

Lemma parse_subsection_title (title : str) :
  title <> [] -> lacks c_rbrace title -> lacks c_nl title ->
  lacks c_backslash title ->
  parse (lit "\subsection{" ++ title ++ lit "}")
  = Some (Node DOCUMENT CNone [leaf SUBSECTION (CStr title)] []).
Proof.
  intros Hne Hr Hn Hb.
  change (lit "\subsection{" ++ title ++ lit "}")
    with (c_backslash :: (lit "subsection" ++ c_lbrace :: title) ++ [c_rbrace]).
  apply parse_heading_line.
  - apply lacks_nl_lit_title; [repeat constructor; discriminate|exact Hn].
  - right. left. split; [reflexivity|]. split.
    + apply (@search_skip _ p_section c_backslash _ _
               (@cmd_braced_needs (lit "section"))); [reflexivity|].
      apply lacks_app. split.
      * apply lacks_app. split; [repeat constructor; discriminate|].
        constructor; [discriminate|exact Hb].
      * repeat constructor. discriminate.
    + do 2 eexists. apply search_here.
      exact (cmd_braced_at (lit "\subsection") [] None Hne Hr).
Qed.

Lemma parse_subsubsection_title (title : str) :
  title <> [] -> lacks c_rbrace title -> lacks c_nl title ->
  lacks c_backslash title ->
  parse (lit "\subsubsection{" ++ title ++ lit "}")
  = Some (Node DOCUMENT CNone [leaf SUBSUBSECTION (CStr title)] []).
Proof.
  intros Hne Hr Hn Hb.
  change (lit "\subsubsection{" ++ title ++ lit "}")
    with (c_backslash
          :: (lit "subsubsection" ++ c_lbrace :: title) ++ [c_rbrace]).
  assert (Hl : lacks c_backslash
                 ((lit "subsubsection" ++ c_lbrace :: title) ++ [c_rbrace])).
  { apply lacks_app. split.
    - apply lacks_app. split; [repeat constructor; discriminate|].
      constructor; [discriminate|exact Hb].
    - repeat constructor. discriminate. }
  apply parse_heading_line.
  - apply lacks_nl_lit_title; [repeat constructor; discriminate|exact Hn].
  - right. right. split; [reflexivity|]. split; [|split].
    + apply (@search_skip _ p_section c_backslash _ _
               (@cmd_braced_needs (lit "section"))); [reflexivity|exact Hl].
    + apply (@search_skip _ p_subsection c_backslash _ _
               (@cmd_braced_needs (lit "subsection"))); [reflexivity|exact Hl].
    + do 2 eexists. apply search_here.
      exact (cmd_braced_at (lit "\subsubsection") [] None Hne Hr).
Qed.

(** A heading node among the nodes of the parser holds a non-empty title. *)
Lemma top_heading_title (n : ASTNode) :
  top_shape n ->
  BlockHandler.is_heading n = true ->
  exists title, content n = CStr title /\ title <> [].
Proof.
  intros [t title Ht Hne|i env_name lines|line _] Hh.
  - exists title. split; [reflexivity|exact Hne].
  - destruct (parse_environment_cases i env_name lines)
      as [body [a [[t [Ht E]]|[E|[t [Ht E]]]]]]; rewrite E in Hh.
    + destruct t; discriminate.
    + discriminate.
    + destruct Ht as [->|[->|[->| ->]]]; discriminate.
  - rewrite parse_paragraph_node in Hh. discriminate.
Qed.

End Headings.

(** C3 as stated fails on a heading command with an empty title: no heading
    pattern matches it (each needs one title character at least), and the
    line becomes a paragraph of literal text, for each of the three
    commands. *)
Lemma C3_empty_title_is_paragraph :
  parse (lit "\section{}")
  = Some (Node DOCUMENT CNone
            [Node PARAGRAPH CNone [leaf TEXT (CStr (lit "\section{}"))] []] [])
  /\ parse (lit "\subsection{}")
     = Some (Node DOCUMENT CNone
               [Node PARAGRAPH CNone
                  [leaf TEXT (CStr (lit "\subsection{}"))] []] [])
  /\ parse (lit "\subsubsection{}")
     = Some (Node DOCUMENT CNone
               [Node PARAGRAPH CNone
                  [leaf TEXT (CStr (lit "\subsubsection{}"))] []] [])
  /\ search p_section (lit "\section{}") = None.
Proof. vm_compute. repeat split; reflexivity. Qed.

(** C3, amended. Every heading node in a tree of [parse] carries a
    non-empty title; and a line that is a heading command with a title of
    one or more characters, none of them a closing brace, a backslash or a
    newline, gives exactly one heading node of the kind of the command, with
    the title for content. *)
Theorem C3_heading_titles :
  (forall text : str,
      exists doc,
        parse text = Some doc
        /\ Forall (fun n => BlockHandler.is_heading n = true ->
                            exists title, content n = CStr title /\ title <> [])
                  (children doc))
  /\ (forall title : str,
        title <> [] ->
        contains c_rbrace title = false ->
        contains c_backslash title = false ->
        contains c_nl title = false ->
        parse (lit "\section{" ++ title ++ lit "}")
        = Some (Node DOCUMENT CNone [leaf SECTION (CStr title)] [])
        /\ parse (lit "\subsection{" ++ title ++ lit "}")
           = Some (Node DOCUMENT CNone [leaf SUBSECTION (CStr title)] [])
        /\ parse (lit "\subsubsection{" ++ title ++ lit "}")
           = Some (Node DOCUMENT CNone [leaf SUBSUBSECTION (CStr title)] [])).
Proof.
  split.
  - intro text. destruct (parse_shape text) as [ch [Hp Hs]].
    eexists. split; [exact Hp|]. cbn [children].
    eapply Forall_impl; [|exact Hs].
    intros n Hn. apply top_heading_title. exact Hn.
  - intros title Hne Hr Hb Hn.
    apply lacks_contains in Hr, Hb, Hn.
    split; [|split].
    + apply parse_section_title; assumption.
    + apply parse_subsection_title; assumption.
    + apply parse_subsubsection_title; assumption.
Qed.

Lemma C3_heading_titles_witness :
  parse (lit "\section{" ++ lit "Intro" ++ lit "}")
  = Some (Node DOCUMENT CNone [leaf SECTION (CStr (lit "Intro"))] [])
  /\ parse (lit "\subsection{" ++ lit "Intro" ++ lit "}")
     = Some (Node DOCUMENT CNone [leaf SUBSECTION (CStr (lit "Intro"))] [])
  /\ parse (lit "\subsubsection{" ++ lit "Intro" ++ lit "}")
     = Some (Node DOCUMENT CNone [leaf SUBSUBSECTION (CStr (lit "Intro"))] []).
Proof.
  apply (proj2 C3_heading_titles (lit "Intro"));
    [discriminate|reflexivity|reflexivity|reflexivity].
Defined.

(** ** The conversion always returns a string *)

Section Totality.

Lemma traverse_total {A B} (f : A -> option B) (l : list A) :
  Forall (fun a => exists b, f a = Some b) l ->
  exists bs, traverse f l = Some bs.
Proof.
  induction 1 as [|a l [b Hb] _ [bs Hbs]]; simpl; [eauto|].
  rewrite Hb. cbn [bind]. rewrite Hbs. cbn [bind]. eauto.
Qed.

Lemma inline_parts_total (n : ASTNode) :
  inline_leaf n = true ->
  (exists ps, inline_parts n = Some ps)
  /\ NodeType_eqb (node_type n) PARAGRAPH = false.
Proof.
  destruct n as [t [|s|cells] [|x ch] a]; simpl; try discriminate.
  unfold inline_parts, MathHandler.convert, fmt_url. cbn [node_type content attributes fmt as_part bind].
  destruct t; try discriminate; intro H; (split; [|reflexivity]);
    cbn [bind]; eauto.
  destruct (attr_get "url" a) as [[?|?]|]; try discriminate H; cbn [bind]; eauto.
Qed.

Lemma convert_paragraph_total (t : NodeType) (c : Content)
    (a : list (string * AttrVal)) (text : str) :
  exists s,
    BlockHandler.convert_paragraph
      (Node t c (children (_parse_paragraph text)) a) = Some s.
Proof.
  unfold BlockHandler.convert_paragraph. cbn [children].
  destruct (children (_parse_paragraph text)) as [|x ch] eqn:E; [eauto|].
  destruct (@traverse_total _ _ inline_parts (x :: ch)) as [ps Hps].
  - rewrite <- E. eapply Forall_impl; [|apply parse_paragraph_inline].
    intros n Hn. apply inline_parts_total. exact Hn.
  - rewrite Hps. cbn [bind]. eauto.
Qed.

Lemma process_item_total (n : ASTNode) :
  list_item_shape n -> exists s, ListHandler._process_item_content n = Some s.
Proof.
  intros [item_text ->]. unfold ListHandler._process_item_content.
  cbn [children].
  destruct (children (_parse_paragraph item_text)) as [|x ch] eqn:E; [eauto|].
  match goal with
  | |- context [traverse ?f (x :: ch)] =>
      destruct (@traverse_total _ _ f (x :: ch)) as [ps Hps]
  end.
  - rewrite <- E. eapply Forall_impl; [|apply parse_paragraph_inline].
    intros n Hn. apply inline_parts_total in Hn. destruct Hn as [Hn Hk].
    destruct (node_type n); try discriminate Hk; exact Hn.
  - rewrite Hps. cbn [bind]. eauto.
Qed.

Lemma list_convert_total (t : NodeType) (c : Content)
    (a : list (string * AttrVal)) (ch : list ASTNode) (level : nat) :
  Forall list_item_shape ch ->
  exists s, ListHandler.convert (Node t c ch a) level = Some s.
Proof.
  intro H. unfold ListHandler.convert. cbn [children].
  destruct ch as [|x ch]; [eauto|].
  match goal with
  | |- context [traverse ?f (x :: ch)] =>
      destruct (@traverse_total _ _ f (x :: ch)) as [ps Hps]
  end.
  - eapply Forall_impl; [|exact H].
    intros n Hn. destruct (process_item_total Hn) as [s Hs].
    destruct Hn as [item_text ->]. cbn [node_type] in *.
    rewrite Hs. cbn [bind]. eauto.
  - rewrite Hps. cbn [bind]. eauto.
Qed.

(** Every node of the parser renders. *)
Lemma top_convert_total (offset : Z) (n : ASTNode) :
  top_shape n -> exists s, NotionConverter._convert_node offset n = Some s.
Proof.
  intros [t title Ht _|i env_name lines|line _].
  - destruct t; try discriminate Ht; cbn; eauto.
  - destruct (parse_environment_cases i env_name lines)
      as [body [a [[t [Ht ->]]|[->|[t [Ht ->]]]]]].
    + unfold NotionConverter._convert_node.
      replace (BlockHandler.is_heading _) with false
        by (destruct t; try discriminate Ht; reflexivity).
      replace (ListHandler.is_list_node _) with true
        by (destruct t; try discriminate Ht; reflexivity).
      apply list_convert_total, parse_list_items_shape.
    + cbn. eauto.
    + destruct Ht as [->|[->|[->| ->]]]; cbn; eauto.
  - rewrite parse_paragraph_node.
    unfold NotionConverter._convert_node. cbn [BlockHandler.is_heading
      ListHandler.is_list_node TableHandler.is_table_node
      BlockHandler.is_block_environment node_type NodeType_eqb].
    apply convert_paragraph_total.
Qed.

(** [convert] returns a string on every input and under every option: the
    loop of the parser ends, and no renderer fails on its trees. *)
Theorem convert_total (text math_mode : str) (offset : Z) (preserve : bool) :
  exists out, convert text math_mode offset preserve = Some out.
Proof.
  unfold convert.
  set (input := if negb preserve then strip_comments text else text).
  destruct (parse_shape input) as [ch [Hp Hs]].
  rewrite Hp. cbn [bind].
  unfold NotionConverter.convert, NotionConverter.blocks_of.
  cbn [node_type NodeType_eqb negb children].
  destruct (@traverse_total _ _ (NotionConverter._convert_node offset) ch)
    as [bs Hbs].
  - eapply Forall_impl; [|exact Hs].
    intros n Hn. apply top_convert_total. exact Hn.
  - rewrite Hbs. cbn [bind]. eauto.
Qed.

End Totality.

(** ** Further properties: comment stripping *)

Section CommentStripping.

Lemma span_not_spec (c : char) (s : str) :
  s = fst (span_not c s) ++ snd (span_not c s)
  /\ lacks c (fst (span_not c s))
  /\ (snd (span_not c s) = [] \/ exists r, snd (span_not c s) = c :: r).
Proof.
  induction s as [|x s IH]; simpl.
  - repeat split; [constructor|left; reflexivity].
  - destruct (ceq x c) eqn:E.
    + apply ceq_eq in E. subst. simpl.
      repeat split; [constructor|right; eauto].
    + destruct (span_not c s) as [g r]. simpl in *.
      destruct IH as [H1 [H2 H3]].
      split; [f_equal; exact H1|]. split; [|exact H3].
      constructor; [|exact H2]. intro H. subst. rewrite ceq_refl in E.
      discriminate.
Qed.

Lemma span_not_length (c : char) (s : str) :
  skipn (List.length (fst (span_not c s))) s = snd (span_not c s).
Proof.
  destruct (span_not_spec c s) as [H _].
  rewrite H at 2. rewrite skipn_app, skipn_all, Nat.sub_diag. reflexivity.
Qed.

Lemma sub_from_comment_prev (s : str) (p p' : option char) (k : nat) :
  sub_from comment_m [] p k s = sub_from comment_m [] p' k s.
Proof. destruct s; reflexivity. Qed.

(** Passing the characters of a match is dropping them. *)
Lemma sub_from_comment_skip (s : str) :
  forall (k : nat) (p p' : option char),
    sub_from comment_m [] p k s = sub_from comment_m [] p' 0 (skipn k s).
Proof.
  induction s as [|c s IH]; intros k p p'.
  - destruct k; reflexivity.
  - destruct k as [|k]; [apply sub_from_comment_prev|].
    simpl. apply IH.
Qed.

Lemma split_cons_other (c x : char) (s : str) :
  x <> c ->
  split c (x :: s) = (x :: hd [] (split c s)) :: tl (split c s).
Proof.
  intro H. simpl. destruct (ceq x c) eqn:E; [apply ceq_eq in E; contradiction|].
  destruct (split c s) eqn:E2; [exfalso; eapply split_nonnil; eauto|].
  reflexivity.
Qed.

Lemma before_comment_cons (x : char) (l : str) :
  x <> c_percent -> before_comment (x :: l) = x :: before_comment l.
Proof.
  intro H. unfold before_comment. simpl.
  destruct (ceq x c_percent) eqn:E; [apply ceq_eq in E; contradiction|].
  destruct (span_not c_percent l). reflexivity.
Qed.

Lemma strip_comments_lines_aux (n : nat) :
  forall (s : str) (p : option char),
    List.length s <= n ->
    split c_nl (sub_from comment_m [] p 0 s)
    = map before_comment (split c_nl s).
Proof.
  induction n as [|n IH]; intros s p Hn.
  - destruct s; [reflexivity|simpl in Hn; lia].
  - destruct s as [|c r]; [reflexivity|].
    simpl in Hn. cbn [sub_from comment_m].
    destruct (ceq c c_percent) eqn:E.
    + apply ceq_eq in E. subst c.
      destruct (span_not c_nl r) as [g rest] eqn:Es.
      cbn [Nat.pred app].
      rewrite (sub_from_comment_skip r (List.length g) (Some c_percent) None).
      pose proof (span_not_length c_nl r) as Hk.
      pose proof (span_not_spec c_nl r) as [Hr [Hg Hrest]].
      rewrite Es in Hk, Hr, Hg, Hrest. cbn [fst snd] in *.
      rewrite Hk.
      assert (Hl : lacks c_nl (c_percent :: g))
        by (constructor; [discriminate|exact Hg]).
      destruct Hrest as [->|[r' ->]].
      * rewrite app_nil_r in Hr. subst r.
        rewrite (split_lacks_id Hl). reflexivity.
      * subst r. rewrite app_comm_cons, (split_app_sep r' Hl).
        cbn [sub_from comment_m]. change (ceq c_nl c_percent) with false.
        cbv iota. change (split c_nl (c_nl :: ?x)) with ([] :: split c_nl x).
        rewrite IH.
        -- reflexivity.
        -- rewrite length_app in Hn. simpl in Hn. lia.
    + assert (Hc : c <> c_percent)
        by (intro H; subst; rewrite ceq_refl in E; discriminate).
      destruct (ceq c c_nl) eqn:E2.
      * apply ceq_eq in E2. subst c.
        change (split c_nl (c_nl :: ?x)) with ([] :: split c_nl x).
        rewrite IH by lia. reflexivity.
      * assert (Hn' : c <> c_nl)
          by (intro H; subst; rewrite ceq_refl in E2; discriminate).
        rewrite !(split_cons_other _ Hn'), IH by lia.
        destruct (split c_nl r) as [|l ls] eqn:E3;
          [exfalso; eapply split_nonnil; eauto|].
        cbn [map hd tl]. rewrite (before_comment_cons _ Hc). reflexivity.
Qed.

Lemma join_split (c : char) (s : str) : join [c] (split c s) = s.
Proof.
  induction s as [|x s IH]; [reflexivity|].
  simpl. destruct (ceq x c) eqn:E.
  - apply ceq_eq in E. subst.
    destruct (split c s) eqn:E2; [exfalso; eapply split_nonnil; eauto|].
    rewrite <- IH. reflexivity.
  - destruct (split c s) as [|l ls] eqn:E2;
      [exfalso; eapply split_nonnil; eauto|].
    rewrite <- IH. destruct ls; reflexivity.
Qed.

End CommentStripping.

(** X1. The comment pre-pass works line by line: each line of the result is
    the line of the input cut at its first percent sign (an escaped [\%]
    included), so the number of lines is kept and no percent sign is
    left. *)
Theorem strip_comments_lines :
  forall s : str,
    split c_nl (strip_comments s) = map before_comment (split c_nl s)
    /\ lacks c_percent (strip_comments s).
Proof.
  intro s.
  assert (H : split c_nl (strip_comments s)
              = map before_comment (split c_nl s))
    by (apply (strip_comments_lines_aux (n := List.length s)); lia).
  split; [exact H|].
  rewrite <- (join_split c_nl (strip_comments s)), H.
  apply lacks_join; [repeat constructor; discriminate|].
  apply Forall_map, Forall_forall. intros l _.
  unfold before_comment. apply span_not_spec.
Qed.

(** ** Further properties: blank text *)

Section BlankText.

Lemma lstrip_nil_iff (s : str) : lstrip s = [] <-> all_space s = true.
Proof.
  unfold all_space. induction s as [|x s IH]; simpl; [tauto|].
  destruct (isspace x); simpl; [exact IH|]. split; discriminate.
Qed.

Lemma all_space_rev (s : str) : all_space (rev s) = all_space s.
Proof.
  unfold all_space. induction s as [|x s IH]; [reflexivity|].
  simpl. rewrite forallb_app, IH. simpl.
  rewrite andb_true_r. apply andb_comm.
Qed.

Lemma rstrip_nil_iff (s : str) : rstrip s = [] <-> all_space s = true.
Proof.
  unfold rstrip. rewrite <- all_space_rev, <- lstrip_nil_iff.
  split; intro H.
  - apply (f_equal (@rev char)) in H. rewrite rev_involutive in H. exact H.
  - rewrite H. reflexivity.
Qed.

(** [s.strip()] is empty exactly for whitespace-only [s]. *)
Lemma strip_nil_iff (s : str) : strip s = [] <-> all_space s = true.
Proof.
  unfold strip. split; intro H.
  - apply rstrip_nil_iff in H. apply lstrip_nil_iff.
    pose proof (lstrip_nonspace s) as Hh.
    destruct (lstrip s) as [|x l]; [reflexivity|].
    unfold all_space in H. simpl in H. rewrite Hh in H. discriminate.
  - apply lstrip_nil_iff in H. rewrite H. reflexivity.
Qed.

Lemma nonempty_false (s : str) : nonempty s = false <-> s = [].
Proof. destruct s; simpl; split; congruence. Qed.

Lemma all_space_lacks (c : char) (s : str) :
  isspace c = false -> all_space s = true -> lacks c s.
Proof.
  intros Hc H. apply Forall_forall. intros x Hx E. subst.
  unfold all_space in H. rewrite forallb_forall in H.
  apply H in Hx. congruence.
Qed.

Lemma all_space_split (c : char) (s : str) :
  all_space s = true -> Forall (fun l => all_space l = true) (split c s).
Proof.
  intro H.
  assert (H' : Forall (fun x => isspace x = true) s).
  { apply Forall_forall. unfold all_space in H.
    rewrite forallb_forall in H. exact H. }
  eapply Forall_impl; [|apply (Forall_split c H')].
  intros l Hl. unfold all_space. apply forallb_forall.
  apply Forall_forall. exact Hl.
Qed.

Lemma nonblank_lines_all_space (text : str) :
  all_space text = true -> nonblank_lines text = [].
Proof.
  intro H. unfold nonblank_lines.
  pose proof (all_space_split c_nl text H) as Hl.
  induction Hl as [|l ls Hx _ IH]; [reflexivity|].
  simpl. apply strip_nil_iff in Hx. rewrite Hx. exact IH.
Qed.

(** A paragraph gets a child as soon as its text is not blank. *)
Lemma parse_paragraph_children_nonempty (text : str) :
  nonempty (strip text) = true -> children (_parse_paragraph text) <> [].
Proof.
  intro H. unfold _parse_paragraph.
  destruct (fold_left (build_step text) (sort_elements (find_elements text))
              (0, [])) as [pos ch].
  cbn [children].
  destruct (if pos <? List.length text then _ else ch); [|discriminate].
  rewrite H. discriminate.
Qed.

End BlankText.

(** X2. Whitespace-only input, the empty input included, parses to a
    document without children, and [convert] returns the empty string under
    every option. *)
Theorem convert_blank_input :
  forall (text math_mode : str) (offset : Z) (preserve : bool),
    all_space text = true ->
    parse text = Some (Node DOCUMENT CNone [] [])
    /\ convert text math_mode offset preserve = Some [].
Proof.
  intros text math_mode offset preserve H.
  assert (Hp : parse text = Some (Node DOCUMENT CNone [] [])).
  { rewrite parse_plain by (apply all_space_lacks; [reflexivity|exact H]).
    rewrite (nonblank_lines_all_space text H). reflexivity. }
  split; [exact Hp|].
  unfold convert.
  replace (if negb preserve then strip_comments text else text) with text.
  - rewrite Hp. reflexivity.
  - destruct preserve; [reflexivity|]. symmetry.
    apply strip_comments_lacks, all_space_lacks; [reflexivity|exact H].
Qed.

Lemma convert_blank_input_witness :
  parse (lit "  " ++ nl ++ lit " ") = Some (Node DOCUMENT CNone [] [])
  /\ convert (lit "  " ++ nl ++ lit " ") (lit "katex") 2 false = Some [].
Proof.
  apply (convert_blank_input (lit "  " ++ nl ++ lit " ") (lit "katex") 2 false).
  reflexivity.
Defined.

(** X3. The inline scanner gives a paragraph no child exactly when the text
    is whitespace-only. *)
Theorem parse_paragraph_empty_iff :
  forall text : str,
    children (_parse_paragraph text) = [] <-> all_space text = true.
Proof.
  intro text. split; intro H.
  - apply strip_nil_iff.
    destruct (strip text) eqn:E; [reflexivity|].
    exfalso. apply (@parse_paragraph_children_nonempty text); [|exact H].
    rewrite E. reflexivity.
  - assert (Hs : strip text = []) by (apply strip_nil_iff; exact H).
    unfold _parse_paragraph.
    rewrite find_elements_plain
      by (apply all_space_lacks; [reflexivity|exact H]).
    cbn [sort_elements fold_right fold_left children].
    unfold slice_from. cbn [skipn]. rewrite Hs. cbn [nonempty].
    destruct (0 <? List.length text); reflexivity.
Qed.

(** X4. Every node [_parse_list_items] returns is a list item with at least
    one child, all its children being inline leaves: a marker without text
    gives no item. *)
Theorem parse_list_items_nonempty :
  forall body : str,
    Forall (fun item =>
              node_type item = LIST_ITEM
              /\ children item <> []
              /\ Forall (fun n => inline_leaf n = true) (children item))
           (_parse_list_items body).
Proof.
  intro body.
  set (P := fun item : ASTNode =>
              node_type item = LIST_ITEM
              /\ children item <> []
              /\ Forall (fun n => inline_leaf n = true) (children item)).
  assert (Hsave : forall cur items, Forall P items -> Forall P (save_item cur items)).
  { intros cur items H. unfold save_item.
    destruct cur as [[|l c]|]; try exact H.
    destruct (nonempty (strip (join nl (l :: c)))) eqn:E; [|exact H].
    apply Forall_app. split; [exact H|].
    repeat constructor.
    - apply parse_paragraph_children_nonempty.
      rewrite strip_strip. exact E.
    - apply parse_paragraph_inline. }
  assert (Hloop : forall ls items cur,
             Forall P items ->
             Forall P (fst (fold_left item_step ls (items, cur)))).
  { induction ls as [|l ls IH]; intros items cur H; [exact H|].
    simpl. destruct (search p_item l) as [[[? ?] g]|]; apply IH;
      [apply Hsave|]; exact H. }
  unfold _parse_list_items.
  pose proof (Hloop (split c_nl body) [] (Some []) (Forall_nil _)) as H.
  destruct (fold_left item_step (split c_nl body) ([], Some [])) as [items cur].
  apply Hsave. exact H.
Qed.

(** ** Further properties: matching the end of an environment *)

Section EnvironmentMatching.

Variable env_name : str.

Lemma scan_env_flat_line (l : str) (rest : list str) (i : nat) (d : Z)
    (acc : list str) :
  flat_line env_name l = true ->
  scan_env env_name (l :: rest) i d acc
  = scan_env env_name rest (S i) d (acc ++ [l]).
Proof.
  unfold flat_line, begins_env, ends_env. intro H.
  apply andb_true_iff in H. destruct H as [H1 H2].
  simpl. destruct (search p_begin_env l); [discriminate|].
  destruct (search p_end_env l) as [[[? ?] g]|]; [|reflexivity].
  apply negb_true_iff in H2. rewrite H2. reflexivity.
Qed.

(** Flat lines are collected without a change of depth. *)
Lemma scan_env_flat (body : list str) :
  forall (rest : list str) (i : nat) (d : Z) (acc : list str),
    Forall (fun l => flat_line env_name l = true) body ->
    scan_env env_name (body ++ rest) i d acc
    = scan_env env_name rest (i + List.length body) d (acc ++ body).
Proof.
  induction body as [|l body IH]; intros rest i d acc H.
  - simpl. rewrite Nat.add_0_r, app_nil_r. reflexivity.
  - inversion H; subst. cbn [app].
    rewrite scan_env_flat_line by assumption.
    rewrite IH by assumption. cbn [List.length].
    rewrite <- app_assoc. f_equal. lia.
Qed.

(** A line with a [\begin] raises the depth, whatever it names. *)
Lemma scan_env_begin (l : str) (rest : list str) (i : nat) (d : Z)
    (acc : list str) :
  begins_env l = true ->
  scan_env env_name (l :: rest) i d acc
  = scan_env env_name rest (S i) (d + 1) (acc ++ [l]).
Proof.
  unfold begins_env. intro H. simpl.
  destruct (search p_begin_env l); [reflexivity|discriminate].
Qed.

(** A closing line ends the loop at depth 1 and lowers the depth
    otherwise. *)
Lemma scan_env_closing (l : str) (rest : list str) (i : nat) (d : Z)
    (acc : list str) :
  closing_line env_name l = true ->
  scan_env env_name (l :: rest) i d acc
  = if (d - 1 =? 0)%Z then (Some i, acc)
    else scan_env env_name rest (S i) (d - 1) (acc ++ [l]).
Proof.
  unfold closing_line, begins_env, ends_env. intro H.
  apply andb_true_iff in H. destruct H as [H1 H2].
  simpl. destruct (search p_begin_env l); [discriminate|].
  destruct (search p_end_env l) as [[[? ?] g]|]; [|discriminate].
  rewrite H2. reflexivity.
Qed.

Lemma skipn_app_cons {A} (pre : list A) (x : A) (rest : list A) :
  skipn (S (List.length pre)) (pre ++ x :: rest) = rest.
Proof. induction pre as [|p pre IH]; [reflexivity|exact IH]. Qed.

(** The node of an environment from what the loop of [scan_env] gave. *)
Lemma parse_environment_scan (start : nat) (lines : list str)
    (found : option nat) (body : list str) :
  scan_env env_name (skipn (S start) lines) (S start) 1 [] = (found, body) ->
  content (_parse_environment start env_name lines) = CStr (join nl body)
  /\ attributes (_parse_environment start env_name lines)
     = env_attrs (match found with Some j => j | None => start + 1 end)
                 env_name.
Proof.
  intro H. unfold _parse_environment. rewrite H.
  destruct (is_list_env env_name); [|destruct (is_table_env env_name)];
    split; reflexivity.
Qed.

End EnvironmentMatching.

(** The node of an environment whose body is flat up to a closing line. *)
Lemma parse_environment_flat (env_name : str) (pre body post : list str)
    (begin_line end_line : str) :
  Forall (fun l => flat_line env_name l = true) body ->
  closing_line env_name end_line = true ->
  let lines := pre ++ begin_line :: body ++ end_line :: post in
  let start := List.length pre in
  let node := _parse_environment start env_name lines in
  content node = CStr (join nl body)
  /\ attributes node = env_attrs (start + 1 + List.length body) env_name
  /\ next_line node start = start + List.length body + 2.
Proof.
  intros Hb He lines start node.
  assert (Hs : scan_env env_name (skipn (S start) lines) (S start) 1 []
               = (Some (start + 1 + List.length body), body)).
  { subst lines start. rewrite skipn_app_cons.
    rewrite scan_env_flat by assumption.
    rewrite scan_env_closing by assumption.
    cbn. f_equal. f_equal. lia. }
  destruct (parse_environment_scan _ _ _ Hs) as [H1 H2].
  subst node. split; [exact H1|]. split; [exact H2|].
  unfold next_line. rewrite H2. cbn. lia.
Qed.

(** X5. When the lines after a [\begin] neither open an environment nor
    close this one, up to a line that closes it, the environment node holds
    exactly these lines as its content, its end line is the index of the
    closing line, and the main scan resumes on the line after it. *)
Theorem parse_environment_closed :
  forall (env_name : str) (pre body post : list str) (begin_line end_line : str),
    Forall (fun l => flat_line env_name l = true) body ->
    closing_line env_name end_line = true ->
    let lines := pre ++ begin_line :: body ++ end_line :: post in
    let start := List.length pre in
    let node := _parse_environment start env_name lines in
    content node = CStr (join nl body)
    /\ attributes node = env_attrs (start + 1 + List.length body) env_name
    /\ next_line node start = start + List.length body + 2.
Proof.
  intros env_name pre body post begin_line end_line Hb He.
  apply parse_environment_flat; assumption.
Qed.

Lemma parse_environment_closed_witness :
  let lines :=
    [lit "x"] ++ lit "\begin{quote}"
    :: [lit "a"; lit "\end{other}"] ++ lit "\end{quote}" :: [lit "y"] in
  let node := _parse_environment 1 (lit "quote") lines in
  content node = CStr (join nl [lit "a"; lit "\end{other}"])
  /\ attributes node = env_attrs (1 + 1 + 2) (lit "quote")
  /\ next_line node 1 = 1 + 2 + 2.
Proof.
  apply (@parse_environment_closed (lit "quote") [lit "x"]
           [lit "a"; lit "\end{other}"] [lit "y"]
           (lit "\begin{quote}") (lit "\end{quote}")).
  - repeat constructor.
  - reflexivity.
Defined.

(** X6. Every nested [\begin] line, whatever environment it names, asks for
    one more closing line.  With one nested [\begin] and a single closing
    line after it, the environment is not closed: the whole remainder is its
    content and the recorded end line is [start + 1].  With a second closing
    line it is closed there, and the lines between, the first closing line
    included, are its content. *)
Theorem parse_environment_nested :
  forall (env_name : str) (pre a b c post : list str)
         (begin_line inner end1 end2 : str),
    Forall (fun l => flat_line env_name l = true) a ->
    begins_env inner = true ->
    Forall (fun l => flat_line env_name l = true) b ->
    closing_line env_name end1 = true ->
    Forall (fun l => flat_line env_name l = true) c ->
    closing_line env_name end2 = true ->
    let start := List.length pre in
    (let node :=
       _parse_environment start env_name
         (pre ++ begin_line :: a ++ inner :: b ++ end1 :: c) in
     content node = CStr (join nl (a ++ inner :: b ++ end1 :: c))
     /\ attributes node = env_attrs (start + 1) env_name)
    /\ (let node :=
          _parse_environment start env_name
            (pre ++ begin_line :: a ++ inner :: b ++ end1 :: c ++ end2 :: post) in
        content node = CStr (join nl (a ++ inner :: b ++ end1 :: c))
        /\ attributes node
           = env_attrs (start + List.length a + List.length b
                        + List.length c + 3) env_name).
Proof.
  intros env_name pre a b c post begin_line inner end1 end2
         Ha Hi Hb He1 Hc He2 start.
  assert (Hcommon : forall rest i acc,
             scan_env env_name (a ++ inner :: b ++ end1 :: c ++ rest) i 1 acc
             = scan_env env_name rest
                 (i + List.length a + List.length b + List.length c + 2) 1
                 (acc ++ a ++ inner :: b ++ end1 :: c)).
  { intros rest i acc.
    rewrite scan_env_flat by assumption.
    rewrite scan_env_begin by assumption.
    rewrite scan_env_flat by assumption.
    rewrite scan_env_closing by assumption.
    change (1 + 1 - 1)%Z with 1%Z. change (1 =? 0)%Z with false. cbv iota.
    rewrite scan_env_flat by assumption.
    repeat rewrite <- app_assoc. cbn [app].
    f_equal. lia. }
  split.
  - intro node. subst node start.
    apply parse_environment_scan with (found := None).
    rewrite skipn_app_cons.
    pose proof (Hcommon [] (S (List.length pre)) []) as H.
    rewrite app_nil_r in H. rewrite H. reflexivity.
  - intro node. subst node start.
    apply (@parse_environment_scan env_name (List.length pre) _
             (Some (List.length pre + List.length a + List.length b
                    + List.length c + 3))).
    rewrite skipn_app_cons, Hcommon.
    rewrite scan_env_closing by assumption. cbn.
    f_equal. f_equal. lia.
Qed.

Lemma parse_environment_nested_witness :
  (let node :=
     _parse_environment 0 (lit "itemize")
       ([] ++ lit "\begin{itemize}"
        :: [lit "\item a"] ++ lit "\begin{quote}"
        :: [lit "q"; lit "\end{quote}"] ++ lit "\end{itemize}" :: [lit "z"]) in
   content node
   = CStr (join nl ([lit "\item a"] ++ lit "\begin{quote}"
                    :: [lit "q"; lit "\end{quote}"] ++ lit "\end{itemize}"
                    :: [lit "z"]))
   /\ attributes node = env_attrs (0 + 1) (lit "itemize"))
  /\ (let node :=
        _parse_environment 0 (lit "itemize")
          ([] ++ lit "\begin{itemize}"
           :: [lit "\item a"] ++ lit "\begin{quote}"
           :: [lit "q"; lit "\end{quote}"] ++ lit "\end{itemize}"
           :: [lit "z"] ++ lit "\end{itemize}" :: [lit "w"]) in
      content node
      = CStr (join nl ([lit "\item a"] ++ lit "\begin{quote}"
                       :: [lit "q"; lit "\end{quote}"] ++ lit "\end{itemize}"
                       :: [lit "z"]))
      /\ attributes node = env_attrs (0 + 1 + 2 + 1 + 3) (lit "itemize")).
Proof.
  apply (@parse_environment_nested (lit "itemize") []
           [lit "\item a"] [lit "q"; lit "\end{quote}"] [lit "z"] [lit "w"]
           (lit "\begin{itemize}") (lit "\begin{quote}")
           (lit "\end{itemize}") (lit "\end{itemize}"));
    repeat constructor.
Defined.

(** ** Further properties: closed environments, end to end *)

Section ClosedEnvironment.

Lemma parse_environment_node (env_name : str) (start : nat)
    (lines : list str) (found : option nat) (body : list str) :
  scan_env env_name (skipn (S start) lines) (S start) 1 [] = (found, body) ->
  _parse_environment start env_name lines
  = Node (env_kind env_name) (CStr (join nl body))
      (env_children env_name (join nl body))
      (env_attrs (match found with Some j => j | None => start + 1 end)
                 env_name).
Proof.
  intro H. unfold _parse_environment, env_kind, env_children. rewrite H.
  destruct (is_list_env env_name); [|destruct (is_table_env env_name)];
    reflexivity.
Qed.

Lemma parse_loop_done (fuel : nat) (lines : list str) (i : nat)
    (acc : list ASTNode) :
  List.length lines <= i -> parse_loop (S fuel) lines i acc = Some acc.
Proof.
  intro H. cbn [parse_loop].
  destruct (Nat.ltb_spec i (List.length lines)); [lia|reflexivity].
Qed.

Lemma env_name_ok_spec (env_name : str) :
  env_name_ok env_name = true ->
  env_name <> [] /\ lacks c_rbrace env_name
  /\ lacks c_backslash env_name /\ lacks c_nl env_name.
Proof.
  unfold env_name_ok. intro H.
  apply andb_true_iff in H. destruct H as [H H4].
  apply andb_true_iff in H. destruct H as [H H3].
  apply andb_true_iff in H. destruct H as [H1 H2].
  apply negb_true_iff in H2, H3, H4.
  repeat split; try (apply lacks_contains; assumption).
  destruct env_name; [discriminate|discriminate].
Qed.

(** The tail of a command line [\cmd{name}] has no backslash. *)
Lemma command_tail_lacks (cmd env_name : str) (c : char) :
  lacks c cmd -> lacks c env_name -> c <> c_lbrace -> c <> c_rbrace ->
  lacks c ((cmd ++ c_lbrace :: env_name) ++ [c_rbrace]).
Proof.
  intros H1 H2 H3 H4. apply lacks_app. split.
  - apply lacks_app. split; [exact H1|].
    constructor; [congruence|exact H2].
  - repeat constructor. congruence.
Qed.

(** The closing line of the environment is a closing line. *)
Lemma end_line_closing (env_name : str) :
  env_name_ok env_name = true ->
  closing_line env_name (end_line_of env_name) = true.
Proof.
  intro H. apply env_name_ok_spec in H. destruct H as [Hne [Hr [Hb Hn]]].
  unfold closing_line, begins_env, ends_env, end_line_of.
  change (lit "\end{" ++ env_name ++ lit "}")
    with (c_backslash :: (lit "end" ++ c_lbrace :: env_name) ++ [c_rbrace]).
  rewrite (@search_skip _ p_begin_env c_backslash _ _
             (@cmd_braced_needs (lit "begin")));
    [|reflexivity
     |apply command_tail_lacks;
      [repeat constructor; discriminate|exact Hb|discriminate|discriminate]].
  assert (Hs : search p_end_env
                 (c_backslash
                  :: (lit "end" ++ c_lbrace :: env_name) ++ [c_rbrace])
               = Some (0, 4 + 0 + 1 + List.length env_name + 1, env_name)).
  { apply search_here.
    exact (cmd_braced_at (lit "\end") [] None Hne Hr). }
  rewrite Hs. cbn [negb andb].
  apply str_eqb_eq. reflexivity.
Qed.

(** The loop of [parse] on lines whose first opens an environment that
    takes all the lines. *)
Lemma parse_loop_env_first (b env_name : str) (rest : list str) (x y : nat) :
  strip b = b ->
  nonempty b = true ->
  search p_section b = None ->
  search p_subsection b = None ->
  search p_subsubsection b = None ->
  search p_begin_env b = Some (x, y, env_name) ->
  next_line (_parse_environment 0 env_name (b :: rest)) 0
  = S (List.length rest) ->
  parse_loop (S (S (List.length rest))) (b :: rest) 0 []
  = Some [_parse_environment 0 env_name (b :: rest)].
Proof.
  intros Hs Hn H1 H2 H3 H4 Hnext.
  cbn [parse_loop List.length Nat.ltb Nat.leb nth].
  rewrite Hs, Hn. cbn [negb]. rewrite H1, H2, H3, H4, Hnext.
  cbn [app].
  destruct (Nat.leb_spec (S (List.length rest)) (List.length rest));
    [lia|reflexivity].
Qed.

Lemma begin_line_form (env_name : str) :
  begin_line env_name
  = c_backslash :: (lit "begin" ++ c_lbrace :: env_name) ++ [c_rbrace].
Proof. reflexivity. Qed.

Lemma end_line_form (env_name : str) :
  end_line_of env_name
  = c_backslash :: (lit "end" ++ c_lbrace :: env_name) ++ [c_rbrace].
Proof. reflexivity. Qed.

(** A text that is one closed environment with a flat body parses to one
    node, the node of the environment. *)
Lemma parse_closed_env (env_name : str) (body : list str) :
  env_name_ok env_name = true ->
  Forall (lacks c_nl) body ->
  Forall (fun l => flat_line env_name l = true) body ->
  parse (env_text env_name body)
  = Some (Node DOCUMENT CNone
            [Node (env_kind env_name) (CStr (join nl body))
               (env_children env_name (join nl body))
               (env_attrs (S (List.length body)) env_name)] []).
Proof.
  intros Hok Hnl Hflat.
  pose proof (end_line_closing env_name Hok) as Hclose.
  apply env_name_ok_spec in Hok. destruct Hok as [Hne [Hr [Hb Hn]]].
  assert (Htail : forall cmd c,
             lacks c cmd -> lacks c env_name -> c <> c_lbrace ->
             c <> c_rbrace -> c <> c_backslash ->
             lacks c (c_backslash :: (cmd ++ c_lbrace :: env_name) ++ [c_rbrace])).
  { intros cmd c Hc1 Hc2 Hc3 Hc4 Hc5. constructor; [congruence|].
    apply command_tail_lacks; assumption. }
  unfold parse, env_text, unlines.
  assert (Hsplit : split c_nl
                     (join nl (begin_line env_name
                               :: body ++ [end_line_of env_name]))
                   = begin_line env_name :: body ++ [end_line_of env_name]).
  { apply split_join; [discriminate|]. constructor.
    - rewrite begin_line_form. apply Htail; try discriminate; try assumption.
      repeat constructor; discriminate.
    - apply Forall_app. split; [exact Hnl|]. constructor; [|constructor].
      rewrite end_line_form. apply Htail; try discriminate; try assumption.
      repeat constructor; discriminate. }
  rewrite Hsplit.
  assert (Hscan : scan_env env_name
                    (skipn 1 (begin_line env_name
                              :: body ++ [end_line_of env_name])) 1 1 []
                  = (Some (S (List.length body)), body)).
  { cbn [skipn].
    rewrite scan_env_flat by assumption.
    rewrite scan_env_closing by assumption. reflexivity. }
  pose proof (parse_environment_node env_name 0 _ Hscan) as Hnode.
  assert (Hb' : lacks c_backslash
                  ((lit "begin" ++ c_lbrace :: env_name) ++ [c_rbrace])).
  { apply command_tail_lacks;
      [repeat constructor; discriminate|exact Hb|discriminate|discriminate]. }
  cbn [List.length].
  rewrite (@parse_loop_env_first (begin_line env_name) env_name
             (body ++ [end_line_of env_name])
             0 (6 + 0 + 1 + List.length env_name + 1)).
  - rewrite Hnode. reflexivity.
  - rewrite begin_line_form. apply strip_command_line.
  - reflexivity.
  - rewrite begin_line_form.
    apply (@search_skip _ p_section c_backslash _ _
             (@cmd_braced_needs (lit "section"))); [reflexivity|exact Hb'].
  - rewrite begin_line_form.
    apply (@search_skip _ p_subsection c_backslash _ _
             (@cmd_braced_needs (lit "subsection"))); [reflexivity|exact Hb'].
  - rewrite begin_line_form.
    apply (@search_skip _ p_subsubsection c_backslash _ _
             (@cmd_braced_needs (lit "subsubsection")));
      [reflexivity|exact Hb'].
  - apply search_here.
    exact (cmd_braced_at (lit "\begin") [] None Hne Hr).
  - rewrite Hnode. unfold next_line. cbn.
    rewrite length_app. simpl. lia.
Qed.

End ClosedEnvironment.

Section ClosedEnvironmentRendering.

Lemma env_text_lacks_percent (env_name : str) (body : list str) :
  lacks c_percent env_name ->
  Forall (lacks c_percent) body ->
  lacks c_percent (env_text env_name body).
Proof.
  intros Hn Hb. unfold env_text, unlines.
  apply lacks_join; [repeat constructor; discriminate|].
  constructor.
  - rewrite begin_line_form. constructor; [discriminate|].
    apply command_tail_lacks;
      [repeat constructor; discriminate|exact Hn|discriminate|discriminate].
  - apply Forall_app. split; [exact Hb|]. constructor; [|constructor].
    rewrite end_line_form. constructor; [discriminate|].
    apply command_tail_lacks;
      [repeat constructor; discriminate|exact Hn|discriminate|discriminate].
Qed.

(** Without a percent sign the default conversion is the parse followed by
    the rendering. *)
Lemma convert_default_no_comment (text : str) :
  lacks c_percent text ->
  convert_default text = bind (parse text) (NotionConverter.convert 0).
Proof.
  intro H. unfold convert_default, convert. cbn [negb].
  rewrite (strip_comments_lacks H). reflexivity.
Qed.

End ClosedEnvironmentRendering.

(** X7. A closed [quote] environment whose body lines open no environment
    and do not close this one renders as one callout line: the marker
    followed by the body, stripped at both ends and otherwise verbatim (no
    inline construct of the body is converted). *)
Theorem convert_quote_environment :
  forall body : list str,
    Forall (lacks c_nl) body ->
    Forall (lacks c_percent) body ->
    Forall (fun l => flat_line (lit "quote") l = true) body ->
    parse (env_text (lit "quote") body)
    = Some (Node DOCUMENT CNone
              [Node QUOTE (CStr (join nl body)) []
                 (env_attrs (S (List.length body)) (lit "quote"))] [])
    /\ convert_default (env_text (lit "quote") body)
       = Some (BlockHandler.quote_marker ++ strip (join nl body)).
Proof.
  intros body Hnl Hpc Hflat.
  pose proof (@parse_closed_env (lit "quote") body eq_refl Hnl Hflat) as H.
  split; [exact H|].
  rewrite convert_default_no_comment
    by (apply env_text_lacks_percent;
        [repeat constructor; discriminate|exact Hpc]).
  rewrite H. reflexivity.
Qed.

Lemma convert_quote_environment_witness :
  parse (env_text (lit "quote") [lit "  A $x$"; lit "B  "])
  = Some (Node DOCUMENT CNone
            [Node QUOTE (CStr (join nl [lit "  A $x$"; lit "B  "])) []
               (env_attrs (S (List.length [lit "  A $x$"; lit "B  "]))
                          (lit "quote"))] [])
  /\ convert_default (env_text (lit "quote") [lit "  A $x$"; lit "B  "])
     = Some (BlockHandler.quote_marker
             ++ strip (join nl [lit "  A $x$"; lit "B  "])).
Proof.
  apply (@convert_quote_environment [lit "  A $x$"; lit "B  "]);
    repeat constructor; discriminate.
Defined.

(** X8. A closed [verbatim] or [lstlisting] environment with such a body
    renders as a fenced code block without a language tag; the body is
    stripped at both ends, so the indentation of its first line is lost. *)
Theorem convert_code_environment :
  forall (env_name : str) (body : list str),
    env_name = lit "verbatim" \/ env_name = lit "lstlisting" ->
    Forall (lacks c_nl) body ->
    Forall (lacks c_percent) body ->
    Forall (fun l => flat_line env_name l = true) body ->
    convert_default (env_text env_name body)
    = Some (lit "```" ++ nl ++ strip (join nl body) ++ nl ++ lit "```").
Proof.
  intros env_name body Hname Hnl Hpc Hflat.
  assert (Hok : env_name_ok env_name = true)
    by (destruct Hname; subst; reflexivity).
  pose proof (@parse_closed_env env_name body Hok Hnl Hflat) as H.
  rewrite convert_default_no_comment
    by (apply env_text_lacks_percent;
        [destruct Hname; subst; repeat constructor; discriminate|exact Hpc]).
  rewrite H. destruct Hname; subst; reflexivity.
Qed.

Lemma convert_code_environment_witness :
  convert_default (env_text (lit "verbatim") [lit "  x = 1"; lit "y = $2$"])
  = Some (lit "```" ++ nl ++ strip (join nl [lit "  x = 1"; lit "y = $2$"])
          ++ nl ++ lit "```").
Proof.
  apply (@convert_code_environment (lit "verbatim")
           [lit "  x = 1"; lit "y = $2$"]);
    [left; reflexivity| | |]; repeat constructor; discriminate.
Defined.



(** ** Further properties: lists, end to end *)

Section Lists.

Lemma skip_ws_lstrip (s : str) : snd (skip_ws s) = lstrip s.
Proof.
  induction s as [|x s IH]; [reflexivity|].
  simpl. destruct (isspace x); [|reflexivity].
  destruct (skip_ws s). exact IH.
Qed.

Lemma span_not_lacks (c : char) (s : str) : lacks c s -> span_not c s = (s, []).
Proof.
  induction 1 as [|x s Hx _ IH]; [reflexivity|].
  simpl. destruct (ceq x c) eqn:E; [apply ceq_eq in E; contradiction|].
  rewrite IH. reflexivity.
Qed.

Lemma strip_lstrip (s : str) : strip (lstrip s) = strip s.
Proof. unfold strip. rewrite lstrip_lstrip. reflexivity. Qed.

Lemma plain_item_spec (t : str) :
  plain_item t = true ->
  lacks c_backslash t /\ lacks c_dollar t /\ lacks c_percent t
  /\ lacks c_nl t /\ nonempty (strip t) = true.
Proof.
  unfold plain_item. intro H.
  apply andb_true_iff in H. destruct H as [H H3].
  apply andb_true_iff in H. destruct H as [H1 H2].
  apply plain_lacks in H1. destruct H1 as [Hb [Hd Hp]].
  apply negb_true_iff, lacks_contains in H2. tauto.
Qed.

(** The marker pattern on an item line: the group is the text without its
    leading whitespace. *)
Lemma search_item_line (t : str) :
  lacks c_nl t ->
  exists n, search p_item (item_line t) = Some (0, n, lstrip t).
Proof.
  intro H. unfold item_line.
  change (lit "\item " ++ t) with (lit "\item" ++ c_space :: t).
  assert (Hm : exists n, item_m None (lit "\item" ++ c_space :: t)
                         = Some (n, lstrip t)).
  { unfold item_m. rewrite strip_prefix_app.
    pose proof (skip_ws_lstrip (c_space :: t)) as Hw.
    destruct (skip_ws (c_space :: t)) as [w r2]. cbn [snd] in Hw. subst r2.
    change (lstrip (c_space :: t)) with (lstrip t).
    rewrite (span_not_lacks (Forall_lstrip H)). eauto. }
  destruct Hm as [n Hn]. exists n. apply search_here. exact Hn.
Qed.

(** An item line opens no environment and closes none. *)
Lemma item_line_flat (env_name t : str) :
  lacks c_backslash t -> flat_line env_name (item_line t) = true.
Proof.
  intro H. unfold flat_line, begins_env, ends_env, item_line.
  change (lit "\item " ++ t) with (c_backslash :: lit "item " ++ t).
  assert (Hl : lacks c_backslash (lit "item " ++ t)).
  { apply lacks_app. split; [repeat constructor; discriminate|exact H]. }
  rewrite (@search_skip _ p_begin_env c_backslash _ _
             (@cmd_braced_needs (lit "begin"))) by (reflexivity || exact Hl).
  rewrite (@search_skip _ p_end_env c_backslash _ _
             (@cmd_braced_needs (lit "end"))) by (reflexivity || exact Hl).
  reflexivity.
Qed.

(** Saving a collected item of one plain line. *)
Lemma save_plain_item (t : str) (items : list ASTNode) :
  plain_item t = true ->
  save_item (Some [strip t]) items = items ++ [text_item (strip t)].
Proof.
  intro H. apply plain_item_spec in H.
  destruct H as [Hb [Hd [_ [_ Hs]]]].
  unfold save_item. cbn [join]. rewrite strip_strip, Hs.
  rewrite parse_paragraph_no_match.
  - reflexivity.
  - apply find_elements_plain; apply Forall_strip; assumption.
  - rewrite strip_strip. exact Hs.
Qed.

Lemma item_step_plain (t : str) (items : list ASTNode)
    (cur : option (list str)) :
  plain_item t = true ->
  item_step (items, cur) (item_line t)
  = (save_item cur items, Some [strip t]).
Proof.
  intro H. apply plain_item_spec in H.
  destruct H as [_ [_ [_ [Hn Hs]]]].
  unfold item_step. destruct (search_item_line Hn) as [n Hsearch].
  rewrite Hsearch, strip_lstrip, Hs. reflexivity.
Qed.

Lemma item_loop_plain (ts : list str) :
  Forall (fun t => plain_item t = true) ts ->
  forall (items : list ASTNode) (cur : option (list str)),
    (let (items', cur') :=
       fold_left item_step (map item_line ts) (items, cur) in
     save_item cur' items')
    = save_item cur items ++ map (fun t => text_item (strip t)) ts.
Proof.
  induction 1 as [|t ts Ht _ IH]; intros items cur.
  - simpl. rewrite app_nil_r. reflexivity.
  - cbn [map fold_left]. rewrite (@item_step_plain t items cur Ht), IH.
    rewrite (@save_plain_item t _ Ht), <- app_assoc. reflexivity.
Qed.

Lemma item_line_lacks_nl (t : str) : lacks c_nl t -> lacks c_nl (item_line t).
Proof.
  intro H. unfold item_line. apply lacks_app.
  split; [repeat constructor; discriminate|exact H].
Qed.

(** The items of a body of plain item lines. *)
Lemma parse_list_items_plain (ts : list str) :
  Forall (fun t => plain_item t = true) ts ->
  _parse_list_items (join nl (map item_line ts))
  = map (fun t => text_item (strip t)) ts.
Proof.
  intro H. unfold _parse_list_items.
  destruct ts as [|t ts]; [reflexivity|].
  rewrite split_join.
  - apply (item_loop_plain H [] (Some [])).
  - discriminate.
  - apply Forall_map. eapply Forall_impl; [|exact H].
    intros a Ha. apply item_line_lacks_nl.
    apply plain_item_spec in Ha. tauto.
Qed.

Lemma concat_map_singleton {A B} (f : A -> B) (l : list A) :
  List.concat (map (fun a => [f a]) l) = map f l.
Proof. induction l as [|a l IH]; [reflexivity|]. simpl. rewrite IH. reflexivity. Qed.

Lemma traverse_text_items (indent marker : str) (l : list str) :
  traverse
    (fun item_node : ASTNode =>
       match node_type item_node with
       | LIST_ITEM =>
           item_text <- ListHandler._process_item_content item_node ;;
           Some [indent ++ marker ++ item_text]
       | _ => Some []
       end)
    (map text_item l)
  = Some (map (fun s => [indent ++ marker ++ s]) l).
Proof.
  induction l as [|x l IH]; [reflexivity|].
  cbn [map traverse]. rewrite IH.
  cbn. rewrite app_nil_r. reflexivity.
Qed.

(** The list renderer on items of one text node each. *)
Lemma list_convert_text_items (t : NodeType) (c : Content)
    (a : list (string * AttrVal)) (ss : list str) (level : nat) :
  ListHandler.convert (Node t c (map text_item ss) a) level
  = Some (join nl
            (map (fun s =>
                    List.concat (repeat (lit "  ") level)
                    ++ (if NodeType_eqb t LIST_ENUMERATE
                        then lit "1. " else lit "- ") ++ s) ss)).
Proof.
  unfold ListHandler.convert. cbn [children node_type].
  destruct ss as [|s ss]; [reflexivity|]. cbn [map]. cbv zeta.
  match goal with
  | |- bind ?x _ = _ =>
      assert (Hx : x = Some (map (fun s0 =>
                                    [List.concat (repeat (lit "  ") level)
                                     ++ (if NodeType_eqb t LIST_ENUMERATE
                                         then lit "1. " else lit "- ") ++ s0])
                                 (s :: ss)))
        by exact (traverse_text_items
                    (List.concat (repeat (lit "  ") level))
                    (if NodeType_eqb t LIST_ENUMERATE
                     then lit "1. " else lit "- ")
                    (s :: ss));
      rewrite Hx
  end.
  cbn [bind]. rewrite concat_map_singleton. reflexivity.
Qed.

Lemma join_single_block (sep b : str) : join sep (filter nonempty [b]) = b.
Proof. destruct b; reflexivity. Qed.

End Lists.

(** X10. A closed [itemize] environment whose lines are markers followed by
    plain one-line texts renders one line per item, a dash and the trimmed
    text; with [enumerate] every line has the marker [1.], whatever its
    position. *)
Theorem convert_plain_list :
  forall items : list str,
    Forall (fun t => plain_item t = true) items ->
    convert_default (env_text (lit "itemize") (map item_line items))
    = Some (join nl (map (fun t => lit "- " ++ strip t) items))
    /\ convert_default (env_text (lit "enumerate") (map item_line items))
       = Some (join nl (map (fun t => lit "1. " ++ strip t) items)).
Proof.
  intros items H.
  assert (Hnl : Forall (lacks c_nl) (map item_line items)).
  { apply Forall_map. eapply Forall_impl; [|exact H].
    intros a Ha. apply item_line_lacks_nl.
    apply plain_item_spec in Ha. tauto. }
  assert (Hpc : Forall (lacks c_percent) (map item_line items)).
  { apply Forall_map. eapply Forall_impl; [|exact H].
    intros a Ha. apply plain_item_spec in Ha. unfold item_line.
    apply lacks_app. split; [repeat constructor; discriminate|tauto]. }
  assert (Hflat : forall env_name,
             Forall (fun l => flat_line env_name l = true)
                    (map item_line items)).
  { intro env_name. apply Forall_map. eapply Forall_impl; [|exact H].
    intros a Ha. apply item_line_flat.
    apply plain_item_spec in Ha. tauto. }
  split.
  - rewrite convert_default_no_comment
      by (apply env_text_lacks_percent;
          [repeat constructor; discriminate|exact Hpc]).
    rewrite (@parse_closed_env (lit "itemize") _ eq_refl Hnl (Hflat _)).
    change (env_kind (lit "itemize")) with LIST_ITEMIZE.
    change (env_children (lit "itemize") ?b) with (_parse_list_items b).
    rewrite (parse_list_items_plain H), <- (map_map strip text_item).
    cbn [bind]. unfold NotionConverter.convert, NotionConverter.blocks_of.
    cbn [node_type NodeType_eqb negb children traverse].
    unfold NotionConverter._convert_node.
    cbn [BlockHandler.is_heading ListHandler.is_list_node node_type].
    rewrite list_convert_text_items. cbn [bind].
    rewrite join_single_block, map_map. reflexivity.
  - rewrite convert_default_no_comment
      by (apply env_text_lacks_percent;
          [repeat constructor; discriminate|exact Hpc]).
    rewrite (@parse_closed_env (lit "enumerate") _ eq_refl Hnl (Hflat _)).
    change (env_kind (lit "enumerate")) with LIST_ENUMERATE.
    change (env_children (lit "enumerate") ?b) with (_parse_list_items b).
    rewrite (parse_list_items_plain H), <- (map_map strip text_item).
    cbn [bind]. unfold NotionConverter.convert, NotionConverter.blocks_of.
    cbn [node_type NodeType_eqb negb children traverse].
    unfold NotionConverter._convert_node.
    cbn [BlockHandler.is_heading ListHandler.is_list_node node_type].
    rewrite list_convert_text_items. cbn [bind].
    rewrite join_single_block, map_map. reflexivity.
Qed.

Lemma convert_plain_list_witness :
  convert_default
    (env_text (lit "itemize") (map item_line [lit "First "; lit "Second"]))
  = Some (join nl (map (fun t => lit "- " ++ strip t)
                       [lit "First "; lit "Second"]))
  /\ convert_default
       (env_text (lit "enumerate") (map item_line [lit "First "; lit "Second"]))
     = Some (join nl (map (fun t => lit "1. " ++ strip t)
                          [lit "First "; lit "Second"])).
Proof.
  apply (@convert_plain_list [lit "First "; lit "Second"]).
  repeat constructor.
Defined.

(** ** Further properties: headings *)

Section HeadingRendering.

Lemma lstrip_app_nonspace (pre : str) (x : char) (r : str) :
  isspace x = false -> lstrip (pre ++ x :: r) = lstrip pre ++ x :: r.
Proof.
  intro H. rewrite lstrip_app, (@lstrip_head x r H).
  destruct (lstrip pre); reflexivity.
Qed.

Lemma rstrip_app_nonspace (a : str) (y : char) (post : str) :
  isspace y = false -> rstrip (a ++ y :: post) = a ++ y :: rstrip post.
Proof.
  intro H. unfold rstrip.
  assert (E : rev (a ++ y :: post) = rev post ++ y :: rev a).
  { rewrite rev_app_distr. simpl. rewrite <- app_assoc. reflexivity. }
  rewrite E, (@lstrip_app_nonspace (rev post) y (rev a) H).
  rewrite rev_app_distr. simpl. rewrite rev_involutive, <- app_assoc.
  reflexivity.
Qed.

(** The leftmost match after a prefix that cannot start one. *)
Lemma search_from_after_prefix {G} (m : matcher G) (trigger : char)
    (pre s : str) (n : nat) (g : G) :
  (forall prev s', m prev s' <> None -> exists r, s' = trigger :: r) ->
  lacks trigger pre ->
  (forall prev, m prev s = Some (n, g)) ->
  forall prev pos,
    search_from m prev pos (pre ++ s)
    = Some (pos + List.length pre, pos + List.length pre + n, g).
Proof.
  intros Hm Hpre Hs. induction Hpre as [|x pre Hx _ IH]; intros prev pos.
  - cbn [app List.length]. rewrite Nat.add_0_r.
    destruct s; simpl; rewrite Hs; reflexivity.
  - cbn [app search_from].
    destruct (m prev (x :: pre ++ s)) as [[n' g']|] eqn:E.
    + destruct (Hm prev (x :: pre ++ s)) as [r Hr]; [congruence|].
      inversion Hr. congruence.
    + rewrite IH. cbn [List.length]. do 3 f_equal; lia.
Qed.

End HeadingRendering.

(** X11. The line of a heading node with a title: without offset it is the
    marker of the kind, a space and the title as captured; with an offset
    other than 0 it is the marker of the clamped level, a space and the
    title without its leading whitespace.  Only the path with an offset
    strips the title. *)
Theorem convert_heading_line :
  forall (t : NodeType) (title : str) (ch : list ASTNode)
         (a : list (string * AttrVal)) (offset : Z),
    heading_kind t = true ->
    NotionConverter._convert_node offset (Node t (CStr title) ch a)
    = Some (if (offset =? 0)%Z
            then repeat c_hash (Z.to_nat (source_level t)) ++ c_space :: title
            else repeat c_hash (Z.to_nat (clamp_level (source_level t) offset))
                 ++ c_space :: lstrip title).
Proof.
  intros t title ch a offset Ht.
  unfold NotionConverter._convert_node.
  destruct t; try discriminate Ht; cbn [BlockHandler.is_heading node_type
    BlockHandler.convert_heading content fmt bind source_level];
    destruct (offset =? 0)%Z; reflexivity.
Qed.

Lemma convert_heading_line_witness :
  NotionConverter._convert_node 1 (Node SECTION (CStr (lit "  Intro")) [] [])
  = Some (if (1 =? 0)%Z
          then repeat c_hash (Z.to_nat (source_level SECTION))
               ++ c_space :: lit "  Intro"
          else repeat c_hash (Z.to_nat (clamp_level (source_level SECTION) 1))
               ++ c_space :: lstrip (lit "  Intro")).
Proof.
  apply (@convert_heading_line SECTION (lit "  Intro") [] [] 1). reflexivity.
Defined.

(** X12. A [\section] command with a title makes its whole line a heading:
    the text before it on the line (without a backslash) and all the text
    after it are left out of the tree. *)
Theorem parse_section_discards_line :
  forall pre title post : str,
    lacks c_backslash pre ->
    lacks c_nl pre -> lacks c_nl title -> lacks c_nl post ->
    title <> [] ->
    lacks c_rbrace title ->
    parse (pre ++ lit "\section{" ++ title ++ lit "}" ++ post)
    = Some (Node DOCUMENT CNone [leaf SECTION (CStr title)] []).
Proof.
  intros pre title post Hb Hn1 Hn2 Hn3 Hne Hr.
  set (text := pre ++ lit "\section{" ++ title ++ lit "}" ++ post).
  assert (Hform : text
                  = pre ++ c_backslash
                    :: (lit "section{" ++ title) ++ c_rbrace :: post).
  { reflexivity. }
  assert (Hl : lacks c_nl text).
  { rewrite Hform. apply lacks_app. split; [exact Hn1|].
    constructor; [discriminate|]. apply lacks_app. split.
    - apply lacks_app. split; [repeat constructor; discriminate|exact Hn2].
    - constructor; [discriminate|exact Hn3]. }
  assert (Hstrip : strip text
                   = lstrip pre ++ lit "\section"
                     ++ c_lbrace :: title ++ c_rbrace :: rstrip post).
  { rewrite Hform. unfold strip.
    rewrite lstrip_app_nonspace by reflexivity.
    replace (lstrip pre ++ c_backslash
             :: (lit "section{" ++ title) ++ c_rbrace :: post)
      with ((lstrip pre ++ c_backslash :: lit "section{" ++ title)
            ++ c_rbrace :: post)
      by (rewrite <- app_assoc; reflexivity).
    rewrite rstrip_app_nonspace by reflexivity.
    rewrite <- app_assoc. reflexivity. }
  assert (Hsearch : exists x y, search p_section (strip text)
                                = Some (x, y, title)).
  { rewrite Hstrip. do 2 eexists.
    apply (@search_from_after_prefix _ p_section c_backslash).
    - exact (@cmd_braced_needs (lit "section")).
    - apply Forall_lstrip. exact Hb.
    - intro prev. exact (cmd_braced_at (lit "\section") _ prev Hne Hr). }
  destruct Hsearch as [x [y Hsearch]].
  unfold parse. rewrite (split_lacks_id Hl).
  cbn [parse_loop List.length Nat.ltb Nat.leb nth].
  rewrite Hsearch.
  replace (nonempty (strip text)) with true; [reflexivity|].
  rewrite Hstrip. destruct (lstrip pre); reflexivity.
Qed.

Lemma parse_section_discards_line_witness :
  parse (lit "See " ++ lit "\section{" ++ lit "A" ++ lit "}" ++ lit " and $x$")
  = Some (Node DOCUMENT CNone [leaf SECTION (CStr (lit "A"))] []).
Proof.
  apply (@parse_section_discards_line (lit "See ") (lit "A") (lit " and $x$"));
    try discriminate; repeat constructor; discriminate.
Defined.

(** ** Further properties: the inline handler *)

Section InlineRendering.



End InlineRendering.



Example link_without_url :
  InlineHandler.convert (Node LINK (CStr (lit "here")) [] [])
  = Some (lit "[here]()").
Proof. reflexivity. Qed.

(** ** Further properties: tables *)

Section TableRows.

Lemma escaped_cell_pipes (cell rest : str) :
  forall b : bool,
    unescaped_pipes_from b
      (replace c_pipe (lit "\|") cell ++ c_space :: rest)
    = unescaped_pipes_from false rest.
Proof.
  induction cell as [|x cell IH]; intro b.
  - reflexivity.
  - cbn [replace]. destruct (ceq x c_pipe) eqn:E.
    + change (lit "\|" ++ ?r) with (c_backslash :: c_pipe :: r).
      cbn [app unescaped_pipes_from].
      change (ceq c_backslash c_pipe) with false.
      change (ceq c_backslash c_backslash) with true.
      change (ceq c_pipe c_pipe) with true.
      change (ceq c_pipe c_backslash) with false.
      cbn [andb negb Nat.add]. apply IH.
    + cbn [app unescaped_pipes_from]. rewrite E. cbn [andb Nat.add]. apply IH.
Qed.

Lemma joined_cells_pipes (cells : list str) :
  cells <> [] ->
  unescaped_pipes_from false
    (join (lit " | ") (map (replace c_pipe (lit "\|")) cells) ++ lit " |")
  = List.length cells.
Proof.
  induction cells as [|c cs IH]; [congruence|]. intros _.
  destruct cs as [|c' cs].
  - cbn [map join]. change (lit " |") with (c_space :: [c_pipe]).
    rewrite escaped_cell_pipes. reflexivity.
  - change (map (replace c_pipe (lit "\|")) (c :: c' :: cs))
      with (replace c_pipe (lit "\|") c
            :: map (replace c_pipe (lit "\|")) (c' :: cs)).
    cbn [map]. rewrite join_cons2.
    change (map (replace c_pipe (lit "\|")) (c' :: cs))
      with (replace c_pipe (lit "\|") c'
            :: map (replace c_pipe (lit "\|")) cs) in *.
    rewrite <- !app_assoc.
    change (lit " | " ++ ?r) with (c_space :: c_pipe :: c_space :: r).
    rewrite escaped_cell_pipes.
    cbn [unescaped_pipes_from]. change (ceq c_pipe c_pipe) with true.
    change (ceq c_pipe c_backslash) with false.
    change (ceq c_space c_pipe) with false.
    change (ceq c_space c_backslash) with false.
    cbn [andb negb Nat.add].
    rewrite IH by discriminate. reflexivity.
Qed.

End TableRows.

(** X14. Every row [_parse_table] makes is a leaf with two cells at least,
    each cell trimmed and free of ampersands and newlines (an escaped [\&]
    splits a cell as well). *)
Theorem parse_table_cells :
  forall body : str,
    Forall (fun row =>
              exists cells,
                row = leaf TEXT (CCells cells)
                /\ 2 <= List.length cells
                /\ Forall (fun cell =>
                             strip cell = cell
                             /\ lacks c_amp cell /\ lacks c_nl cell) cells)
           (_parse_table body).
Proof.
  intro body. unfold _parse_table.
  pose proof (split_lacks c_nl body) as H.
  induction H as [|l ls Hl _ IH]; [constructor|].
  cbn [flat_map]. apply Forall_app. split; [|exact IH].
  destruct (is_table_row_line l) eqn:E; [|constructor].
  constructor; [|constructor].
  eexists. split; [reflexivity|]. split.
  - rewrite length_map, split_length.
    unfold is_table_row_line in E. apply andb_true_iff in E.
    destruct E as [E _]. apply count_contains in E. lia.
  - apply Forall_map. apply Forall_forall. intros cell Hc.
    split; [apply strip_strip|]. split.
    + apply Forall_strip.
      exact (proj1 (Forall_forall _ _) (split_lacks c_amp l) _ Hc).
    + apply Forall_strip.
      exact (proj1 (Forall_forall _ _) (Forall_split c_amp Hl) _ Hc).
Qed.

(** X15. In a rendered row every pipe that comes from a cell follows a
    backslash: the pipes that do not follow one are the delimiters, one more
    than there are cells. *)
Theorem render_row_unescaped_pipes :
  forall cells : list str,
    cells <> [] ->
    unescaped_pipes (TableHandler.render_row cells) = S (List.length cells).
Proof.
  intros cells H. unfold unescaped_pipes, TableHandler.render_row.
  change (lit "| " ++ ?r) with (c_pipe :: c_space :: r).
  cbn [unescaped_pipes_from]. change (ceq c_pipe c_pipe) with true.
  change (ceq c_pipe c_backslash) with false.
  change (ceq c_space c_pipe) with false.
  change (ceq c_space c_backslash) with false.
  cbn [andb negb Nat.add].
  rewrite joined_cells_pipes by exact H. reflexivity.
Qed.

Lemma render_row_unescaped_pipes_witness :
  unescaped_pipes (TableHandler.render_row [lit "a|b"; lit "c\"])
  = S (List.length [lit "a|b"; lit "c\"]).
Proof.
  apply (@render_row_unescaped_pipes [lit "a|b"; lit "c\"]). discriminate.
Defined.

(** ** Further properties: the size of the tree *)

Section TreeSize.

Lemma nonblank_skipn_le (lines : list str) :
  forall j k,
    k <= j ->
    List.length (nonblank (skipn j lines))
    <= List.length (nonblank (skipn k lines)).
Proof.
  unfold nonblank. induction lines as [|l ls IH]; intros j k H.
  - rewrite !skipn_nil. lia.
  - destruct k as [|k].
    + destruct j as [|j]; [lia|].
      cbn [skipn]. specialize (IH j 0 (Nat.le_0_l j)). cbn [skipn] in IH.
      cbn [map filter]. destruct (nonempty (strip l)); cbn [List.length]; lia.
    + destruct j as [|j]; [lia|]. cbn [skipn]. apply IH. lia.
Qed.

Lemma parse_loop_size (lines : list str) :
  forall (fuel i : nat) (acc r : list ASTNode),
    parse_loop fuel lines i acc = Some r ->
    List.length r
    <= List.length acc + List.length (nonblank (skipn i lines)).
Proof.
  induction fuel as [|fuel IH]; intros i acc r; [discriminate|].
  cbn [parse_loop].
  destruct (Nat.ltb_spec i (List.length lines)) as [Hi|Hi].
  2: { intro H. inversion H; subst. lia. }
  rewrite (skipn_nth _ Hi). unfold nonblank. cbn [map filter].
  fold (nonblank (skipn (S i) lines)).
  replace (i + 1) with (S i) by lia.
  destruct (nonempty (strip (nth i lines []))) eqn:En; cbn [negb].
  2: { apply IH. }
  cbn [List.length].
  assert (Hstep : forall j x,
             i < j ->
             parse_loop fuel lines j (acc ++ [x]) = Some r ->
             List.length r
             <= List.length acc
                + S (List.length (nonblank (skipn (S i) lines)))).
  { intros j x Hj Hr. apply IH in Hr. rewrite length_app in Hr.
    pose proof (@nonblank_skipn_le lines j (S i) Hj). simpl in Hr. lia. }
  destruct (search p_section _) as [[[? ?] g]|];
    [apply Hstep; lia|].
  destruct (search p_subsection _) as [[[? ?] g]|];
    [apply Hstep; lia|].
  destruct (search p_subsubsection _) as [[[? ?] g]|];
    [apply Hstep; lia|].
  destruct (search p_begin_env _) as [[[? ?] g]|].
  { apply Hstep. apply next_line_gt. }
  destruct (children (_parse_paragraph (strip (nth i lines [])))).
  - intro H. apply IH in H. lia.
  - apply Hstep. lia.
Qed.

End TreeSize.

(** X16. The document has at most one child for each non-blank line of the
    input: every turn of the main loop passes one line at least and appends
    one node at most. *)
Theorem parse_children_bound :
  forall text : str,
    exists doc,
      parse text = Some doc
      /\ List.length (children doc) <= List.length (nonblank_lines text).
Proof.
  intro text. destruct (parse_shape text) as [ch [Hp _]].
  eexists. split; [exact Hp|]. cbn [children].
  unfold parse in Hp.
  destruct (parse_loop (S (List.length (split c_nl text))) (split c_nl text)
              0 []) as [r|] eqn:E; [|discriminate].
  inversion Hp; subst.
  apply parse_loop_size in E. exact E.
Qed.

(** ** Further properties: utils.py *)

Section EscapeMarkdown.

Lemma replace_app (c : char) (by_ a b : str) :
  replace c by_ (a ++ b) = replace c by_ a ++ replace c by_ b.
Proof.
  induction a as [|x a IH]; [reflexivity|].
  simpl. rewrite IH. destruct (ceq x c); [apply app_assoc|reflexivity].
Qed.

Lemma existsb_ceq_In (c : char) (l : list char) :
  existsb (ceq c) l = true <-> In c l.
Proof.
  rewrite existsb_exists. split.
  - intros [x [Hx E]]. apply ceq_eq in E. subst. exact Hx.
  - intro H. exists c. split; [exact H|apply ceq_refl].
Qed.

Lemma replace_escaped (done : list char) (c : char) (text : str) :
  ~ In c done -> c <> c_backslash ->
  replace c [c_backslash; c] (flat_map (escape_among done) text)
  = flat_map (escape_among (done ++ [c])) text.
Proof.
  intros Hc Hb. induction text as [|x text IH]; [reflexivity|].
  cbn [flat_map]. rewrite replace_app, IH. f_equal.
  unfold escape_among. rewrite existsb_app. cbn [existsb].
  destruct (existsb (ceq x) done) eqn:E.
  - apply existsb_ceq_In in E. cbn [orb replace].
    destruct (ceq c_backslash c) eqn:E1;
      [apply ceq_eq in E1; congruence|].
    destruct (ceq x c) eqn:E2; [apply ceq_eq in E2; congruence|].
    reflexivity.
  - cbn [orb replace]. rewrite orb_false_r.
    destruct (ceq x c) eqn:E2; [|reflexivity].
    apply ceq_eq in E2. subst. reflexivity.
Qed.

Lemma fold_escape (todo : list char) :
  forall (done : list char) (text : str),
    NoDup (done ++ todo) -> ~ In c_backslash todo ->
    fold_left (fun result c => replace c [c_backslash; c] result) todo
              (flat_map (escape_among done) text)
    = flat_map (escape_among (done ++ todo)) text.
Proof.
  induction todo as [|c todo IH]; intros done text Hn Hb.
  - rewrite app_nil_r. reflexivity.
  - cbn [fold_left]. rewrite replace_escaped.
    + rewrite IH.
      * rewrite <- app_assoc. reflexivity.
      * rewrite <- app_assoc. exact Hn.
      * intro H. apply Hb. right. exact H.
    + apply NoDup_remove_2 in Hn. intro H. apply Hn.
      apply in_or_app. left. exact H.
    + intro H. apply Hb. left. exact H.
Qed.

Lemma special_chars_ok :
  NoDup Utils.special_chars /\ ~ In c_backslash Utils.special_chars.
Proof.
  split.
  - repeat (constructor;
            [simpl; intro H;
             repeat (destruct H as [H|H]; [discriminate H|]); exact H|]).
    constructor.
  - simpl. intro H. repeat (destruct H as [H|H]; [discriminate H|]). exact H.
Qed.

Lemma flat_map_single (text : str) : flat_map (escape_among []) text = text.
Proof.
  induction text as [|x text IH]; [reflexivity|]. simpl. rewrite IH. reflexivity.
Qed.

(** The loop of replacements is one pass over the text. *)
Lemma escape_markdown_one_pass (text : str) :
  Utils.escape_markdown text = flat_map escape_char text.
Proof.
  unfold Utils.escape_markdown.
  rewrite <- (flat_map_single text) at 1.
  destruct special_chars_ok as [Hn Hb].
  rewrite fold_escape by assumption. reflexivity.
Qed.

End EscapeMarkdown.

(** X17. [escape_markdown] acts as one pass: each of the twelve special
    characters gets one backslash before it and every other character, the
    backslash included, is kept; the replacements of the loop do not touch
    the backslashes that earlier ones put in.  So the length grows by the
    number of special characters. *)
Theorem escape_markdown_spec :
  forall text : str,
    Utils.escape_markdown text = flat_map escape_char text
    /\ List.length (Utils.escape_markdown text)
       = List.length text
         + List.length
             (filter (fun c => existsb (ceq c) Utils.special_chars) text).
Proof.
  intro text. rewrite escape_markdown_one_pass. split; [reflexivity|].
  induction text as [|x text IH]; [reflexivity|].
  cbn [flat_map filter]. rewrite length_app, IH.
  unfold escape_char, escape_among.
  destruct (existsb (ceq x) Utils.special_chars); simpl; lia.
Qed.

Section CleanLatexText.

Import Utils.

Lemma words_cons_nonspace (c : char) (r : str) :
  isspace c = false ->
  exists w ws, words (c :: r) = (c :: w) :: ws.
Proof.
  intro H. cbn [words]. rewrite H.
  destruct r as [|d r']; [eauto|].
  destruct (isspace d); [eauto|].
  destruct (words (d :: r')); eauto.
Qed.

(** The words of a text are words. *)
Lemma words_are_words (s : str) :
  Forall (fun w => is_word w = true) (words s).
Proof.
  induction s as [|c r IH]; [constructor|].
  cbn [words]. destruct (isspace c) eqn:Ec; [exact IH|].
  assert (Hc : is_word [c] = true) by (unfold is_word; simpl; rewrite Ec; reflexivity).
  destruct r as [|d r']; [repeat constructor; exact Hc|].
  destruct (isspace d) eqn:Ed; [constructor; [exact Hc|exact IH]|].
  destruct (words (d :: r')) as [|w ws]; [repeat constructor; exact Hc|].
  inversion IH; subst. constructor; [|assumption].
  unfold is_word in *. simpl. rewrite Ec. simpl.
  match goal with H : _ && _ = true |- _ =>
    apply andb_true_iff in H; destruct H as [_ H]; exact H end.
Qed.

Lemma words_word_space (w rest : str) :
  is_word w = true -> words (w ++ c_space :: rest) = w :: words rest.
Proof.
  unfold is_word. intro H. apply andb_true_iff in H. destruct H as [Hn Hw].
  induction w as [|c w IH]; [discriminate|]. clear Hn.
  simpl in Hw. apply andb_true_iff in Hw. destruct Hw as [Hc Hw].
  apply negb_true_iff in Hc.
  cbn [app]. cbn [words]. rewrite Hc.
  destruct w as [|d w'].
  - cbn [app]. change (isspace c_space) with true. cbv iota. reflexivity.
  - assert (Hd : isspace d = false).
    { simpl in Hw. apply andb_true_iff in Hw. destruct Hw as [Hd _].
      apply negb_true_iff in Hd. exact Hd. }
    cbn [app]. rewrite Hd.
    change (d :: w' ++ c_space :: rest) with ((d :: w') ++ c_space :: rest).
    rewrite IH by (reflexivity || exact Hw). reflexivity.
Qed.

Lemma words_word (w : str) : is_word w = true -> words w = [w].
Proof.
  unfold is_word. intro H. apply andb_true_iff in H. destruct H as [Hn Hw].
  induction w as [|c w IH]; [discriminate|]. clear Hn.
  simpl in Hw. apply andb_true_iff in Hw. destruct Hw as [Hc Hw].
  apply negb_true_iff in Hc.
  cbn [words]. rewrite Hc.
  destruct w as [|d w']; [reflexivity|].
  assert (Hd : isspace d = false).
  { simpl in Hw. apply andb_true_iff in Hw. destruct Hw as [Hd _].
    apply negb_true_iff in Hd. exact Hd. }
  rewrite Hd, IH by (reflexivity || exact Hw). reflexivity.
Qed.

(** Splitting what was joined with spaces gives the words back. *)
Lemma words_join (ws : list str) :
  Forall (fun w => is_word w = true) ws ->
  words (join (lit " ") ws) = ws.
Proof.
  induction 1 as [|w ws Hw Hws IH]; [reflexivity|].
  destruct ws as [|w' ws]; [apply words_word; exact Hw|].
  rewrite join_cons2. change (lit " " ++ ?r) with (c_space :: r).
  rewrite (@words_word_space w _ Hw), IH. reflexivity.
Qed.

Lemma no_double_backslash_tail (c : char) (r : str) :
  no_double_backslash (c :: r) = true -> no_double_backslash r = true.
Proof.
  destruct r as [|d r']; [reflexivity|].
  cbn [no_double_backslash]. intro H. apply andb_true_iff in H. tauto.
Qed.

Lemma no_double_backslash_cons (c d : char) (r : str) :
  no_double_backslash (c :: d :: r)
  = negb (ceq c c_backslash && ceq d c_backslash)
    && no_double_backslash (d :: r).
Proof. reflexivity. Qed.

(** After the replacement no two backslashes are left in a row. *)
Lemma replace_line_breaks_head (b : char) (r : str) :
  exists t,
    replace_line_breaks (b :: r) = b :: t
    \/ (b = c_backslash /\ replace_line_breaks (b :: r) = c_nl :: t).
Proof.
  destruct r as [|c r']; [exists []; left; reflexivity|].
  cbn [replace_line_breaks].
  destruct (ceq b c_backslash && ceq c c_backslash) eqn:E.
  - apply andb_true_iff in E. destruct E as [E _]. apply ceq_eq in E.
    eexists. right. split; [exact E|reflexivity].
  - eexists. left. reflexivity.
Qed.

Lemma replace_line_breaks_cons2 (a b : char) (r : str) :
  replace_line_breaks (a :: b :: r)
  = if ceq a c_backslash && ceq b c_backslash
    then c_nl :: replace_line_breaks r
    else a :: replace_line_breaks (b :: r).
Proof. reflexivity. Qed.

Lemma replace_line_breaks_ok_aux (n : nat) :
  forall s, List.length s <= n ->
            no_double_backslash (replace_line_breaks s) = true.
Proof.
  induction n as [|n IH]; intros s Hn.
  - destruct s; [reflexivity|simpl in Hn; lia].
  - destruct s as [|a [|b r]]; [reflexivity|reflexivity|].
    simpl in Hn. rewrite replace_line_breaks_cons2.
    destruct (ceq a c_backslash && ceq b c_backslash) eqn:E.
    + assert (Hr : no_double_backslash (replace_line_breaks r) = true)
        by (apply IH; lia).
      destruct (replace_line_breaks r) as [|x t]; [reflexivity|].
      rewrite no_double_backslash_cons, Hr.
      change (ceq c_nl c_backslash) with false. reflexivity.
    + assert (Hr : no_double_backslash (replace_line_breaks (b :: r)) = true)
        by (apply IH; simpl; lia).
      destruct (replace_line_breaks_head b r) as [t [Ht|[Hb Ht]]];
        rewrite Ht in *; rewrite no_double_backslash_cons, Hr.
      * rewrite E. reflexivity.
      * change (ceq c_nl c_backslash) with false.
        rewrite andb_false_r. reflexivity.
Qed.

Lemma replace_line_breaks_id (s : str) :
  no_double_backslash s = true -> replace_line_breaks s = s.
Proof.
  induction s as [|a t IH]; [reflexivity|].
  destruct t as [|b r]; [reflexivity|].
  rewrite no_double_backslash_cons. intro H.
  apply andb_true_iff in H. destruct H as [H1 H2].
  apply negb_true_iff in H1.
  rewrite replace_line_breaks_cons2, H1. f_equal. apply IH. exact H2.
Qed.

Lemma no_double_backslash_words (s : str) :
  no_double_backslash s = true ->
  Forall (fun w => no_double_backslash w = true) (words s).
Proof.
  induction s as [|c r IH]; [constructor|]. intro H.
  pose proof (no_double_backslash_tail _ _ H) as Hr.
  specialize (IH Hr).
  cbn [words]. destruct (isspace c) eqn:Ec; [exact IH|].
  destruct r as [|d r']; [repeat constructor|].
  destruct (isspace d) eqn:Ed; [constructor; [reflexivity|exact IH]|].
  destruct (@words_cons_nonspace d r' Ed) as [w [ws Hw]].
  rewrite Hw in *. inversion IH; subst.
  constructor; [|assumption].
  rewrite no_double_backslash_cons in *.
  apply andb_true_iff in H. destruct H as [H1 _].
  rewrite H1. assumption.
Qed.

Lemma no_double_backslash_app_space (a b : str) :
  no_double_backslash a = true ->
  no_double_backslash b = true ->
  no_double_backslash (a ++ c_space :: b) = true.
Proof.
  intros Ha Hb. induction a as [|x a IH].
  - cbn [app]. destruct b as [|y b']; [reflexivity|].
    rewrite no_double_backslash_cons, Hb. reflexivity.
  - pose proof (no_double_backslash_tail _ _ Ha) as Ha'.
    specialize (IH Ha').
    destruct a as [|y a'].
    + cbn [app] in *. rewrite no_double_backslash_cons, IH.
      change (ceq c_space c_backslash) with false.
      rewrite andb_false_r. reflexivity.
    + cbn [app] in *. rewrite no_double_backslash_cons in *.
      apply andb_true_iff in Ha. destruct Ha as [H1 _].
      rewrite H1, IH. reflexivity.
Qed.

Lemma no_double_backslash_join (ws : list str) :
  Forall (fun w => no_double_backslash w = true) ws ->
  no_double_backslash (join (lit " ") ws) = true.
Proof.
  induction 1 as [|w ws Hw Hws IH]; [reflexivity|].
  destruct ws as [|w' ws]; [exact Hw|].
  rewrite join_cons2. change (lit " " ++ ?r) with (c_space :: r).
  apply no_double_backslash_app_space; assumption.
Qed.

Lemma is_word_lacks_nl (w : str) : is_word w = true -> lacks c_nl w.
Proof.
  unfold is_word. intro H. apply andb_true_iff in H. destruct H as [_ H].
  apply Forall_forall. intros x Hx E. subst.
  rewrite forallb_forall in H. apply H in Hx. discriminate.
Qed.

End CleanLatexText.

(** X18. [clean_latex_text] is idempotent: splitting its result on
    whitespace gives the words it was joined from, so cleaning again changes
    nothing.  The result has no newline (the newlines put for two
    backslashes in a row are taken away again by the split on
    whitespace). *)
Theorem clean_latex_text_idempotent :
  forall text : str,
    Utils.clean_latex_text (Utils.clean_latex_text text)
    = Utils.clean_latex_text text
    /\ Utils.words (Utils.clean_latex_text text)
       = Utils.words (Utils.replace_line_breaks text)
    /\ lacks c_nl (Utils.clean_latex_text text).
Proof.
  intro text. unfold Utils.clean_latex_text.
  set (ws := Utils.words (Utils.replace_line_breaks text)).
  assert (Hw : Forall (fun w => is_word w = true) ws)
    by apply words_are_words.
  assert (Hb : no_double_backslash (join (lit " ") ws) = true).
  { apply no_double_backslash_join, no_double_backslash_words.
    apply (replace_line_breaks_ok_aux (n := List.length text)). lia. }
  rewrite (replace_line_breaks_id _ Hb), (words_join Hw).
  split; [reflexivity|]. split; [reflexivity|].
  apply lacks_join; [repeat constructor; discriminate|].
  eapply Forall_impl; [|exact Hw]. intros. apply is_word_lacks_nl. assumption.
Qed.

(** ** Further properties: one inline construct in plain text *)

Section SingleMatch.

Context {G : Type}.
Variable m : matcher G.
Variable trigger : char.

Hypothesis m_needs :
  forall prev s, m prev s <> None -> exists r, s = trigger :: r.

Lemma no_match_other_head (prev : option char) (x : char) (s : str) :
  x <> trigger -> m prev (x :: s) = None.
Proof.
  intro H. destruct (m prev (x :: s)) eqn:E; [|reflexivity].
  destruct (@m_needs prev (x :: s)) as [r Hr]; [congruence|].
  inversion Hr. congruence.
Qed.

(** Passing the characters of a match, with nothing to find after it. *)
Lemma finditer_from_pass (a post : str) :
  lacks trigger post ->
  forall prev pos, finditer_from m prev pos (List.length a) (a ++ post) = [].
Proof.
  intro Hp. induction a as [|x a IH]; intros prev pos.
  - cbn [List.length app]. destruct post as [|c post']; [reflexivity|].
    exact (finditer_from_lacks m m_needs prev pos Hp).
  - cbn [List.length app finditer_from]. apply IH.
Qed.

(** One match between two stretches that cannot start one. *)
Lemma finditer_from_single (pre x : str) (c : char) (post : str) (g : G) :
  lacks trigger pre ->
  lacks trigger post ->
  (forall prev, prev <> Some trigger ->
                m prev ((c :: x) ++ post) = Some (List.length (c :: x), g)) ->
  forall prev pos,
    prev <> Some trigger ->
    finditer_from m prev pos 0 (pre ++ (c :: x) ++ post)
    = [(pos + List.length pre,
        pos + List.length pre + List.length (c :: x), g)].
Proof.
  intros Hpre Hpost Hm. induction Hpre as [|y pre Hy _ IH]; intros prev pos Hp.
  - cbn [app List.length finditer_from]. rewrite Nat.add_0_r.
    change (c :: x ++ post) with ((c :: x) ++ post).
    rewrite (Hm prev Hp). cbn [List.length Nat.pred].
    rewrite finditer_from_pass by exact Hpost. reflexivity.
  - cbn [app finditer_from].
    change (y :: pre ++ c :: x ++ post)
      with (y :: (pre ++ (c :: x) ++ post)).
    rewrite (no_match_other_head prev _ Hy).
    rewrite IH by congruence.
    cbn [List.length]. do 3 f_equal; lia.
Qed.

(** One place where a match could start, and does not. *)
Lemma finditer_from_candidate (pre : str) (c : char) (rest : str) :
  lacks trigger pre ->
  lacks trigger rest ->
  (forall prev, m prev (c :: rest) = None) ->
  forall prev pos, finditer_from m prev pos 0 (pre ++ c :: rest) = [].
Proof.
  intros Hpre Hrest Hm. induction Hpre as [|y pre Hy _ IH]; intros prev pos.
  - cbn [app finditer_from]. rewrite Hm.
    destruct rest as [|d rest']; [reflexivity|].
    exact (finditer_from_lacks m m_needs (Some c) (S pos) Hrest).
  - cbn [app finditer_from]. rewrite (no_match_other_head prev _ Hy).
    apply IH.
Qed.

End SingleMatch.

Section SingleMatchParagraph.

Lemma firstn_app_exact {A} (a b : list A) : firstn (List.length a) (a ++ b) = a.
Proof. induction a as [|x a IH]; [reflexivity|]. simpl. rewrite IH. reflexivity. Qed.

Lemma skipn_app_exact {A} (a b : list A) : skipn (List.length a) (a ++ b) = b.
Proof. induction a as [|x a IH]; [reflexivity|exact IH]. Qed.

(** The children of a paragraph with exactly one match. *)
Lemma parse_paragraph_single (pre mt post : str) (k : ElemKind) :
  mt <> [] ->
  find_elements (pre ++ mt ++ post)
  = [mkElem k (List.length pre) (List.length pre + List.length mt)] ->
  children (_parse_paragraph (pre ++ mt ++ post))
  = text_gap pre
    ++ [elem_node (mkElem k (List.length pre)
                     (List.length pre + List.length mt))]
    ++ text_gap post.
Proof.
  intros Hne He. unfold _parse_paragraph. rewrite He.
  cbn [sort_elements fold_right insert_elem fold_left build_step e_start e_end].
  assert (Hbefore :
            (if 0 <? List.length pre
             then if nonempty (strip (slice (pre ++ mt ++ post) 0
                                        (List.length pre)))
                  then [] ++ [leaf TEXT (CStr (slice (pre ++ mt ++ post) 0
                                                 (List.length pre)))]
                  else []
             else [])
            = text_gap pre).
  { unfold slice, text_gap. cbn [skipn]. rewrite Nat.sub_0_r, firstn_app_exact.
    destruct pre; reflexivity. }
  rewrite Hbefore.
  assert (Hafter : slice_from (pre ++ mt ++ post)
                     (List.length pre + List.length mt) = post).
  { unfold slice_from. rewrite app_assoc, <- length_app.
    apply skipn_app_exact. }
  rewrite Hafter.
  assert (Hlt : (List.length pre + List.length mt
                 <? List.length (pre ++ mt ++ post))
                = nonempty post).
  { rewrite !length_app. destruct post; simpl.
    - rewrite Nat.add_0_r. apply Nat.ltb_irrefl.
    - apply Nat.ltb_lt. lia. }
  rewrite Hlt. cbn [children].
  set (e := elem_node _).
  assert (Hpost : (if nonempty post
                   then if nonempty (strip post)
                        then (text_gap pre ++ [e]) ++ [leaf TEXT (CStr post)]
                        else text_gap pre ++ [e]
                   else text_gap pre ++ [e])
                  = text_gap pre ++ [e] ++ text_gap post).
  { generalize (text_gap pre). intro l. unfold text_gap.
    destruct post as [|c post'].
    - reflexivity.
    - cbn [nonempty]. destruct (nonempty (strip (c :: post')));
        [rewrite <- app_assoc; reflexivity|rewrite app_nil_r; reflexivity]. }
  rewrite Hpost. destruct (text_gap pre); reflexivity.
Qed.

End SingleMatchParagraph.

Section InlineMath.

Lemma no_double_dollar_cons (c d : char) (r : str) :
  no_double_dollar (c :: d :: r)
  = negb (ceq c c_dollar && ceq d c_dollar) && no_double_dollar (d :: r).
Proof. reflexivity. Qed.

Lemma ceq_neq (a b : char) : a <> b -> ceq a b = false.
Proof.
  intro H. destruct (ceq a b) eqn:E; [|reflexivity].
  apply ceq_eq in E. contradiction.
Qed.

Lemma no_double_dollar_lacks (s : str) :
  lacks c_dollar s -> no_double_dollar s = true.
Proof.
  induction 1 as [|x s Hx Hs IH]; [reflexivity|].
  destruct s as [|y s']; [reflexivity|].
  rewrite no_double_dollar_cons, IH, (ceq_neq Hx). reflexivity.
Qed.

(** A dollar sign after text without one and before text that does not
    begin with one. *)
Lemma no_double_dollar_app (a b : str) :
  lacks c_dollar a ->
  startswith [c_dollar] b = false ->
  no_double_dollar b = true ->
  no_double_dollar (a ++ c_dollar :: b) = true.
Proof.
  intros Ha Hh Hb. induction Ha as [|x a Hx _ IH].
  - cbn [app]. destruct b as [|y b']; [reflexivity|].
    rewrite no_double_dollar_cons, Hb.
    cbn [startswith] in Hh. rewrite andb_true_r in Hh.
    rewrite (ceq_sym y c_dollar), Hh, andb_false_r. reflexivity.
  - destruct a as [|y a'];
      cbn [app] in *; rewrite no_double_dollar_cons, IH, (ceq_neq Hx);
      reflexivity.
Qed.

Lemma startswith_lacks (c : char) (s : str) :
  lacks c s -> startswith [c] s = false.
Proof.
  intro H. destruct s as [|x s]; [reflexivity|].
  inversion H; subst. cbn [startswith].
  rewrite (ceq_sym c x), (ceq_neq H2). reflexivity.
Qed.

(** Without two dollar signs in a row the display pattern finds nothing. *)
Lemma finditer_display_none (s : str) :
  no_double_dollar s = true ->
  forall prev pos, finditer_from math_display_m prev pos 0 s = [].
Proof.
  induction s as [|a t IH]; intros H prev pos; [reflexivity|].
  cbn [finditer_from].
  assert (Hm : math_display_m prev (a :: t) = None).
  { unfold math_display_m. cbn [strip_prefix].
    destruct (ceq c_dollar a) eqn:Ea; [|reflexivity].
    destruct t as [|b t']; [reflexivity|].
    rewrite no_double_dollar_cons in H.
    apply andb_true_iff in H. destruct H as [H _].
    apply negb_true_iff in H. rewrite (ceq_sym a), Ea in H.
    cbn [andb] in H. rewrite (ceq_sym c_dollar b), H. reflexivity. }
  rewrite Hm. apply IH.
  destruct t as [|b t']; [reflexivity|].
  rewrite no_double_dollar_cons in H. apply andb_true_iff in H. tauto.
Qed.

(** The dollar pattern on [$g$] followed by text without a dollar sign. *)
Lemma math_inline_at (g post : str) (prev : option char) :
  g <> [] -> lacks c_dollar g -> lacks c_dollar post ->
  prev <> Some c_dollar ->
  math_inline_m prev ((c_dollar :: g ++ [c_dollar]) ++ post)
  = Some (List.length (c_dollar :: g ++ [c_dollar]), g).
Proof.
  intros Hne Hg Hpost Hprev. unfold math_inline_m.
  assert (Hb : match prev with
               | Some p => negb (ceq p c_dollar)
               | None => true
               end = true).
  { destruct prev as [p|]; [|reflexivity].
    rewrite ceq_neq; [reflexivity|congruence]. }
  rewrite Hb. cbn [app]. rewrite ceq_refl, <- app_assoc. cbn [app].
  rewrite (span_not_app post Hg), (startswith_lacks Hpost).
  destruct g; [congruence|].
  cbn [List.length]. rewrite length_app. cbn [List.length].
  do 2 f_equal. lia.
Qed.

(** The matches of a text with one [$g$] and otherwise no dollar sign and
    no backslash. *)
Lemma find_elements_inline_math (pre g post : str) :
  g <> [] ->
  lacks c_backslash pre -> lacks c_backslash g -> lacks c_backslash post ->
  lacks c_dollar pre -> lacks c_dollar g -> lacks c_dollar post ->
  find_elements (pre ++ (c_dollar :: g ++ [c_dollar]) ++ post)
  = [mkElem (K_math_inline g) (List.length pre)
       (List.length pre + List.length (c_dollar :: g ++ [c_dollar]))].
Proof.
  intros Hne Hb1 Hb2 Hb3 Hd1 Hd2 Hd3.
  assert (Hb : lacks c_backslash (pre ++ (c_dollar :: g ++ [c_dollar]) ++ post)).
  { apply lacks_app. split; [exact Hb1|]. apply lacks_app. split; [|exact Hb3].
    constructor; [discriminate|]. apply lacks_app.
    split; [exact Hb2|repeat constructor; discriminate]. }
  assert (Hn : no_double_dollar
                 (pre ++ (c_dollar :: g ++ [c_dollar]) ++ post) = true).
  { cbn [app]. rewrite <- app_assoc. cbn [app].
    apply no_double_dollar_app; [exact Hd1| |].
    - destruct g as [|x g']; [congruence|]. inversion Hd2; subst.
      cbn [app startswith]. rewrite (ceq_sym c_dollar x), (ceq_neq H1).
      reflexivity.
    - apply no_double_dollar_app;
        [exact Hd2|apply startswith_lacks; exact Hd3
        |apply no_double_dollar_lacks; exact Hd3]. }
  unfold find_elements.
  rewrite (@elems_of_nil _ K_math_display p_math_display)
    by exact (finditer_display_none _ Hn None 0).
  rewrite (@elems_of_nil _ K_math_display p_math_display_brackets)
    by exact (finditer_from_lacks _
                (@delimited_needs (lit "[") (lit "\]")) None 0 Hb).
  rewrite (@elems_of_nil _ K_math_inline p_math_inline_parens)
    by exact (finditer_from_lacks _
                (@delimited_needs (lit "(") (lit "\)")) None 0 Hb).
  rewrite (@elems_of_nil _ K_textbf p_textbf)
    by exact (finditer_from_lacks _ (@cmd_braced_needs (lit "textbf")) None 0 Hb).
  rewrite (@elems_of_nil _ K_textit p_textit)
    by exact (finditer_from_lacks _ (@cmd_braced_needs (lit "textit")) None 0 Hb).
  rewrite (@elems_of_nil _ K_code p_texttt)
    by exact (finditer_from_lacks _ (@cmd_braced_needs (lit "texttt")) None 0 Hb).
  rewrite (@elems_of_nil _ _ p_href)
    by exact (finditer_from_lacks _ href_needs None 0 Hb).
  unfold elems_of, finditer, p_math_inline.
  rewrite (@finditer_from_single _ math_inline_m c_dollar math_inline_needs
             pre (g ++ [c_dollar]) c_dollar post g Hd1 Hd3);
    [reflexivity| |discriminate].
  intros prev Hprev. apply math_inline_at; assumption.
Qed.

End InlineMath.

(** X19. In text that has no other dollar sign and no backslash, [$g$] is
    scanned as one inline-math node between the text before and the text
    after it, a blank stretch of text giving no node; the paragraph renders
    [g] between the delimiters [\(] and [\)] with the text around it, blank
    stretches left out. *)
Theorem parse_paragraph_inline_math :
  forall pre g post : str,
    g <> [] ->
    lacks c_backslash pre -> lacks c_backslash g -> lacks c_backslash post ->
    lacks c_dollar pre -> lacks c_dollar g -> lacks c_dollar post ->
    children (_parse_paragraph (pre ++ lit "$" ++ g ++ lit "$" ++ post))
    = text_gap pre ++ [leaf MATH_INLINE (CStr g)] ++ text_gap post
    /\ BlockHandler.convert_paragraph
         (_parse_paragraph (pre ++ lit "$" ++ g ++ lit "$" ++ post))
       = Some (gap_text pre ++ lit "\(" ++ g ++ lit "\)" ++ gap_text post).
Proof.
  intros pre g post Hne Hb1 Hb2 Hb3 Hd1 Hd2 Hd3.
  assert (Hform : pre ++ lit "$" ++ g ++ lit "$" ++ post
                  = pre ++ (c_dollar :: g ++ [c_dollar]) ++ post).
  { cbn [app]. rewrite <- app_assoc. reflexivity. }
  assert (Hc : children (_parse_paragraph
                           (pre ++ lit "$" ++ g ++ lit "$" ++ post))
               = text_gap pre ++ [leaf MATH_INLINE (CStr g)] ++ text_gap post).
  { rewrite Hform.
    apply (@parse_paragraph_single pre (c_dollar :: g ++ [c_dollar]) post
             (K_math_inline g)); [discriminate|].
    apply find_elements_inline_math; assumption. }
  split; [exact Hc|].
  rewrite parse_paragraph_node, Hc.
  unfold text_gap, gap_text.
  destruct (nonempty (strip pre)), (nonempty (strip post));
    cbn; rewrite ?app_nil_r, <- ?app_assoc; reflexivity.
Qed.

Lemma parse_paragraph_inline_math_witness :
  children (_parse_paragraph
              (lit "This is " ++ lit "$" ++ lit "x^2" ++ lit "$" ++ lit " "))
  = text_gap (lit "This is ") ++ [leaf MATH_INLINE (CStr (lit "x^2"))]
    ++ text_gap (lit " ")
  /\ BlockHandler.convert_paragraph
       (_parse_paragraph
          (lit "This is " ++ lit "$" ++ lit "x^2" ++ lit "$" ++ lit " "))
     = Some (gap_text (lit "This is ") ++ lit "\(" ++ lit "x^2" ++ lit "\)"
             ++ gap_text (lit " ")).
Proof.
  apply (@parse_paragraph_inline_math (lit "This is ") (lit "x^2") (lit " "));
    try discriminate; repeat constructor; discriminate.
Defined.

Section InlineCommands.

(** A command pattern on a text with its command once and no other
    backslash. *)
Lemma finditer_command (cmd g pre post : str) :
  lacks c_backslash pre -> lacks c_backslash post ->
  g <> [] -> lacks c_rbrace g ->
  finditer (cmd_braced (c_backslash :: cmd))
    (pre ++ (c_backslash :: cmd ++ c_lbrace :: g ++ [c_rbrace]) ++ post)
  = [(List.length pre,
      List.length pre
      + List.length (c_backslash :: cmd ++ c_lbrace :: g ++ [c_rbrace]), g)].
Proof.
  intros Hpre Hpost Hne Hr. unfold finditer.
  rewrite (@finditer_from_single _ (cmd_braced (c_backslash :: cmd))
             c_backslash (@cmd_braced_needs cmd)
             pre (cmd ++ c_lbrace :: g ++ [c_rbrace]) c_backslash post g
             Hpre Hpost); [reflexivity| |discriminate].
  intros prev _.
  replace ((c_backslash :: cmd ++ c_lbrace :: g ++ [c_rbrace]) ++ post)
    with ((c_backslash :: cmd) ++ c_lbrace :: g ++ c_rbrace :: post)
    by (cbn [app]; rewrite <- !app_assoc; cbn [app];
        rewrite <- app_assoc; reflexivity).
  rewrite (cmd_braced_at (c_backslash :: cmd) post prev Hne Hr).
  do 2 f_equal. cbn [List.length]. rewrite !length_app. cbn [List.length].
  rewrite length_app. cbn [List.length]. lia.
Qed.

(** The rendering of one inline node between two gaps. *)
Lemma convert_paragraph_single (pre post s : str) (n : ASTNode) :
  inline_parts n = Some [s] ->
  BlockHandler.convert_paragraph
    (Node PARAGRAPH CNone (text_gap pre ++ [n] ++ text_gap post) [])
  = Some (gap_text pre ++ s ++ gap_text post).
Proof.
  intro H. unfold text_gap, gap_text, BlockHandler.convert_paragraph.
  destruct (nonempty (strip pre)), (nonempty (strip post));
    cbn [app children traverse]; rewrite H; cbn;
    rewrite ?app_nil_r, <- ?app_assoc; reflexivity.
Qed.

Lemma command_text_lacks (c : char) (cmd g pre post : str) :
  c <> c_backslash -> c <> c_lbrace -> c <> c_rbrace ->
  lacks c cmd -> lacks c g -> lacks c pre -> lacks c post ->
  lacks c (pre ++ (c_backslash :: cmd ++ c_lbrace :: g ++ [c_rbrace]) ++ post).
Proof.
  intros H1 H2 H3 Hc Hg Hpre Hpost.
  apply lacks_app. split; [exact Hpre|]. apply lacks_app. split; [|exact Hpost].
  constructor; [congruence|]. apply lacks_app. split; [exact Hc|].
  constructor; [congruence|]. apply lacks_app. split; [exact Hg|].
  repeat constructor. congruence.
Qed.

Lemma command_tail_lacks_backslash (cmd g post : str) :
  lacks c_backslash cmd -> lacks c_backslash g -> lacks c_backslash post ->
  lacks c_backslash ((cmd ++ c_lbrace :: g ++ [c_rbrace]) ++ post).
Proof.
  intros Hc Hg Hpost. apply lacks_app. split; [|exact Hpost].
  apply lacks_app. split; [exact Hc|].
  constructor; [discriminate|]. apply lacks_app. split; [exact Hg|].
  repeat constructor. discriminate.
Qed.

(** The matches of a text with one [\textbf] command and otherwise no
    backslash and no dollar sign. *)
Lemma find_elements_textbf (pre g post : str) :
  g <> [] -> lacks c_rbrace g ->
  lacks c_backslash pre -> lacks c_backslash g -> lacks c_backslash post ->
  lacks c_dollar pre -> lacks c_dollar g -> lacks c_dollar post ->
  find_elements
    (pre ++ (c_backslash :: lit "textbf" ++ c_lbrace :: g ++ [c_rbrace]) ++ post)
  = [mkElem (K_textbf g) (List.length pre)
       (List.length pre
        + List.length (c_backslash
                       :: lit "textbf" ++ c_lbrace :: g ++ [c_rbrace]))].
Proof.
  intros Hne Hr Hb1 Hb2 Hb3 Hd1 Hd2 Hd3.
  assert (Hd : lacks c_dollar
                 (pre ++ (c_backslash
                          :: lit "textbf" ++ c_lbrace :: g ++ [c_rbrace])
                  ++ post)).
  { apply command_text_lacks; try discriminate; try assumption.
    repeat constructor; discriminate. }
  assert (Ht : lacks c_backslash
                 ((lit "textbf" ++ c_lbrace :: g ++ [c_rbrace]) ++ post)).
  { apply command_tail_lacks_backslash; try assumption.
    repeat constructor; discriminate. }
  unfold find_elements.
  rewrite (@elems_of_nil _ K_math_display p_math_display)
    by exact (finditer_from_lacks _ math_display_needs None 0 Hd).
  rewrite (@elems_of_nil _ K_math_inline p_math_inline)
    by exact (finditer_from_lacks _ math_inline_needs None 0 Hd).
  rewrite (@elems_of_nil _ K_math_display p_math_display_brackets)
    by exact (@finditer_from_candidate _ p_math_display_brackets c_backslash (@delimited_needs (lit "[") (lit "\]"))
                pre c_backslash _ Hb1 Ht (fun _ => eq_refl) None 0).
  rewrite (@elems_of_nil _ K_math_inline p_math_inline_parens)
    by exact (@finditer_from_candidate _ p_math_inline_parens c_backslash (@delimited_needs (lit "(") (lit "\)"))
                pre c_backslash _ Hb1 Ht (fun _ => eq_refl) None 0).
  rewrite (@elems_of_nil _ K_textit p_textit)
    by exact (@finditer_from_candidate _ p_textit c_backslash (@cmd_braced_needs (lit "textit"))
                pre c_backslash _ Hb1 Ht (fun _ => eq_refl) None 0).
  rewrite (@elems_of_nil _ K_code p_texttt)
    by exact (@finditer_from_candidate _ p_texttt c_backslash (@cmd_braced_needs (lit "texttt"))
                pre c_backslash _ Hb1 Ht (fun _ => eq_refl) None 0).
  rewrite (@elems_of_nil _ _ p_href)
    by exact (@finditer_from_candidate _ p_href c_backslash href_needs
                pre c_backslash _ Hb1 Ht (fun _ => eq_refl) None 0).
  unfold elems_of, p_textbf.
  change (lit "\textbf") with (c_backslash :: lit "textbf").
  rewrite finditer_command by assumption. reflexivity.
Qed.

(** The matches of a text with one [\textit] command and otherwise no
    backslash and no dollar sign. *)
Lemma find_elements_textit (pre g post : str) :
  g <> [] -> lacks c_rbrace g ->
  lacks c_backslash pre -> lacks c_backslash g -> lacks c_backslash post ->
  lacks c_dollar pre -> lacks c_dollar g -> lacks c_dollar post ->
  find_elements
    (pre ++ (c_backslash :: lit "textit" ++ c_lbrace :: g ++ [c_rbrace]) ++ post)
  = [mkElem (K_textit g) (List.length pre)
       (List.length pre
        + List.length (c_backslash
                       :: lit "textit" ++ c_lbrace :: g ++ [c_rbrace]))].
Proof.
  intros Hne Hr Hb1 Hb2 Hb3 Hd1 Hd2 Hd3.
  assert (Hd : lacks c_dollar
                 (pre ++ (c_backslash
                          :: lit "textit" ++ c_lbrace :: g ++ [c_rbrace])
                  ++ post)).
  { apply command_text_lacks; try discriminate; try assumption.
    repeat constructor; discriminate. }
  assert (Ht : lacks c_backslash
                 ((lit "textit" ++ c_lbrace :: g ++ [c_rbrace]) ++ post)).
  { apply command_tail_lacks_backslash; try assumption.
    repeat constructor; discriminate. }
  unfold find_elements.
  rewrite (@elems_of_nil _ K_math_display p_math_display)
    by exact (finditer_from_lacks _ math_display_needs None 0 Hd).
  rewrite (@elems_of_nil _ K_math_inline p_math_inline)
    by exact (finditer_from_lacks _ math_inline_needs None 0 Hd).
  rewrite (@elems_of_nil _ K_math_display p_math_display_brackets)
    by exact (@finditer_from_candidate _ p_math_display_brackets c_backslash (@delimited_needs (lit "[") (lit "\]"))
                pre c_backslash _ Hb1 Ht (fun _ => eq_refl) None 0).
  rewrite (@elems_of_nil _ K_math_inline p_math_inline_parens)
    by exact (@finditer_from_candidate _ p_math_inline_parens c_backslash (@delimited_needs (lit "(") (lit "\)"))
                pre c_backslash _ Hb1 Ht (fun _ => eq_refl) None 0).
  rewrite (@elems_of_nil _ K_textbf p_textbf)
    by exact (@finditer_from_candidate _ p_textbf c_backslash (@cmd_braced_needs (lit "textbf"))
                pre c_backslash _ Hb1 Ht (fun _ => eq_refl) None 0).
  rewrite (@elems_of_nil _ K_code p_texttt)
    by exact (@finditer_from_candidate _ p_texttt c_backslash (@cmd_braced_needs (lit "texttt"))
                pre c_backslash _ Hb1 Ht (fun _ => eq_refl) None 0).
  rewrite (@elems_of_nil _ _ p_href)
    by exact (@finditer_from_candidate _ p_href c_backslash href_needs
                pre c_backslash _ Hb1 Ht (fun _ => eq_refl) None 0).
  unfold elems_of, p_textit.
  change (lit "\textit") with (c_backslash :: lit "textit").
  rewrite finditer_command by assumption. reflexivity.
Qed.

(** The matches of a text with one [\texttt] command and otherwise no
    backslash and no dollar sign. *)
Lemma find_elements_texttt (pre g post : str) :
  g <> [] -> lacks c_rbrace g ->
  lacks c_backslash pre -> lacks c_backslash g -> lacks c_backslash post ->
  lacks c_dollar pre -> lacks c_dollar g -> lacks c_dollar post ->
  find_elements
    (pre ++ (c_backslash :: lit "texttt" ++ c_lbrace :: g ++ [c_rbrace]) ++ post)
  = [mkElem (K_code g) (List.length pre)
       (List.length pre
        + List.length (c_backslash
                       :: lit "texttt" ++ c_lbrace :: g ++ [c_rbrace]))].
Proof.
  intros Hne Hr Hb1 Hb2 Hb3 Hd1 Hd2 Hd3.
  assert (Hd : lacks c_dollar
                 (pre ++ (c_backslash
                          :: lit "texttt" ++ c_lbrace :: g ++ [c_rbrace])
                  ++ post)).
  { apply command_text_lacks; try discriminate; try assumption.
    repeat constructor; discriminate. }
  assert (Ht : lacks c_backslash
                 ((lit "texttt" ++ c_lbrace :: g ++ [c_rbrace]) ++ post)).
  { apply command_tail_lacks_backslash; try assumption.
    repeat constructor; discriminate. }
  unfold find_elements.
  rewrite (@elems_of_nil _ K_math_display p_math_display)
    by exact (finditer_from_lacks _ math_display_needs None 0 Hd).
  rewrite (@elems_of_nil _ K_math_inline p_math_inline)
    by exact (finditer_from_lacks _ math_inline_needs None 0 Hd).
  rewrite (@elems_of_nil _ K_math_display p_math_display_brackets)
    by exact (@finditer_from_candidate _ p_math_display_brackets c_backslash (@delimited_needs (lit "[") (lit "\]"))
                pre c_backslash _ Hb1 Ht (fun _ => eq_refl) None 0).
  rewrite (@elems_of_nil _ K_math_inline p_math_inline_parens)
    by exact (@finditer_from_candidate _ p_math_inline_parens c_backslash (@delimited_needs (lit "(") (lit "\)"))
                pre c_backslash _ Hb1 Ht (fun _ => eq_refl) None 0).
  rewrite (@elems_of_nil _ K_textbf p_textbf)
    by exact (@finditer_from_candidate _ p_textbf c_backslash (@cmd_braced_needs (lit "textbf"))
                pre c_backslash _ Hb1 Ht (fun _ => eq_refl) None 0).
  rewrite (@elems_of_nil _ K_textit p_textit)
    by exact (@finditer_from_candidate _ p_textit c_backslash (@cmd_braced_needs (lit "textit"))
                pre c_backslash _ Hb1 Ht (fun _ => eq_refl) None 0).
  rewrite (@elems_of_nil _ _ p_href)
    by exact (@finditer_from_candidate _ p_href c_backslash href_needs
                pre c_backslash _ Hb1 Ht (fun _ => eq_refl) None 0).
  unfold elems_of, p_texttt.
  change (lit "\texttt") with (c_backslash :: lit "texttt").
  rewrite finditer_command by assumption. reflexivity.
Qed.

End InlineCommands.

(** X20. In text that has no other backslash and no dollar sign, a
    [\textbf], [\textit] or [\texttt] command with an argument (without a
    closing brace) is scanned as one bold, italic or code node between the
    text before and after it, and renders as the argument between [**], [*]
    or backquotes. *)
Theorem parse_paragraph_command :
  forall pre g post : str,
    g <> [] -> lacks c_rbrace g ->
    lacks c_backslash pre -> lacks c_backslash g -> lacks c_backslash post ->
    lacks c_dollar pre -> lacks c_dollar g -> lacks c_dollar post ->
    (children (_parse_paragraph
                 (pre ++ lit "\textbf{" ++ g ++ lit "}" ++ post))
     = text_gap pre ++ [leaf BOLD (CStr g)] ++ text_gap post
     /\ BlockHandler.convert_paragraph
          (_parse_paragraph (pre ++ lit "\textbf{" ++ g ++ lit "}" ++ post))
        = Some (gap_text pre ++ lit "**" ++ g ++ lit "**"
                ++ gap_text post))
    /\ (children (_parse_paragraph
                 (pre ++ lit "\textit{" ++ g ++ lit "}" ++ post))
     = text_gap pre ++ [leaf ITALIC (CStr g)] ++ text_gap post
     /\ BlockHandler.convert_paragraph
          (_parse_paragraph (pre ++ lit "\textit{" ++ g ++ lit "}" ++ post))
        = Some (gap_text pre ++ lit "*" ++ g ++ lit "*"
                ++ gap_text post))
    /\ (children (_parse_paragraph
                 (pre ++ lit "\texttt{" ++ g ++ lit "}" ++ post))
     = text_gap pre ++ [leaf CODE (CStr g)] ++ text_gap post
     /\ BlockHandler.convert_paragraph
          (_parse_paragraph (pre ++ lit "\texttt{" ++ g ++ lit "}" ++ post))
        = Some (gap_text pre ++ lit "`" ++ g ++ lit "`"
                ++ gap_text post)).
Proof.
  intros pre g post Hne Hr Hb1 Hb2 Hb3 Hd1 Hd2 Hd3.
  split; [|split].
  { assert (Hc : children (_parse_paragraph
                             (pre ++ lit "\textbf{" ++ g ++ lit "}" ++ post))
                 = text_gap pre ++ [elem_node (mkElem (K_textbf g) 0 0)]
                   ++ text_gap post).
    { replace (pre ++ lit "\textbf{" ++ g ++ lit "}" ++ post)
        with (pre ++ (c_backslash
                      :: lit "textbf" ++ c_lbrace :: g ++ [c_rbrace]) ++ post)
        by (f_equal;
            change (lit "\textbf{") with ((c_backslash :: lit "textbf") ++ [c_lbrace]);
            change (lit "}") with [c_rbrace];
            repeat ((rewrite <- app_assoc) || (progress cbn [app]));
            reflexivity).
      apply (@parse_paragraph_single pre _ post (K_textbf g)); [discriminate|].
      apply find_elements_textbf; assumption. }
    split; [exact Hc|].
    rewrite parse_paragraph_node, Hc.
    rewrite (@convert_paragraph_single pre post
               (lit "**" ++ g ++ lit "**")
               (elem_node (mkElem (K_textbf g) 0 0)) eq_refl).
    rewrite <- !app_assoc. reflexivity. }
  { assert (Hc : children (_parse_paragraph
                             (pre ++ lit "\textit{" ++ g ++ lit "}" ++ post))
                 = text_gap pre ++ [elem_node (mkElem (K_textit g) 0 0)]
                   ++ text_gap post).
    { replace (pre ++ lit "\textit{" ++ g ++ lit "}" ++ post)
        with (pre ++ (c_backslash
                      :: lit "textit" ++ c_lbrace :: g ++ [c_rbrace]) ++ post)
        by (f_equal;
            change (lit "\textit{") with ((c_backslash :: lit "textit") ++ [c_lbrace]);
            change (lit "}") with [c_rbrace];
            repeat ((rewrite <- app_assoc) || (progress cbn [app]));
            reflexivity).
      apply (@parse_paragraph_single pre _ post (K_textit g)); [discriminate|].
      apply find_elements_textit; assumption. }
    split; [exact Hc|].
    rewrite parse_paragraph_node, Hc.
    rewrite (@convert_paragraph_single pre post
               (lit "*" ++ g ++ lit "*")
               (elem_node (mkElem (K_textit g) 0 0)) eq_refl).
    rewrite <- !app_assoc. reflexivity. }
  { assert (Hc : children (_parse_paragraph
                             (pre ++ lit "\texttt{" ++ g ++ lit "}" ++ post))
                 = text_gap pre ++ [elem_node (mkElem (K_code g) 0 0)]
                   ++ text_gap post).
    { replace (pre ++ lit "\texttt{" ++ g ++ lit "}" ++ post)
        with (pre ++ (c_backslash
                      :: lit "texttt" ++ c_lbrace :: g ++ [c_rbrace]) ++ post)
        by (f_equal;
            change (lit "\texttt{") with ((c_backslash :: lit "texttt") ++ [c_lbrace]);
            change (lit "}") with [c_rbrace];
            repeat ((rewrite <- app_assoc) || (progress cbn [app]));
            reflexivity).
      apply (@parse_paragraph_single pre _ post (K_code g)); [discriminate|].
      apply find_elements_texttt; assumption. }
    split; [exact Hc|].
    rewrite parse_paragraph_node, Hc.
    rewrite (@convert_paragraph_single pre post
               (lit "`" ++ g ++ lit "`")
               (elem_node (mkElem (K_code g) 0 0)) eq_refl).
    rewrite <- !app_assoc. reflexivity. }
Qed.

Lemma parse_paragraph_command_witness :
  children (_parse_paragraph
              (lit "and " ++ lit "\textbf{" ++ lit "bold" ++ lit "}" ++ lit "."))
  = text_gap (lit "and ") ++ [leaf BOLD (CStr (lit "bold"))]
    ++ text_gap (lit ".")
  /\ BlockHandler.convert_paragraph
       (_parse_paragraph
          (lit "and " ++ lit "\textbf{" ++ lit "bold" ++ lit "}" ++ lit "."))
     = Some (gap_text (lit "and ") ++ lit "**" ++ lit "bold" ++ lit "**"
             ++ gap_text (lit ".")).
Proof.
  apply (@parse_paragraph_command (lit "and ") (lit "bold") (lit "."));
    try discriminate; repeat constructor; discriminate.
Defined.

Section InlineLink.

Lemma href_at (url label rest : str) (prev : option char) :
  url <> [] -> label <> [] ->
  lacks c_rbrace url -> lacks c_rbrace label ->
  href_m prev (lit "\href" ++ c_lbrace :: url
               ++ c_rbrace :: c_lbrace :: label ++ c_rbrace :: rest)
  = Some (5 + 0 + 1 + List.length url + 1 + 0 + 1 + List.length label + 1,
          (url, label)).
Proof.
  intros Hu Hl Hru Hrl. unfold href_m. rewrite strip_prefix_app.
  cbn [skip_ws]. change (isspace c_lbrace) with false. cbv iota.
  unfold braced at 1. rewrite ceq_refl, (span_not_app _ Hru).
  destruct url as [|u url]; [congruence|].
  cbn [skip_ws]. change (isspace c_lbrace) with false. cbv iota.
  unfold braced. rewrite ceq_refl, (span_not_app rest Hrl).
  destruct label; [congruence|reflexivity].
Qed.

Lemma finditer_href (url label pre post : str) :
  lacks c_backslash pre -> lacks c_backslash post ->
  url <> [] -> label <> [] ->
  lacks c_rbrace url -> lacks c_rbrace label ->
  finditer href_m
    (pre ++ (c_backslash :: lit "href" ++ c_lbrace :: url
             ++ c_rbrace :: c_lbrace :: label ++ [c_rbrace]) ++ post)
  = [(List.length pre,
      List.length pre
      + List.length (c_backslash :: lit "href" ++ c_lbrace :: url
                     ++ c_rbrace :: c_lbrace :: label ++ [c_rbrace]),
      (url, label))].
Proof.
  intros Hpre Hpost Hu Hl Hru Hrl. unfold finditer.
  rewrite (@finditer_from_single _ href_m c_backslash href_needs
             pre (lit "href" ++ c_lbrace :: url
                  ++ c_rbrace :: c_lbrace :: label ++ [c_rbrace])
             c_backslash post (url, label) Hpre Hpost);
    [reflexivity| |discriminate].
  intros prev _.
  replace ((c_backslash :: lit "href" ++ c_lbrace :: url
            ++ c_rbrace :: c_lbrace :: label ++ [c_rbrace]) ++ post)
    with (lit "\href" ++ c_lbrace :: url
          ++ c_rbrace :: c_lbrace :: label ++ c_rbrace :: post)
    by (change (lit "\href") with (c_backslash :: lit "href");
        repeat ((rewrite <- app_assoc) || (progress cbn [app]));
        reflexivity).
  rewrite (href_at post prev Hu Hl Hru Hrl).
  do 2 f_equal. cbn [List.length].
  repeat (rewrite length_app; cbn [List.length]).
  change (List.length (lit "href")) with 4. lia.
Qed.

(** The matches of a text with one link and otherwise no backslash and no
    dollar sign. *)
Lemma find_elements_href (pre url label post : str) :
  url <> [] -> label <> [] ->
  lacks c_rbrace url -> lacks c_rbrace label ->
  lacks c_backslash pre -> lacks c_backslash url ->
  lacks c_backslash label -> lacks c_backslash post ->
  lacks c_dollar pre -> lacks c_dollar url ->
  lacks c_dollar label -> lacks c_dollar post ->
  find_elements
    (pre ++ (c_backslash :: lit "href" ++ c_lbrace :: url
             ++ c_rbrace :: c_lbrace :: label ++ [c_rbrace]) ++ post)
  = [mkElem (K_href url label) (List.length pre)
       (List.length pre
        + List.length (c_backslash :: lit "href" ++ c_lbrace :: url
                       ++ c_rbrace :: c_lbrace :: label ++ [c_rbrace]))].
Proof.
  intros Hu Hl Hru Hrl Hb1 Hb2 Hb3 Hb4 Hd1 Hd2 Hd3 Hd4.
  assert (Hd : lacks c_dollar
                 (pre ++ (c_backslash :: lit "href" ++ c_lbrace :: url
                          ++ c_rbrace :: c_lbrace :: label ++ [c_rbrace])
                  ++ post)).
  { apply lacks_app. split; [exact Hd1|]. apply lacks_app.
    split; [|exact Hd4].
    constructor; [discriminate|]. apply lacks_app.
    split; [repeat constructor; discriminate|].
    constructor; [discriminate|]. apply lacks_app. split; [exact Hd2|].
    constructor; [discriminate|]. constructor; [discriminate|].
    apply lacks_app. split; [exact Hd3|]. repeat constructor. discriminate. }
  assert (Ht : lacks c_backslash
                 ((lit "href" ++ c_lbrace :: url
                   ++ c_rbrace :: c_lbrace :: label ++ [c_rbrace]) ++ post)).
  { apply lacks_app. split; [|exact Hb4]. apply lacks_app.
    split; [repeat constructor; discriminate|].
    constructor; [discriminate|]. apply lacks_app. split; [exact Hb2|].
    constructor; [discriminate|]. constructor; [discriminate|].
    apply lacks_app. split; [exact Hb3|]. repeat constructor. discriminate. }
  unfold find_elements.
  rewrite (@elems_of_nil _ K_math_display p_math_display)
    by exact (finditer_from_lacks _ math_display_needs None 0 Hd).
  rewrite (@elems_of_nil _ K_math_inline p_math_inline)
    by exact (finditer_from_lacks _ math_inline_needs None 0 Hd).
  rewrite (@elems_of_nil _ K_math_display p_math_display_brackets)
    by exact (@finditer_from_candidate _ p_math_display_brackets c_backslash
                (@delimited_needs (lit "[") (lit "\]"))
                pre c_backslash _ Hb1 Ht (fun _ => eq_refl) None 0).
  rewrite (@elems_of_nil _ K_math_inline p_math_inline_parens)
    by exact (@finditer_from_candidate _ p_math_inline_parens c_backslash
                (@delimited_needs (lit "(") (lit "\)"))
                pre c_backslash _ Hb1 Ht (fun _ => eq_refl) None 0).
  rewrite (@elems_of_nil _ K_textbf p_textbf)
    by exact (@finditer_from_candidate _ p_textbf c_backslash
                (@cmd_braced_needs (lit "textbf"))
                pre c_backslash _ Hb1 Ht (fun _ => eq_refl) None 0).
  rewrite (@elems_of_nil _ K_textit p_textit)
    by exact (@finditer_from_candidate _ p_textit c_backslash
                (@cmd_braced_needs (lit "textit"))
                pre c_backslash _ Hb1 Ht (fun _ => eq_refl) None 0).
  rewrite (@elems_of_nil _ K_code p_texttt)
    by exact (@finditer_from_candidate _ p_texttt c_backslash
                (@cmd_braced_needs (lit "texttt"))
                pre c_backslash _ Hb1 Ht (fun _ => eq_refl) None 0).
  unfold elems_of, p_href.
  rewrite finditer_href by assumption. reflexivity.
Qed.

End InlineLink.

(** X21. In text that has no other backslash and no dollar sign, a [\href]
    command with a target and a label (both non-empty, without a closing
    brace) is scanned as one link node that holds the label as content and
    the target under [url], and the paragraph renders it as
    [[label](target)]. *)
Theorem parse_paragraph_link :
  forall pre url label post : str,
    url <> [] -> label <> [] ->
    lacks c_rbrace url -> lacks c_rbrace label ->
    lacks c_backslash pre -> lacks c_backslash url ->
    lacks c_backslash label -> lacks c_backslash post ->
    lacks c_dollar pre -> lacks c_dollar url ->
    lacks c_dollar label -> lacks c_dollar post ->
    children (_parse_paragraph
                (pre ++ lit "\href{" ++ url ++ lit "}{" ++ label ++ lit "}"
                 ++ post))
    = text_gap pre
      ++ [Node LINK (CStr label) [] [("url"%string, AStr url)]]
      ++ text_gap post
    /\ BlockHandler.convert_paragraph
         (_parse_paragraph
            (pre ++ lit "\href{" ++ url ++ lit "}{" ++ label ++ lit "}"
             ++ post))
       = Some (gap_text pre ++ lit "[" ++ label ++ lit "](" ++ url ++ lit ")"
               ++ gap_text post).
Proof.
  intros pre url label post Hu Hl Hru Hrl Hb1 Hb2 Hb3 Hb4 Hd1 Hd2 Hd3 Hd4.
  assert (Hc : children (_parse_paragraph
                           (pre ++ lit "\href{" ++ url ++ lit "}{" ++ label
                            ++ lit "}" ++ post))
               = text_gap pre
                 ++ [elem_node (mkElem (K_href url label) 0 0)]
                 ++ text_gap post).
  { replace (pre ++ lit "\href{" ++ url ++ lit "}{" ++ label ++ lit "}"
             ++ post)
      with (pre ++ (c_backslash :: lit "href" ++ c_lbrace :: url
                    ++ c_rbrace :: c_lbrace :: label ++ [c_rbrace]) ++ post)
      by (f_equal;
          change (lit "\href{") with ((c_backslash :: lit "href") ++ [c_lbrace]);
          change (lit "}{") with [c_rbrace; c_lbrace];
          change (lit "}") with [c_rbrace];
          repeat ((rewrite <- app_assoc) || (progress cbn [app]));
          reflexivity).
    apply (@parse_paragraph_single pre _ post (K_href url label));
      [discriminate|].
    apply find_elements_href; assumption. }
  split; [exact Hc|].
  rewrite parse_paragraph_node, Hc.
  rewrite (@convert_paragraph_single pre post
             (lit "[" ++ label ++ lit "](" ++ url ++ lit ")")
             (elem_node (mkElem (K_href url label) 0 0)) eq_refl).
  rewrite <- !app_assoc. reflexivity.
Qed.

Lemma parse_paragraph_link_witness :
  children (_parse_paragraph
              (lit "see " ++ lit "\href{" ++ lit "http://a.b" ++ lit "}{"
               ++ lit "here" ++ lit "}" ++ lit "."))
  = text_gap (lit "see ")
    ++ [Node LINK (CStr (lit "here")) []
          [("url"%string, AStr (lit "http://a.b"))]]
    ++ text_gap (lit ".")
  /\ BlockHandler.convert_paragraph
       (_parse_paragraph
          (lit "see " ++ lit "\href{" ++ lit "http://a.b" ++ lit "}{"
           ++ lit "here" ++ lit "}" ++ lit "."))
     = Some (gap_text (lit "see ") ++ lit "[" ++ lit "here" ++ lit "]("
             ++ lit "http://a.b" ++ lit ")" ++ gap_text (lit ".")).
Proof.
  apply (@parse_paragraph_link (lit "see ") (lit "http://a.b") (lit "here")
           (lit "."));
    try discriminate; repeat constructor; discriminate.
Defined.

Section DisplayMath.

(** The display pattern on [$$g$$]. *)
Lemma math_display_at (g post : str) (prev : option char) :
  g <> [] -> lacks c_dollar g ->
  math_display_m prev
    ((c_dollar :: c_dollar :: g ++ [c_dollar; c_dollar]) ++ post)
  = Some (List.length (c_dollar :: c_dollar :: g ++ [c_dollar; c_dollar]), g).
Proof.
  intros Hne Hg. unfold math_display_m. cbn [app strip_prefix].
  rewrite ceq_refl, <- app_assoc. cbn [app].
  rewrite (span_not_app (c_dollar :: post) Hg).
  destruct g as [|x g']; [congruence|].
  cbn [startswith]. rewrite !ceq_refl. cbn [andb List.length].
  rewrite length_app. cbn [List.length]. do 2 f_equal. lia.
Qed.

(** The dollar pattern fails on a dollar sign before another one, whatever
    comes before. *)
Lemma math_inline_before_dollar (prev : option char) (r : str) :
  math_inline_m prev (c_dollar :: c_dollar :: r) = None.
Proof.
  unfold math_inline_m.
  destruct (match prev with
            | Some p => negb (ceq p c_dollar)
            | None => true
            end); [|reflexivity].
  rewrite ceq_refl. cbn [span_not]. rewrite ceq_refl. reflexivity.
Qed.

(** And on anything that comes after a dollar sign. *)
Lemma math_inline_after_dollar (s : str) :
  math_inline_m (Some c_dollar) s = None.
Proof. unfold math_inline_m. rewrite ceq_refl. reflexivity. Qed.

Lemma finditer_inline_closing (g post : str) :
  lacks c_dollar g -> lacks c_dollar post ->
  forall prev pos,
    finditer_from math_inline_m prev pos 0
      (g ++ c_dollar :: c_dollar :: post) = [].
Proof.
  intros Hg Hpost. induction Hg as [|x g Hx _ IH]; intros prev pos.
  - cbn [app finditer_from].
    rewrite math_inline_before_dollar, math_inline_after_dollar.
    destruct post as [|c post']; [reflexivity|].
    exact (finditer_from_lacks _ math_inline_needs (Some c_dollar) _ Hpost).
  - cbn [app finditer_from].
    rewrite (@no_match_other_head _ math_inline_m c_dollar math_inline_needs
               prev x _ Hx). apply IH.
Qed.

(** Inside and around [$$g$$] the dollar pattern finds nothing. *)
Lemma finditer_inline_display (pre g post : str) :
  lacks c_dollar pre -> lacks c_dollar g -> lacks c_dollar post ->
  forall prev pos,
    finditer_from math_inline_m prev pos 0
      (pre ++ (c_dollar :: c_dollar :: g ++ [c_dollar; c_dollar]) ++ post)
    = [].
Proof.
  intros Hpre Hg Hpost. induction Hpre as [|x pre Hx _ IH]; intros prev pos.
  - cbn [app finditer_from].
    rewrite math_inline_before_dollar, math_inline_after_dollar.
    rewrite <- app_assoc. cbn [app].
    destruct (g ++ c_dollar :: c_dollar :: post) eqn:E; [reflexivity|].
    rewrite <- E. apply finditer_inline_closing; assumption.
  - cbn [app finditer_from].
    rewrite (@no_match_other_head _ math_inline_m c_dollar math_inline_needs
               prev x _ Hx). apply IH.
Qed.

(** The matches of a text with one [$$g$$] and otherwise no dollar sign and
    no backslash. *)
Lemma find_elements_display_math (pre g post : str) :
  g <> [] ->
  lacks c_backslash pre -> lacks c_backslash g -> lacks c_backslash post ->
  lacks c_dollar pre -> lacks c_dollar g -> lacks c_dollar post ->
  find_elements
    (pre ++ (c_dollar :: c_dollar :: g ++ [c_dollar; c_dollar]) ++ post)
  = [mkElem (K_math_display g) (List.length pre)
       (List.length pre
        + List.length (c_dollar :: c_dollar :: g ++ [c_dollar; c_dollar]))].
Proof.
  intros Hne Hb1 Hb2 Hb3 Hd1 Hd2 Hd3.
  assert (Hb : lacks c_backslash
                 (pre ++ (c_dollar :: c_dollar :: g ++ [c_dollar; c_dollar])
                  ++ post)).
  { apply lacks_app. split; [exact Hb1|]. apply lacks_app. split; [|exact Hb3].
    constructor; [discriminate|]. constructor; [discriminate|].
    apply lacks_app. split; [exact Hb2|repeat constructor; discriminate]. }
  unfold find_elements.
  rewrite (@elems_of_nil _ K_math_inline p_math_inline)
    by exact (finditer_inline_display Hd1 Hd2 Hd3 None 0).
  rewrite (@elems_of_nil _ K_math_display p_math_display_brackets)
    by exact (finditer_from_lacks _
                (@delimited_needs (lit "[") (lit "\]")) None 0 Hb).
  rewrite (@elems_of_nil _ K_math_inline p_math_inline_parens)
    by exact (finditer_from_lacks _
                (@delimited_needs (lit "(") (lit "\)")) None 0 Hb).
  rewrite (@elems_of_nil _ K_textbf p_textbf)
    by exact (finditer_from_lacks _ (@cmd_braced_needs (lit "textbf")) None 0 Hb).
  rewrite (@elems_of_nil _ K_textit p_textit)
    by exact (finditer_from_lacks _ (@cmd_braced_needs (lit "textit")) None 0 Hb).
  rewrite (@elems_of_nil _ K_code p_texttt)
    by exact (finditer_from_lacks _ (@cmd_braced_needs (lit "texttt")) None 0 Hb).
  rewrite (@elems_of_nil _ _ p_href)
    by exact (finditer_from_lacks _ href_needs None 0 Hb).
  unfold elems_of, finditer, p_math_display.
  rewrite (@finditer_from_single _ math_display_m c_dollar math_display_needs
             pre (c_dollar :: g ++ [c_dollar; c_dollar]) c_dollar post g
             Hd1 Hd3);
    [reflexivity| |discriminate].
  intros prev _. apply math_display_at; assumption.
Qed.

End DisplayMath.

(** X22. In text that has no backslash and no other dollar sign, [$$g$$]
    with a non-empty [g] is scanned as one display-math node and not as
    inline math as well; the paragraph renders it as [g] on a line of its
    own between [\[] and [\]]. *)
Theorem parse_paragraph_display_math :
  forall pre g post : str,
    g <> [] ->
    lacks c_backslash pre -> lacks c_backslash g -> lacks c_backslash post ->
    lacks c_dollar pre -> lacks c_dollar g -> lacks c_dollar post ->
    children (_parse_paragraph (pre ++ lit "$$" ++ g ++ lit "$$" ++ post))
    = text_gap pre ++ [leaf MATH_DISPLAY (CStr g)] ++ text_gap post
    /\ BlockHandler.convert_paragraph
         (_parse_paragraph (pre ++ lit "$$" ++ g ++ lit "$$" ++ post))
       = Some (gap_text pre ++ lit "\[" ++ nl ++ g ++ nl ++ lit "\]"
               ++ gap_text post).
Proof.
  intros pre g post Hne Hb1 Hb2 Hb3 Hd1 Hd2 Hd3.
  assert (Hc : children (_parse_paragraph
                           (pre ++ lit "$$" ++ g ++ lit "$$" ++ post))
               = text_gap pre
                 ++ [elem_node (mkElem (K_math_display g) 0 0)]
                 ++ text_gap post).
  { replace (pre ++ lit "$$" ++ g ++ lit "$$" ++ post)
      with (pre ++ (c_dollar :: c_dollar :: g ++ [c_dollar; c_dollar])
            ++ post)
      by (f_equal; change (lit "$$") with [c_dollar; c_dollar];
          repeat ((rewrite <- app_assoc) || (progress cbn [app]));
          reflexivity).
    apply (@parse_paragraph_single pre _ post (K_math_display g));
      [discriminate|].
    apply find_elements_display_math; assumption. }
  split; [exact Hc|].
  rewrite parse_paragraph_node, Hc.
  rewrite (@convert_paragraph_single pre post
             (lit "\[" ++ nl ++ g ++ nl ++ lit "\]")
             (elem_node (mkElem (K_math_display g) 0 0)) eq_refl).
  rewrite <- !app_assoc. reflexivity.
Qed.

Lemma parse_paragraph_display_math_witness :
  children (_parse_paragraph
              (lit "so " ++ lit "$$" ++ lit "x=1" ++ lit "$$" ++ lit "."))
  = text_gap (lit "so ") ++ [leaf MATH_DISPLAY (CStr (lit "x=1"))]
    ++ text_gap (lit ".")
  /\ BlockHandler.convert_paragraph
       (_parse_paragraph
          (lit "so " ++ lit "$$" ++ lit "x=1" ++ lit "$$" ++ lit "."))
     = Some (gap_text (lit "so ") ++ lit "\[" ++ nl ++ lit "x=1" ++ nl
             ++ lit "\]" ++ gap_text (lit ".")).
Proof.
  apply (@parse_paragraph_display_math (lit "so ") (lit "x=1") (lit "."));
    try discriminate; repeat constructor; discriminate.
Defined.

Section SeveralCandidates.

Context {G : Type}.
Variable m : matcher G.
Variable trigger : char.

Hypothesis m_needs :
  forall prev s, m prev s <> None -> exists r, s = trigger :: r.

(** A place where a match could start and does not, before a stretch with
    no match. *)
Lemma finditer_from_candidate_then (pre : str) (c : char) (rest : str) :
  lacks trigger pre ->
  (forall prev, m prev (c :: rest) = None) ->
  (forall prev pos, finditer_from m prev pos 0 rest = []) ->
  forall prev pos, finditer_from m prev pos 0 (pre ++ c :: rest) = [].
Proof.
  intros Hpre Hm Hrest. induction Hpre as [|y pre Hy _ IH]; intros prev pos.
  - cbn [app finditer_from]. rewrite Hm. apply Hrest.
  - cbn [app finditer_from].
    rewrite (@no_match_other_head _ m trigger m_needs prev y _ Hy).
    apply IH.
Qed.

End SeveralCandidates.

Section DelimitedMath.

Lemma until_lit_app (a b : char) (g rest : str) :
  lacks a g -> until_lit [a; b] (g ++ a :: b :: rest) = Some g.
Proof.
  induction 1 as [|x g Hx _ IH].
  - cbn [app until_lit startswith]. rewrite !ceq_refl. reflexivity.
  - cbn [app until_lit startswith].
    rewrite (ceq_sym a x), (ceq_neq Hx). cbn [andb].
    change (until_lit [a; b] (g ++ a :: b :: rest) = Some g) in IH.
    rewrite IH. reflexivity.
Qed.

(** A delimiter pattern on its delimiters around text without a
    backslash. *)
Lemma delimited_at (o c : char) (g post : str) (prev : option char) :
  lacks c_backslash g ->
  delimited_m [c_backslash; o] [c_backslash; c] prev
    ((c_backslash :: o :: g ++ [c_backslash; c]) ++ post)
  = Some (List.length (c_backslash :: o :: g ++ [c_backslash; c]), g).
Proof.
  intro Hg. unfold delimited_m. cbn [app strip_prefix].
  rewrite !ceq_refl, <- app_assoc. cbn [app].
  rewrite (until_lit_app c post Hg).
  cbn [List.length]. rewrite length_app. cbn [List.length].
  do 2 f_equal; lia.
Qed.

Lemma finditer_delimited (o c : char) (pre g post : str) :
  lacks c_backslash pre -> lacks c_backslash g -> lacks c_backslash post ->
  finditer (delimited_m [c_backslash; o] [c_backslash; c])
    (pre ++ (c_backslash :: o :: g ++ [c_backslash; c]) ++ post)
  = [(List.length pre,
      List.length pre
      + List.length (c_backslash :: o :: g ++ [c_backslash; c]), g)].
Proof.
  intros Hpre Hg Hpost. unfold finditer.
  rewrite (@finditer_from_single _
             (delimited_m [c_backslash; o] [c_backslash; c]) c_backslash
             (@delimited_needs [o] [c_backslash; c])
             pre (o :: g ++ [c_backslash; c]) c_backslash post g Hpre Hpost);
    [reflexivity| |discriminate].
  intros prev _. apply delimited_at. exact Hg.
Qed.

Lemma delimited_text_lacks_dollar (o c : char) (pre g post : str) :
  o <> c_dollar -> c <> c_dollar ->
  lacks c_dollar pre -> lacks c_dollar g -> lacks c_dollar post ->
  lacks c_dollar
    (pre ++ (c_backslash :: o :: g ++ [c_backslash; c]) ++ post).
Proof.
  intros Ho Hc Hpre Hg Hpost.
  apply lacks_app. split; [exact Hpre|]. apply lacks_app. split; [|exact Hpost].
  constructor; [discriminate|]. constructor; [exact Ho|].
  apply lacks_app. split; [exact Hg|].
  constructor; [discriminate|]. constructor; [exact Hc|]. constructor.
Qed.

(** The matches of a text with one [\( g \)] and otherwise no backslash and
    no dollar sign. *)
Lemma find_elements_parens (pre g post : str) :
  lacks c_backslash pre -> lacks c_backslash g -> lacks c_backslash post ->
  lacks c_dollar pre -> lacks c_dollar g -> lacks c_dollar post ->
  find_elements
    (pre ++ (c_backslash :: c_lparen :: g ++ [c_backslash; c_rparen]) ++ post)
  = [mkElem (K_math_inline g) (List.length pre)
       (List.length pre
        + List.length (c_backslash :: c_lparen :: g ++ [c_backslash; c_rparen]))].
Proof.
  intros Hb1 Hb2 Hb3 Hd1 Hd2 Hd3.
  assert (Hd : lacks c_dollar
                 (pre ++ (c_backslash :: c_lparen :: g ++ [c_backslash; c_rparen])
                  ++ post))
    by (apply delimited_text_lacks_dollar; try assumption; discriminate).
  assert (Hin : lacks c_backslash (c_lparen :: g))
    by (constructor; [discriminate|exact Hb2]).
  assert (Hout : lacks c_backslash (c_rparen :: post))
    by (constructor; [discriminate|exact Hb3]).
  assert (Hother :
            forall (G : Type) (q : matcher G),
              (forall prev s, q prev s <> None ->
                              exists r, s = c_backslash :: r) ->
              (forall prev,
                  q prev (c_backslash
                          :: (c_lparen :: g) ++ c_backslash :: c_rparen :: post)
                  = None) ->
              (forall prev, q prev (c_backslash :: c_rparen :: post) = None) ->
              finditer q
                (pre ++ (c_backslash :: c_lparen :: g ++ [c_backslash; c_rparen])
                 ++ post) = []).
  { intros G q Hneeds H1 H2. unfold finditer.
    replace (pre ++ (c_backslash :: c_lparen :: g ++ [c_backslash; c_rparen]) ++ post)
      with (pre ++ c_backslash
            :: ((c_lparen :: g) ++ c_backslash :: c_rparen :: post))
      by (cbn [app]; rewrite <- app_assoc; reflexivity).
    apply (@finditer_from_candidate_then _ q c_backslash Hneeds);
      [exact Hb1|exact H1|].
    intros prev pos.
    exact (@finditer_from_candidate _ q c_backslash Hneeds
             (c_lparen :: g) c_backslash (c_rparen :: post) Hin Hout H2 prev pos). }
  unfold find_elements.
  rewrite (@elems_of_nil _ K_math_display p_math_display)
    by exact (finditer_from_lacks _ math_display_needs None 0 Hd).
  rewrite (@elems_of_nil _ K_math_inline p_math_inline)
    by exact (finditer_from_lacks _ math_inline_needs None 0 Hd).
  rewrite (@elems_of_nil _ K_math_display p_math_display_brackets)
    by exact (Hother _ p_math_display_brackets (@delimited_needs (lit "[") (lit "\]")) (fun _ => eq_refl) (fun _ => eq_refl)).
  rewrite (@elems_of_nil _ K_textbf p_textbf)
    by exact (Hother _ p_textbf (@cmd_braced_needs (lit "textbf")) (fun _ => eq_refl) (fun _ => eq_refl)).
  rewrite (@elems_of_nil _ K_textit p_textit)
    by exact (Hother _ p_textit (@cmd_braced_needs (lit "textit")) (fun _ => eq_refl) (fun _ => eq_refl)).
  rewrite (@elems_of_nil _ K_code p_texttt)
    by exact (Hother _ p_texttt (@cmd_braced_needs (lit "texttt")) (fun _ => eq_refl) (fun _ => eq_refl)).
  rewrite (@elems_of_nil _ _ p_href)
    by exact (Hother _ p_href href_needs (fun _ => eq_refl) (fun _ => eq_refl)).
  unfold elems_of, p_math_inline_parens.
  change (delimited_m (lit "\(") (lit "\)"))
    with (delimited_m [c_backslash; c_lparen] [c_backslash; c_rparen]).
  rewrite (finditer_delimited c_lparen c_rparen Hb1 Hb2 Hb3). reflexivity.
Qed.

(** The matches of a text with one [\[ g \]] and otherwise no backslash and
    no dollar sign. *)
Lemma find_elements_brackets (pre g post : str) :
  lacks c_backslash pre -> lacks c_backslash g -> lacks c_backslash post ->
  lacks c_dollar pre -> lacks c_dollar g -> lacks c_dollar post ->
  find_elements
    (pre ++ (c_backslash :: c_lbrack :: g ++ [c_backslash; c_rbrack]) ++ post)
  = [mkElem (K_math_display g) (List.length pre)
       (List.length pre
        + List.length (c_backslash :: c_lbrack :: g ++ [c_backslash; c_rbrack]))].
Proof.
  intros Hb1 Hb2 Hb3 Hd1 Hd2 Hd3.
  assert (Hd : lacks c_dollar
                 (pre ++ (c_backslash :: c_lbrack :: g ++ [c_backslash; c_rbrack])
                  ++ post))
    by (apply delimited_text_lacks_dollar; try assumption; discriminate).
  assert (Hin : lacks c_backslash (c_lbrack :: g))
    by (constructor; [discriminate|exact Hb2]).
  assert (Hout : lacks c_backslash (c_rbrack :: post))
    by (constructor; [discriminate|exact Hb3]).
  assert (Hother :
            forall (G : Type) (q : matcher G),
              (forall prev s, q prev s <> None ->
                              exists r, s = c_backslash :: r) ->
              (forall prev,
                  q prev (c_backslash
                          :: (c_lbrack :: g) ++ c_backslash :: c_rbrack :: post)
                  = None) ->
              (forall prev, q prev (c_backslash :: c_rbrack :: post) = None) ->
              finditer q
                (pre ++ (c_backslash :: c_lbrack :: g ++ [c_backslash; c_rbrack])
                 ++ post) = []).
  { intros G q Hneeds H1 H2. unfold finditer.
    replace (pre ++ (c_backslash :: c_lbrack :: g ++ [c_backslash; c_rbrack]) ++ post)
      with (pre ++ c_backslash
            :: ((c_lbrack :: g) ++ c_backslash :: c_rbrack :: post))
      by (cbn [app]; rewrite <- app_assoc; reflexivity).
    apply (@finditer_from_candidate_then _ q c_backslash Hneeds);
      [exact Hb1|exact H1|].
    intros prev pos.
    exact (@finditer_from_candidate _ q c_backslash Hneeds
             (c_lbrack :: g) c_backslash (c_rbrack :: post) Hin Hout H2 prev pos). }
  unfold find_elements.
  rewrite (@elems_of_nil _ K_math_display p_math_display)
    by exact (finditer_from_lacks _ math_display_needs None 0 Hd).
  rewrite (@elems_of_nil _ K_math_inline p_math_inline)
    by exact (finditer_from_lacks _ math_inline_needs None 0 Hd).
  rewrite (@elems_of_nil _ K_math_inline p_math_inline_parens)
    by exact (Hother _ p_math_inline_parens (@delimited_needs (lit "(") (lit "\)")) (fun _ => eq_refl) (fun _ => eq_refl)).
  rewrite (@elems_of_nil _ K_textbf p_textbf)
    by exact (Hother _ p_textbf (@cmd_braced_needs (lit "textbf")) (fun _ => eq_refl) (fun _ => eq_refl)).
  rewrite (@elems_of_nil _ K_textit p_textit)
    by exact (Hother _ p_textit (@cmd_braced_needs (lit "textit")) (fun _ => eq_refl) (fun _ => eq_refl)).
  rewrite (@elems_of_nil _ K_code p_texttt)
    by exact (Hother _ p_texttt (@cmd_braced_needs (lit "texttt")) (fun _ => eq_refl) (fun _ => eq_refl)).
  rewrite (@elems_of_nil _ _ p_href)
    by exact (Hother _ p_href href_needs (fun _ => eq_refl) (fun _ => eq_refl)).
  unfold elems_of, p_math_display_brackets.
  change (delimited_m (lit "\[") (lit "\]"))
    with (delimited_m [c_backslash; c_lbrack] [c_backslash; c_rbrack]).
  rewrite (finditer_delimited c_lbrack c_rbrack Hb1 Hb2 Hb3). reflexivity.
Qed.

End DelimitedMath.

(** X23. In text that has no other backslash and no dollar sign, math
    between backslash-parentheses is scanned as one inline-math node and
    rendered back between the same delimiters; math between
    backslash-brackets is scanned as one display-math node and rendered on
    a line of its own between backslash-brackets.  The math may be empty. *)
Theorem parse_paragraph_delimited_math :
  forall pre g post : str,
    lacks c_backslash pre -> lacks c_backslash g -> lacks c_backslash post ->
    lacks c_dollar pre -> lacks c_dollar g -> lacks c_dollar post ->
    (children (_parse_paragraph (pre ++ lit "\(" ++ g ++ lit "\)" ++ post))
     = text_gap pre ++ [leaf MATH_INLINE (CStr g)] ++ text_gap post
     /\ BlockHandler.convert_paragraph
          (_parse_paragraph (pre ++ lit "\(" ++ g ++ lit "\)" ++ post))
        = Some (gap_text pre ++ lit "\(" ++ g ++ lit "\)" ++ gap_text post))
    /\ (children (_parse_paragraph (pre ++ lit "\[" ++ g ++ lit "\]" ++ post))
        = text_gap pre ++ [leaf MATH_DISPLAY (CStr g)] ++ text_gap post
        /\ BlockHandler.convert_paragraph
             (_parse_paragraph (pre ++ lit "\[" ++ g ++ lit "\]" ++ post))
           = Some (gap_text pre ++ lit "\[" ++ nl ++ g ++ nl ++ lit "\]"
                   ++ gap_text post)).
Proof.
  intros pre g post Hb1 Hb2 Hb3 Hd1 Hd2 Hd3. split.
  - assert (Hc : children (_parse_paragraph
                             (pre ++ lit "\(" ++ g ++ lit "\)" ++ post))
                 = text_gap pre
                   ++ [elem_node (mkElem (K_math_inline g) 0 0)]
                   ++ text_gap post).
    { replace (pre ++ lit "\(" ++ g ++ lit "\)" ++ post)
        with (pre ++ (c_backslash :: c_lparen
                      :: g ++ [c_backslash; c_rparen]) ++ post)
        by (f_equal; change (lit "\(") with [c_backslash; c_lparen];
            change (lit "\)") with [c_backslash; c_rparen];
            repeat ((rewrite <- app_assoc) || (progress cbn [app]));
            reflexivity).
      apply (@parse_paragraph_single pre _ post (K_math_inline g));
        [discriminate|].
      apply find_elements_parens; assumption. }
    split; [exact Hc|].
    rewrite parse_paragraph_node, Hc.
    rewrite (@convert_paragraph_single pre post
               (lit "\(" ++ g ++ lit "\)")
               (elem_node (mkElem (K_math_inline g) 0 0)) eq_refl).
    rewrite <- !app_assoc. reflexivity.
  - assert (Hc : children (_parse_paragraph
                             (pre ++ lit "\[" ++ g ++ lit "\]" ++ post))
                 = text_gap pre
                   ++ [elem_node (mkElem (K_math_display g) 0 0)]
                   ++ text_gap post).
    { replace (pre ++ lit "\[" ++ g ++ lit "\]" ++ post)
        with (pre ++ (c_backslash :: c_lbrack
                      :: g ++ [c_backslash; c_rbrack]) ++ post)
        by (f_equal; change (lit "\[") with [c_backslash; c_lbrack];
            change (lit "\]") with [c_backslash; c_rbrack];
            repeat ((rewrite <- app_assoc) || (progress cbn [app]));
            reflexivity).
      apply (@parse_paragraph_single pre _ post (K_math_display g));
        [discriminate|].
      apply find_elements_brackets; assumption. }
    split; [exact Hc|].
    rewrite parse_paragraph_node, Hc.
    rewrite (@convert_paragraph_single pre post
               (lit "\[" ++ nl ++ g ++ nl ++ lit "\]")
               (elem_node (mkElem (K_math_display g) 0 0)) eq_refl).
    rewrite <- !app_assoc. reflexivity.
Qed.

Lemma parse_paragraph_delimited_math_witness :
  (children (_parse_paragraph
               (lit "so " ++ lit "\(" ++ lit "x" ++ lit "\)" ++ lit "."))
   = text_gap (lit "so ") ++ [leaf MATH_INLINE (CStr (lit "x"))]
     ++ text_gap (lit ".")
   /\ BlockHandler.convert_paragraph
        (_parse_paragraph
           (lit "so " ++ lit "\(" ++ lit "x" ++ lit "\)" ++ lit "."))
      = Some (gap_text (lit "so ") ++ lit "\(" ++ lit "x" ++ lit "\)"
              ++ gap_text (lit ".")))
  /\ (children (_parse_paragraph
                  (lit "so " ++ lit "\[" ++ lit "x" ++ lit "\]" ++ lit "."))
      = text_gap (lit "so ") ++ [leaf MATH_DISPLAY (CStr (lit "x"))]
        ++ text_gap (lit ".")
      /\ BlockHandler.convert_paragraph
           (_parse_paragraph
              (lit "so " ++ lit "\[" ++ lit "x" ++ lit "\]" ++ lit "."))
         = Some (gap_text (lit "so ") ++ lit "\[" ++ nl ++ lit "x" ++ nl
                 ++ lit "\]" ++ gap_text (lit "."))).
Proof.
  apply (@parse_paragraph_delimited_math (lit "so ") (lit "x") (lit "."));
    repeat constructor; discriminate.
Defined.
